(** * The news reader's content pipeline (src/js/reader.js, src/js/api.js)

    A shallow embedding of the [Reader] module (content fetcher, markdown
    and HTML normaliser, content resolver) and of the parts of the [UI]
    module that own the search history and the article modal, followed by
    the properties checked against the specification. *)

From Stdlib Require Import Ascii String DecimalString.
From Stdlib Require Import NArith ZArith Bool Arith Lia List.
Import ListNotations.

(** ** JavaScript strings

    A JavaScript string is a sequence of UTF-16 code units. *)

Definition jsstring := list N.

Definition lit (s : string) : jsstring :=
  map N_of_ascii (list_ascii_of_string s).

(** [sq] reads a literal in which the apostrophe stands for the double
    quote character (U+0022), so that markup such as
    [<div class="reader-error">] can be written down as it is in the
    source. *)
Definition sq (s : string) : jsstring :=
  map (fun c => if N.eqb c 39 then 34%N else c) (lit s).

Definition jseqb (a b : jsstring) : bool :=
  if list_eq_dec N.eq_dec a b then true else false.

Fixpoint startsWith (needle s : jsstring) : bool :=
  match needle, s with
  | [], _ => true
  | _ :: _, [] => false
  | a :: n', b :: s' => N.eqb a b && startsWith n' s'
  end.

(** [String.prototype.includes]: [includes needle s] is [s.includes(needle)]. *)
Fixpoint includes (needle s : jsstring) : bool :=
  startsWith needle s ||
  match s with
  | [] => false
  | _ :: s' => includes needle s'
  end.

(** ECMAScript LineTerminator code points. *)
Definition isLineTerminator (c : N) : bool :=
  N.eqb c 10 || N.eqb c 13 || N.eqb c 8232 || N.eqb c 8233.

(** ECMAScript WhiteSpace code points (TAB, VT, FF, SP, NBSP, ZWNBSP and
    the Unicode space separators). *)
Definition isWhiteSpace (c : N) : bool :=
  N.eqb c 9 || N.eqb c 11 || N.eqb c 12 || N.eqb c 32 || N.eqb c 160 ||
  N.eqb c 5760 || (N.leb 8192 c && N.leb c 8202) || N.eqb c 8239 ||
  N.eqb c 8287 || N.eqb c 12288 || N.eqb c 65279.

Definition isTrimmable (c : N) : bool := isWhiteSpace c || isLineTerminator c.

Fixpoint trimStart (s : jsstring) : jsstring :=
  match s with
  | [] => []
  | c :: s' => if isTrimmable c then trimStart s' else s
  end.

(** [String.prototype.trim]. *)
Definition trim (s : jsstring) : jsstring :=
  rev (trimStart (rev (trimStart s))).

(** Lower case of an ASCII letter; other code units are left alone. *)
Definition asciiLower (c : N) : N :=
  if N.leb 65 c && N.leb c 90 then (c + 32)%N else c.

(** JavaScript truthiness of a string: the empty string is falsy. *)
Definition truthy (s : jsstring) : bool :=
  match s with [] => false | _ :: _ => true end.

(** Decimal rendering of a number inside a template literal. *)
Definition decimal (n : N) : jsstring :=
  lit (NilZero.string_of_uint (N.to_uint n)).

(** The same for an integer that may be negative. *)
Definition decimalZ (z : Z) : jsstring :=
  match z with
  | Zneg p => 45%N :: decimal (Npos p)
  | _ => decimal (Z.to_N z)
  end.

(** ** Regular expressions

    The fragment of ECMAScript regular expressions used by
    [markdownToHtml]: literal characters, the classes [.], [[^c]], the
    multiline assertions [^] and [$], greedy and lazy repetition of a
    class, capture groups and concatenation.  All patterns of the source
    carry the flags [gim]; none of them contains a letter and no code unit
    canonicalises to one of their punctuation characters, so the [i] flag
    does not change what they match. *)

Inductive cclass : Type :=
| Dot                      (* .     any code unit but a line terminator *)
| Except (c : N).          (* [^c] *)

Definition cmatch (cl : cclass) (c : N) : bool :=
  match cl with
  | Dot => negb (isLineTerminator c)
  | Except x => negb (N.eqb c x)
  end.

Inductive regex : Type :=
| Chars (s : jsstring)                       (* a literal run of characters *)
| Bol                                        (* ^ under the m flag *)
| Eol                                        (* $ under the m flag *)
| Rep (greedy : bool) (least : nat) (cl : cclass)
                                             (* cl*, cl+ (greedy) and cl*? (lazy) *)
| Grp (r : regex)                            (* ( r ), numbered left to right *)
| Cat (r1 r2 : regex).

Infix ">>" := Cat (at level 61, right associativity).

(** One way of matching: the code units consumed and the captures made,
    in the order of the groups. *)
Definition attempt := (jsstring * list jsstring)%type.

Definition lastOr (prev : option N) (s : jsstring) : option N :=
  match rev s with
  | [] => prev
  | c :: _ => Some c
  end.

(** All runs of [cl] at the head of [s], in the order in which a
    backtracking matcher tries them: longest first when greedy, shortest
    first when lazy. *)
Fixpoint runs (greedy : bool) (cl : cclass) (s : jsstring) : list jsstring :=
  match s with
  | c :: s' =>
      if cmatch cl c then
        let longer := map (cons c) (runs greedy cl s') in
        if greedy then longer ++ [[]] else [] :: longer
      else [[]]
  | [] => [[]]
  end.

(** [attempts r prev s]: every way in which [r] matches at the head of
    [s], in backtracking order; [prev] is the code unit just before the
    position, if there is one. *)
Fixpoint attempts (r : regex) (prev : option N) (s : jsstring) : list attempt :=
  match r with
  | Chars l => if startsWith l s then [(l, [])] else []
  | Bol =>
      match prev with
      | None => [([], [])]
      | Some c => if isLineTerminator c then [([], [])] else []
      end
  | Eol =>
      match s with
      | [] => [([], [])]
      | c :: _ => if isLineTerminator c then [([], [])] else []
      end
  | Rep greedy least cl =>
      map (fun run => (run, []))
          (filter (fun run => Nat.leb least (length run)) (runs greedy cl s))
  | Grp r1 =>
      map (fun a : attempt => (fst a, fst a :: snd a)) (attempts r1 prev s)
  | Cat r1 r2 =>
      flat_map
        (fun a1 : attempt =>
           map (fun a2 : attempt => (fst a1 ++ fst a2, snd a1 ++ snd a2))
               (attempts r2 (lastOr prev (fst a1)) (skipn (length (fst a1)) s)))
        (attempts r1 prev s)
  end.

(** The match a backtracking engine reports at a position is its first
    successful attempt. *)
Definition exec (r : regex) (prev : option N) (s : jsstring) : option attempt :=
  hd_error (attempts r prev s).

(** Replacement templates: text and the references [$1], [$2]. *)
Inductive piece : Type :=
| Txt (s : jsstring)
| Ref (i : nat).

Definition expand (tmpl : list piece) (caps : list jsstring) : jsstring :=
  flat_map (fun p => match p with
                     | Txt s => s
                     | Ref i => nth (pred i) caps []
                     end) tmpl.

(** [String.prototype.replace] with a global pattern.  [skip] counts the
    code units of the current match that are still to be passed over;
    at [skip = 0] the pattern is tried at the current position.  After an
    empty match the engine copies one code unit and moves on. *)
Fixpoint replaceFrom (r : regex) (tmpl : list piece)
         (skip : nat) (prev : option N) (s : jsstring) : jsstring :=
  match skip with
  | S k =>
      match s with
      | [] => []
      | c :: s' => replaceFrom r tmpl k (Some c) s'
      end
  | O =>
      match exec r prev s with
      | Some (m, caps) =>
          expand tmpl caps ++
          match s with
          | [] => []
          | c :: s' =>
              match m with
              | [] => c :: replaceFrom r tmpl 0 (Some c) s'
              | _ :: m' => replaceFrom r tmpl (length m') (Some c) s'
              end
          end
      | None =>
          match s with
          | [] => []
          | c :: s' => c :: replaceFrom r tmpl 0 (Some c) s'
          end
      end
  end.

Definition replaceAll (r : regex) (tmpl : list piece) (s : jsstring) : jsstring :=
  replaceFrom r tmpl 0 None s.

(** [encodeURIComponent]: code points outside the unreserved set are
    written as the percent-encoded bytes of their UTF-8 form; a lone
    surrogate raises a URIError ([None]). *)
Definition isUnreserved (c : N) : bool :=
  (N.leb 65 c && N.leb c 90) || (N.leb 97 c && N.leb c 122) ||
  (N.leb 48 c && N.leb c 57) ||
  existsb (N.eqb c) [45; 95; 46; 33; 126; 42; 39; 40; 41]%N.

Definition hexDigit (d : N) : N :=
  if N.ltb d 10 then (48 + d)%N else (55 + d)%N.

Definition percent (byte : N) : jsstring :=
  [37%N; hexDigit (byte / 16); hexDigit (byte mod 16)].

Definition utf8 (cp : N) : list N :=
  if N.ltb cp 128 then [cp]
  else if N.ltb cp 2048 then [192 + cp / 64; 128 + cp mod 64]%N
  else if N.ltb cp 65536 then
    [224 + cp / 4096; 128 + (cp / 64) mod 64; 128 + cp mod 64]%N
  else [240 + cp / 262144; 128 + (cp / 4096) mod 64;
        128 + (cp / 64) mod 64; 128 + cp mod 64]%N.

Definition isHighSurrogate (c : N) : bool := N.leb 55296 c && N.leb c 56319.
Definition isLowSurrogate (c : N) : bool := N.leb 56320 c && N.leb c 57343.

Fixpoint encodeURIComponent (s : jsstring) : option jsstring :=
  match s with
  | [] => Some []
  | c :: s' =>
      if isUnreserved c then option_map (cons c) (encodeURIComponent s')
      else if isLowSurrogate c then None
      else if isHighSurrogate c then
        match s' with
        | lo :: s'' =>
            if isLowSurrogate lo then
              option_map
                (app (flat_map percent
                        (utf8 ((c - 55296) * 1024 + (lo - 56320) + 65536)%N)))
                (encodeURIComponent s'')
            else None
        | [] => None
        end
      else option_map (app (flat_map percent (utf8 c))) (encodeURIComponent s')
  end.

(** ** JSON

    [JSON.stringify] on an array of strings, and [JSON.parse] on the
    texts that denote one: the two ends of the search history's stay in
    [localStorage].  [parse] returns [None] on every other text. *)

Module JSON.

Definition hexLower (d : N) : N :=
  if N.ltb d 10 then (48 + d)%N else (87 + d)%N.

(** [\uXXXX], with lower-case digits. *)
Definition unicodeEscape (c : N) : jsstring :=
  [92; 117; hexLower (c / 4096); hexLower ((c / 256) mod 16);
   hexLower ((c / 16) mod 16); hexLower (c mod 16)]%N.

(** The two-character escapes of QuoteJSONString. *)
Definition shortEscape (c : N) : option N :=
  if N.eqb c 8 then Some 98%N            (* \b *)
  else if N.eqb c 9 then Some 116%N      (* \t *)
  else if N.eqb c 10 then Some 110%N     (* \n *)
  else if N.eqb c 12 then Some 102%N     (* \f *)
  else if N.eqb c 13 then Some 114%N     (* \r *)
  else if N.eqb c 34 then Some 34%N
  else if N.eqb c 92 then Some 92%N
  else None.

(** QuoteJSONString without the quotes: the string is read by code
    points, so a surrogate pair is copied and a lone surrogate is
    escaped. *)
Fixpoint quoteBody (s : jsstring) : jsstring :=
  match s with
  | [] => []
  | c :: s' =>
      match shortEscape c with
      | Some e => 92%N :: e :: quoteBody s'
      | None =>
          if N.ltb c 32 then unicodeEscape c ++ quoteBody s'
          else if isHighSurrogate c then
            match s' with
            | lo :: s'' =>
                if isLowSurrogate lo then c :: lo :: quoteBody s''
                else unicodeEscape c ++ quoteBody s'
            | [] => unicodeEscape c
            end
          else if isLowSurrogate c then unicodeEscape c ++ quoteBody s'
          else c :: quoteBody s'
      end
  end.

Definition quote (s : jsstring) : jsstring :=
  34%N :: quoteBody s ++ [34%N].

(** [JSON.stringify] of an array of strings. *)
Definition stringify (l : list jsstring) : jsstring :=
  match l with
  | [] => lit "[]"
  | v :: l' =>
      91%N :: quote v ++ flat_map (fun x => 44%N :: quote x) l' ++ [93%N]
  end.

Definition isWs (c : N) : bool :=
  N.eqb c 32 || N.eqb c 9 || N.eqb c 10 || N.eqb c 13.

Fixpoint skipWs (s : jsstring) : jsstring :=
  match s with
  | c :: s' => if isWs c then skipWs s' else s
  | [] => []
  end.

Definition hexValue (c : N) : option N :=
  if N.leb 48 c && N.leb c 57 then Some (c - 48)%N
  else if N.leb 97 c && N.leb c 102 then Some (c - 87)%N
  else if N.leb 65 c && N.leb c 70 then Some (c - 55)%N
  else None.

(** The character that follows the backslash of a two-character escape. *)
Definition unescape (e : N) : option N :=
  if N.eqb e 34 then Some 34%N
  else if N.eqb e 92 then Some 92%N
  else if N.eqb e 47 then Some 47%N
  else if N.eqb e 98 then Some 8%N
  else if N.eqb e 102 then Some 12%N
  else if N.eqb e 110 then Some 10%N
  else if N.eqb e 114 then Some 13%N
  else if N.eqb e 116 then Some 9%N
  else None.

Definition prepend (c : N) (r : jsstring * jsstring) : jsstring * jsstring :=
  (c :: fst r, snd r).

(** The characters of a JSON string after its opening quote: the value
    and the text after the closing quote. *)
Fixpoint parseChars (s : jsstring) : option (jsstring * jsstring) :=
  match s with
  | [] => None
  | c :: s' =>
      if N.eqb c 34 then Some ([], s')
      else if N.eqb c 92 then
        match s' with
        | [] => None
        | e :: s'' =>
            if N.eqb e 117 then
              match s'' with
              | h1 :: h2 :: h3 :: h4 :: s4 =>
                  match hexValue h1, hexValue h2, hexValue h3, hexValue h4 with
                  | Some a, Some b, Some c', Some d =>
                      option_map
                        (prepend (a * 4096 + b * 256 + c' * 16 + d)%N)
                        (parseChars s4)
                  | _, _, _, _ => None
                  end
              | _ => None
              end
            else
              match unescape e with
              | Some v => option_map (prepend v) (parseChars s'')
              | None => None
              end
        end
      else if N.ltb c 32 then None
      else option_map (prepend c) (parseChars s')
  end.

(** The elements of an array from the first one on; [fuel] bounds their
    number. *)
Fixpoint parseElements (fuel : nat) (s : jsstring) : option (list jsstring) :=
  match fuel with
  | O => None
  | S fuel' =>
      match s with
      | 34%N :: s' =>
          match parseChars s' with
          | Some (v, rest) =>
              match skipWs rest with
              | 44%N :: rest' =>
                  option_map (cons v) (parseElements fuel' (skipWs rest'))
              | 93%N :: rest' =>
                  match skipWs rest' with
                  | [] => Some [v]
                  | _ :: _ => None
                  end
              | _ => None
              end
          | None => None
          end
      | _ => None
      end
  end.

(** [JSON.parse] on a text that denotes an array of strings. *)
Definition parse (text : jsstring) : option (list jsstring) :=
  match skipWs text with
  | 91%N :: s =>
      match skipWs s with
      | 93%N :: rest =>
          match skipWs rest with
          | [] => Some []
          | _ :: _ => None
          end
      | s' => parseElements (length text) s'
      end
  | _ => None
  end.

End JSON.

(** ** The document tree behind [innerHTML]

    [parseContent] hands the markup to the browser ([tempDiv.innerHTML =
    html]), edits the resulting tree and reads the markup back.  The tree
    and the two removal loops are modelled here; the browser's fragment
    parser and serialiser are the two operations of a [HostDOM]. *)

#[local] Set Warnings "-register-all".

Inductive Node : Type :=
| Element (tag : jsstring) (attrs : list (jsstring * jsstring))
          (children : list Node)
| Text (data : jsstring)
| Comment (data : jsstring).

(** Induction over a tree, with the children of an element covered. *)
Fixpoint Node_forall_ind (P : Node -> Prop)
         (HE : forall t a ch, Forall P ch -> P (Element t a ch))
         (HT : forall d, P (Text d)) (HC : forall d, P (Comment d))
         (n : Node) {struct n} : P n :=
  match n with
  | Element t a ch =>
      HE t a ch
         ((fix all (l : list Node) : Forall P l :=
             match l with
             | [] => Forall_nil P
             | x :: r => Forall_cons x (Node_forall_ind P HE HT HC x) (all r)
             end) ch)
  | Text d => HT d
  | Comment d => HC d
  end.

Record HostDOM : Type := {
  parseFragment : jsstring -> list Node;      (* div.innerHTML = markup *)
  serializeFragment : list Node -> jsstring   (* div.innerHTML *)
}.

(** Number of elements named [tag] in a subtree: the [length] of the live
    collection [getElementsByTagName(tag)]. *)
Fixpoint countNode (tag : jsstring) (n : Node) : nat :=
  match n with
  | Element t _ ch =>
      (if jseqb t tag then 1 else 0) + list_sum (map (countNode tag) ch)
  | _ => 0
  end.

Definition countForest (tag : jsstring) (f : list Node) : nat :=
  list_sum (map (countNode tag) f).

(** [removeNthNode tag i n] is what is left of the subtree [n] once the
    [i]-th element named [tag] (document order, from 0) has been detached
    from its parent: [collection[i].parentNode.removeChild(collection[i])]. *)
Fixpoint removeNthNode (tag : jsstring) (i : nat) (n : Node) {struct n}
  : list Node :=
  match n with
  | Element t a ch =>
      let inForest :=
        fix inForest (i : nat) (l : list Node) {struct l} : list Node :=
          match l with
          | [] => []
          | x :: r =>
              if Nat.ltb i (countNode tag x)
              then removeNthNode tag i x ++ r
              else x :: inForest (i - countNode tag x) r
          end in
      if jseqb t tag then
        match i with
        | O => []
        | S j => [Element t a (inForest j ch)]
        end
      else [Element t a (inForest i ch)]
  | _ => [n]
  end.

Definition removeNth (tag : jsstring) : nat -> list Node -> list Node :=
  fix inForest (i : nat) (l : list Node) {struct l} : list Node :=
    match l with
    | [] => []
    | x :: r =>
        if Nat.ltb i (countNode tag x)
        then removeNthNode tag i x ++ r
        else x :: inForest (i - countNode tag x) r
    end.

(** [for (let i = collection.length - 1; i >= 0; i--) ...]: [removeLoop tag
    k f] runs the iterations [i = k - 1, ..., 0] on the live collection.
    Started at the length of the collection, every iteration finds the
    collection of length [i + 1], so [collection[i]] is its last element. *)
Fixpoint removeLoop (tag : jsstring) (k : nat) (f : list Node) : list Node :=
  match k with
  | O => f
  | S i => removeLoop tag i (removeNth tag i f)
  end.

Definition removeByTagName (tag : jsstring) (f : list Node) : list Node :=
  removeLoop tag (countForest tag f) f.

(** The two loops of [parseContent], scripts first, then styles. *)
Definition strip (f : list Node) : list Node :=
  removeByTagName (lit "style") (removeByTagName (lit "script") f).

(** The tree without any element named [tag]: what the loop is meant to
    compute. *)
Fixpoint pruneNode (tag : jsstring) (n : Node) : list Node :=
  match n with
  | Element t a ch =>
      if jseqb t tag then []
      else [Element t a (flat_map (pruneNode tag) ch)]
  | _ => [n]
  end.

Definition prune (tag : jsstring) (f : list Node) : list Node :=
  flat_map (pruneNode tag) f.

(** ** Reader (src/js/reader.js) *)

Module Reader.

(** What [fetch] and [response.text()] can do. *)
Inductive BodyOutcome : Type :=
| BodyText (text : jsstring)
| BodyRejected (message : jsstring).

Inductive FetchOutcome : Type :=
| FetchRejected (message : jsstring)
| FetchResponse (status : N) (statusText : jsstring) (body : BodyOutcome).

Record Request : Type := {
  reqUrl : jsstring;
  reqHeaders : list (jsstring * jsstring)
}.

(** The environment of a call: the network and the text of the engine's
    URIError. *)
Record Platform : Type := {
  fetch : Request -> FetchOutcome;
  uriErrorMessage : jsstring
}.

(** [response.ok]: the status is in the range 200 to 299. *)
Definition ok (status : N) : bool := N.leb 200 status && N.leb status 299.

(** The object returned by [fetchArticleContent] and read by
    [formatContent].  An absent property is [JUndefined] or [None]. *)
Inductive JSValue : Type :=
| JUndefined
| JNull
| JBool (b : bool)
| JNumber (n : N)
| JString (s : jsstring)
| JObject.

Definition toBoolean (v : JSValue) : bool :=
  match v with
  | JUndefined | JNull => false
  | JBool b => b
  | JNumber n => negb (N.eqb n 0)
  | JString s => truthy s
  | JObject => true
  end.

(** [typeof v === 'string']. *)
Definition typeofString (v : JSValue) : bool :=
  match v with
  | JString _ => true
  | _ => false
  end.

Record ContentData : Type := {
  success : bool;
  content : JSValue;
  title : option jsstring;
  description : option jsstring;
  author : option jsstring;
  publishedTime : option jsstring;
  error : option jsstring
}.

(** The object of the [return] in the [try] block. *)
Definition Success (rawText : jsstring) : ContentData :=
  {| success := true;
     content := JString rawText;
     title := Some [];
     description := Some [];
     author := Some [];
     publishedTime := Some [];
     error := None |}.

(** The object of the [return] in the [catch] block. *)
Definition Failure (reason : jsstring) : ContentData :=
  {| success := false;
     content := JUndefined;
     title := None;
     description := None;
     author := None;
     publishedTime := None;
     error := Some reason |}.

Definition authenticationFailed : jsstring :=
  lit "Authentication failed. Check your Jina API key or remove it to use free tier.".
Definition rateLimitExceeded : jsstring :=
  lit "Rate limit exceeded. Try adding a free Jina API key in reader.js".
Definition emptyResponse : jsstring :=
  lit "Empty response from Jina AI Reader".
Definition httpError (status : N) (statusText : jsstring) : jsstring :=
  lit "HTTP " ++ decimal status ++ lit ": " ++ statusText.

Definition buildRequest (JINA_API_KEY encoded : jsstring) : Request :=
  {| reqUrl := lit "https://r.jina.ai/" ++ encoded;
     reqHeaders :=
       (lit "Accept", lit "text/plain") ::
       (if truthy JINA_API_KEY
        then [(lit "Authorization", lit "Bearer " ++ JINA_API_KEY)]
        else []) |}.

(** [fetchArticleContent]: every [throw] of the body lands in the [catch],
    which returns the failure object with the error's message. *)
Definition fetchArticleContent (P : Platform) (JINA_API_KEY url : jsstring)
  : ContentData :=
  match encodeURIComponent url with
  | None => Failure (uriErrorMessage P)
  | Some encoded =>
      match fetch P (buildRequest JINA_API_KEY encoded) with
      | FetchRejected message => Failure message
      | FetchResponse status statusText body =>
          if negb (ok status) then
            if N.eqb status 401 then Failure authenticationFailed
            else if N.eqb status 429 then Failure rateLimitExceeded
            else Failure (httpError status statusText)
          else
            match body with
            | BodyRejected message => Failure message
            | BodyText text =>
                if negb (truthy text) || Nat.eqb (length (trim text)) 0
                then Failure emptyResponse
                else Success text
            end
      end
  end.

Definition noContent : jsstring := lit "<p>No content available</p>".

(** [parseContent]; a missing argument is [None]. *)
Definition parseContent (D : HostDOM) (html : option jsstring) : jsstring :=
  match html with
  | None | Some [] => noContent
  | Some markup =>
      let tempDiv := parseFragment D markup in
      let tempDiv := strip tempDiv in
      serializeFragment D tempDiv
  end.

(** The patterns of [markdownToHtml], as written in the source. *)
Definition header (hashes : string) : regex :=
  Bol >> Chars (lit hashes) >> Grp (Rep true 0 Dot >> Eol).
Definition bold : regex :=
  Chars (lit "*") >> Chars (lit "*") >> Grp (Rep false 0 Dot) >>
  Chars (lit "*") >> Chars (lit "*").
Definition italic : regex :=
  Chars (lit "*") >> Grp (Rep false 0 Dot) >> Chars (lit "*").
Definition link : regex :=
  Chars (lit "[") >> Grp (Rep true 1 (Except 93)) >> Chars (lit "]") >>
  Chars (lit "(") >> Grp (Rep true 1 (Except 41)) >> Chars (lit ")").
Definition image : regex :=
  Chars (lit "!") >> Chars (lit "[") >> Grp (Rep true 0 (Except 93)) >>
  Chars (lit "]") >> Chars (lit "(") >> Grp (Rep true 1 (Except 41)) >>
  Chars (lit ")").
Definition newline : regex := Chars [10%N].

Definition tagged (tag : string) : list piece :=
  [Txt (lit "<" ++ lit tag ++ lit ">"); Ref 1;
   Txt (lit "</" ++ lit tag ++ lit ">")].
Definition anchorTemplate : list piece :=
  [Txt (sq "<a href='"); Ref 2;
   Txt (sq "' target='_blank' rel='noopener noreferrer'>"); Ref 1;
   Txt (lit "</a>")].
Definition imageTemplate : list piece :=
  [Txt (sq "<img src='"); Ref 2; Txt (sq "' alt='"); Ref 1;
   Txt (sq "' loading='lazy'>")].

(** [markdownToHtml]; a missing argument is [None]. *)
Definition markdownToHtml (markdown : option jsstring) : jsstring :=
  match markdown with
  | None | Some [] => noContent
  | Some markdown =>
      let html := markdown in
      let html := replaceAll (header "### ") (tagged "h3") html in
      let html := replaceAll (header "## ") (tagged "h2") html in
      let html := replaceAll (header "# ") (tagged "h1") html in
      let html := replaceAll bold (tagged "strong") html in
      let html := replaceAll italic (tagged "em") html in
      let html := replaceAll link anchorTemplate html in
      let html := replaceAll image imageTemplate html in
      let html := replaceAll (newline >> newline) [Txt (lit "</p><p>")] html in
      let html := replaceAll newline [Txt (lit "<br>")] html in
      lit "<p>" ++ html ++ lit "</p>"
  end.

(** A line of a template literal: the line break, the indentation of the
    source and the text. *)
Definition line (indent : nat) (text : jsstring) : jsstring :=
  10%N :: repeat 32%N indent ++ text.

Definition tryEmbedded : jsstring :=
  lit "Please try the embedded view or open the original article.".
Definition apiKeyTip : jsstring :=
  lit "<p><small>Tip: Add a free Jina API key in reader.js for higher rate limits (200 req/min instead of 20)</small></p>".

Definition unableToLoad (JINA_API_KEY : jsstring) (error : option jsstring)
  : jsstring :=
  line 16 (sq "<div class='reader-error'>") ++
  line 20 (lit "<h3>Unable to load article content</h3>") ++
  line 20 (lit "<p>" ++
           match error with
           | Some (c :: e) => c :: e
           | _ => tryEmbedded
           end ++ lit "</p>") ++
  line 20 (if negb (truthy JINA_API_KEY) then apiKeyTip else []) ++
  line 16 (lit "</div>") ++
  line 12 [].

Definition invalidContent : jsstring :=
  line 16 (sq "<div class='reader-error'>") ++
  line 20 (lit "<h3>Invalid content format</h3>") ++
  line 20 (lit "<p>The article content could not be parsed. Please try the embedded view.</p>") ++
  line 16 (lit "</div>") ++
  line 12 [].

(** [formatContent].  Past the second guard the content is a non-empty
    string, so the last case of the [match] is never taken. *)
Definition formatContent (D : HostDOM) (JINA_API_KEY : jsstring)
           (contentData : ContentData) : jsstring :=
  if negb (success contentData) then
    unableToLoad JINA_API_KEY (error contentData)
  else if negb (toBoolean (content contentData))
          || negb (typeofString (content contentData)) then
    invalidContent
  else
    match content contentData with
    | JString content =>
        if includes (lit "<html") content || includes (lit "<!DOCTYPE") content
        then parseContent D (Some content)
        else if includes (lit "<p>") content || includes (lit "<div>") content
                || includes (lit "<article>") content
        then parseContent D (Some content)
        else markdownToHtml (Some content)
    | _ => invalidContent
    end.

(** [extractContent].  [fetchArticleContent] and [formatContent] return a
    value on every input, so the [catch] of the source is never entered. *)
Definition extractContent (P : Platform) (D : HostDOM)
           (JINA_API_KEY url : jsstring) : jsstring :=
  formatContent D JINA_API_KEY (fetchArticleContent P JINA_API_KEY url).

End Reader.

(** ** A reference host

    A small implementation of the two [innerHTML] algorithms, used to run
    [parseContent] on concrete markup.  It covers character data with the
    five basic character references, comments, start tags with quoted or
    bare attribute values, end tags, void elements, and the raw-text
    elements [script] and [style]; stray markup is kept as text. *)

Module MiniDom.

Inductive Token : Type :=
| TChars (s : jsstring)
| TStart (name : jsstring) (attrs : list (jsstring * jsstring))
| TEnd (name : jsstring)
| TComment (s : jsstring).

Definition isAsciiLetter (c : N) : bool :=
  (N.leb 65 c && N.leb c 90) || (N.leb 97 c && N.leb c 122).
Definition isNameChar (c : N) : bool :=
  isAsciiLetter c || (N.leb 48 c && N.leb c 57) || N.eqb c 45.
Definition isSpace (c : N) : bool :=
  N.eqb c 32 || N.eqb c 9 || N.eqb c 10 || N.eqb c 12 || N.eqb c 13.
Fixpoint span (p : N -> bool) (s : jsstring) : jsstring * jsstring :=
  match s with
  | c :: s' => if p c then let (a, b) := span p s' in (c :: a, b) else ([], s)
  | [] => ([], [])
  end.

(** The text before the first occurrence of [needle] and the text after
    it; without an occurrence everything is before. *)
Fixpoint splitOn (needle s : jsstring) : jsstring * jsstring :=
  if startsWith needle s then ([], skipn (length needle) s)
  else match s with
       | c :: s' => let (a, b) := splitOn needle s' in (c :: a, b)
       | [] => ([], [])
       end.

Definition references : list (jsstring * N) :=
  [(lit "&amp;", 38); (lit "&lt;", 60); (lit "&gt;", 62);
   (sq "&quot;", 34); (lit "&nbsp;", 160)]%N.

Fixpoint decode (skip : nat) (s : jsstring) : jsstring :=
  match s with
  | [] => []
  | c :: s' =>
      match skip with
      | S k => decode k s'
      | O =>
          match find (fun r => startsWith (fst r) s) references with
          | Some (name, code) => code :: decode (length name - 1) s'
          | None => c :: decode 0 s'
          end
      end
  end.

Fixpoint parseAttrs (fuel : nat) (s : jsstring) : list (jsstring * jsstring) :=
  match fuel with
  | O => []
  | S fuel' =>
      match s with
      | [] => []
      | c :: s' =>
          if isSpace c || N.eqb c 47 then parseAttrs fuel' s'
          else
            let (name, rest) :=
              span (fun x => negb (isSpace x || N.eqb x 61 || N.eqb x 47)) s in
            match rest with
            | 61%N :: 34%N :: v =>
                let (value, rest') := splitOn [34%N] v in
                (map asciiLower name, decode 0 value) :: parseAttrs fuel' rest'
            | 61%N :: v =>
                let (value, rest') := span (fun x => negb (isSpace x)) v in
                (map asciiLower name, decode 0 value) :: parseAttrs fuel' rest'
            | _ => (map asciiLower name, []) :: parseAttrs fuel' rest
            end
      end
  end.

Definition rawText (name : jsstring) : bool :=
  jseqb name (lit "script") || jseqb name (lit "style").

Definition void (name : jsstring) : bool :=
  existsb (jseqb name)
    (map lit ["area"; "base"; "br"; "col"; "embed"; "hr"; "img"; "input";
              "link"; "meta"; "source"; "track"; "wbr"]%string).

Fixpoint tokenize (fuel : nat) (s : jsstring) : list Token :=
  match fuel with
  | O => []
  | S fuel' =>
      let text := span (fun x => negb (N.eqb x 60)) in
      match s with
      | [] => []
      | 60%N :: 47%N :: c :: s' =>
          if isAsciiLetter c then
            let (name, rest) := span isNameChar (c :: s') in
            TEnd (map asciiLower name) :: tokenize fuel' (snd (splitOn [62%N] rest))
          else
            let (t, rest) := text (47%N :: c :: s') in
            TChars (decode 0 (60%N :: t)) :: tokenize fuel' rest
      | 60%N :: 33%N :: 45%N :: 45%N :: s' =>
          let (data, rest) := splitOn (lit "-->") s' in
          TComment data :: tokenize fuel' rest
      | 60%N :: c :: s' =>
          if isAsciiLetter c then
            let (name, rest) := span isNameChar (c :: s') in
            let name := map asciiLower name in
            let (attrs, rest) := splitOn [62%N] rest in
            let start := TStart name (parseAttrs (length attrs) attrs) in
            if rawText name then
              let (data, rest) := splitOn (lit "</" ++ name) rest in
              start :: (match data with [] => [] | _ => [TChars data] end) ++
              TEnd name :: tokenize fuel' (snd (splitOn [62%N] rest))
            else start :: tokenize fuel' rest
          else
            let (t, rest) := text (c :: s') in
            TChars (decode 0 (60%N :: t)) :: tokenize fuel' rest
      | [60%N] => [TChars [60%N]]
      | _ =>
          let (t, rest) := text s in
          TChars (decode 0 t) :: tokenize fuel' rest
      end
  end.

(** An open element: its name, its attributes and the siblings before it,
    latest first. *)
Definition frame := (jsstring * list (jsstring * jsstring) * list Node)%type.

Definition close (fr : frame) (kids : list Node) : list Node :=
  let '(name, attrs, before) := fr in
  Element name attrs (rev kids) :: before.

Fixpoint closeAll (stack : list frame) (kids : list Node) : list Node :=
  match stack with
  | [] => rev kids
  | fr :: stack' => closeAll stack' (close fr kids)
  end.

(** Closes open elements up to and including the innermost one named
    [name]. *)
Fixpoint closeUpTo (name : jsstring) (stack : list frame) (kids : list Node)
  : list frame * list Node :=
  match stack with
  | [] => ([], kids)
  | fr :: stack' =>
      if jseqb (fst (fst fr)) name then (stack', close fr kids)
      else closeUpTo name stack' (close fr kids)
  end.

Fixpoint build (stack : list frame) (kids : list Node) (ts : list Token)
  : list Node :=
  match ts with
  | [] => closeAll stack kids
  | TChars t :: ts' => build stack (Text t :: kids) ts'
  | TComment t :: ts' => build stack (Comment t :: kids) ts'
  | TStart name attrs :: ts' =>
      if void name then build stack (Element name attrs [] :: kids) ts'
      else build ((name, attrs, kids) :: stack) [] ts'
  | TEnd name :: ts' =>
      if existsb (fun fr : frame => jseqb (fst (fst fr)) name) stack
      then let (stack', kids') := closeUpTo name stack kids in
           build stack' kids' ts'
      else build stack kids ts'
  end.

Definition parse (markup : jsstring) : list Node :=
  build [] [] (tokenize (length markup) markup).

Definition escape (inAttribute : bool) (s : jsstring) : jsstring :=
  flat_map (fun c =>
              if N.eqb c 38 then lit "&amp;"
              else if N.eqb c 160 then lit "&nbsp;"
              else if inAttribute then
                     if N.eqb c 34 then sq "&quot;" else [c]
              else if N.eqb c 60 then lit "&lt;"
              else if N.eqb c 62 then lit "&gt;"
              else [c]) s.

Fixpoint serializeNode (raw : bool) (n : Node) : jsstring :=
  match n with
  | Text data => if raw then data else escape false data
  | Comment data => lit "<!--" ++ data ++ lit "-->"
  | Element name attrs kids =>
      lit "<" ++ name ++
      flat_map (fun a : jsstring * jsstring =>
                  lit " " ++ fst a ++ sq "='" ++ escape true (snd a) ++ sq "'")
               attrs ++
      lit ">" ++
      (if void name then []
       else flat_map (serializeNode (rawText name)) kids ++
            lit "</" ++ name ++ lit ">")
  end.

Definition serialize (f : list Node) : jsstring :=
  flat_map (serializeNode false) f.

Definition host : HostDOM :=
  {| parseFragment := parse; serializeFragment := serialize |}.

End MiniDom.

(** ** UI (src/js/api.js): search history and article modal *)

Module UI.

Record Article : Type := {
  url : jsstring;
  title : jsstring;
  description : jsstring;
  sourceName : jsstring;
  publishedAt : jsstring;
  urlToImage : option jsstring
}.

(** The fields of the [UI] object and of the page that the modelled
    methods read or write. *)
Record State : Type := {
  currentArticle : option Article;        (* null is None *)
  searchHistory : list jsstring;
  storedHistory : option (list jsstring); (* localStorage, newsHub_searchHistory *)
  storageWritable : bool;                 (* setItem does not throw *)
  modalOverlayActive : bool;              (* class active on modalOverlay *)
  bodyOverflow : jsstring;                (* document.body.style.overflow *)
  articleFrameSrc : jsstring              (* articleFrame.src *)
}.

Definition maxSearchHistory : nat := 5.

Definition initial : State :=
  {| currentArticle := None;
     searchHistory := [];
     storedHistory := None;
     storageWritable := true;
     modalOverlayActive := false;
     bodyOverflow := [];
     articleFrameSrc := [] |}.

(** [saveSearchHistory]: an exception of [setItem] is caught and logged. *)
Definition saveSearchHistory (st : State) : State :=
  {| currentArticle := currentArticle st;
     searchHistory := searchHistory st;
     storedHistory :=
       if storageWritable st then Some (searchHistory st)
       else storedHistory st;
     storageWritable := storageWritable st;
     modalOverlayActive := modalOverlayActive st;
     bodyOverflow := bodyOverflow st;
     articleFrameSrc := articleFrameSrc st |}.

Definition setSearchHistory (h : list jsstring) (st : State) : State :=
  {| currentArticle := currentArticle st;
     searchHistory := h;
     storedHistory := storedHistory st;
     storageWritable := storageWritable st;
     modalOverlayActive := modalOverlayActive st;
     bodyOverflow := bodyOverflow st;
     articleFrameSrc := articleFrameSrc st |}.

(** [closeArticleModal]. *)
Definition closeArticleModal (st : State) : State :=
  {| currentArticle := None;
     searchHistory := searchHistory st;
     storedHistory := storedHistory st;
     storageWritable := storageWritable st;
     modalOverlayActive := false;
     bodyOverflow := [];
     articleFrameSrc := lit "about:blank" |}.

Section SearchHistory.

(** [String.prototype.toLowerCase], the engine's Unicode case mapping. *)
Variable toLowerCase : jsstring -> jsstring.

(** The early return of [addToSearchHistory]. *)
Definition ignored (term : jsstring) : bool :=
  negb (truthy term) || Nat.eqb (length (trim term)) 0.

(** [addToSearchHistory]. *)
Definition addToSearchHistory (st : State) (term : jsstring) : State :=
  if ignored term then st
  else
    let trimmedTerm := trim term in
    let history :=
      filter (fun t => negb (jseqb (toLowerCase t) (toLowerCase trimmedTerm)))
             (searchHistory st) in
    let history := trimmedTerm :: history in
    let history :=
      if Nat.ltb maxSearchHistory (length history)
      then firstn maxSearchHistory history
      else history in
    saveSearchHistory (setSearchHistory history st).

(** The history after a sequence of calls, first call first. *)
Definition addAll (st : State) (terms : list jsstring) : State :=
  fold_left addToSearchHistory terms st.

End SearchHistory.

(** The case mapping restricted to ASCII, on which every engine agrees. *)
Definition asciiToLowerCase (s : jsstring) : jsstring :=
  map asciiLower s.

(** *** Text helpers *)

(** [truncateText]; [maxLength] is a length, as at both call sites. *)
Definition truncateText (text : jsstring) (maxLength : nat) : jsstring :=
  if negb (truthy text) then []
  else if Nat.leb (length text) maxLength then text
  else firstn maxLength text ++ lit "...".

(** [div.textContent = text] leaves the element with one text node, or
    with no child when the text is empty. *)
Definition setTextContent (text : jsstring) : list Node :=
  match text with
  | [] => []
  | _ :: _ => [Text text]
  end.

(** [escapeHtml]: the text is stored in a detached [div] and read back as
    markup. *)
Definition escapeHtml (D : HostDOM) (text : jsstring) : jsstring :=
  serializeFragment D (setTextContent text).

(** The clock and the locale behind [Date].  Time values are integral
    numbers of milliseconds; [parseDate] is [new Date(dateString)], with
    [None] for an Invalid Date. *)
Record Clock : Type := {
  now : Z;
  parseDate : jsstring -> option Z;
  getFullYear : Z -> Z;
  (* toLocaleDateString('en-US', {month: 'short', day: 'numeric', year}),
     the flag telling whether the year is asked for *)
  toLocaleDateString : Z -> bool -> jsstring
}.

(** [formatDate].  For two instants less than 2^53 ms apart the
    difference is exact and [Math.floor] of each quotient is the integer
    quotient.  On an Invalid Date every comparison is false and
    [toLocaleDateString] returns the text [Invalid Date]. *)
Definition formatDate (C : Clock) (dateString : jsstring) : jsstring :=
  match parseDate C dateString with
  | None => lit "Invalid Date"
  | Some date =>
      let diffMs := (now C - date)%Z in
      let diffMinutes := (diffMs / (1000 * 60))%Z in
      let diffHours := (diffMs / (1000 * 60 * 60))%Z in
      let diffDays := (diffHours / 24)%Z in
      if (diffMinutes <? 60)%Z then decimalZ diffMinutes ++ lit "m ago"
      else if (diffHours <? 24)%Z then decimalZ diffHours ++ lit "h ago"
      else if (diffDays <? 7)%Z then decimalZ diffDays ++ lit "d ago"
      else toLocaleDateString C date
             (negb (getFullYear C date =? getFullYear C (now C))%Z)
  end.

(** *** The news grid *)

(** A child of the grid: its class, the markup assigned to it, the
    article its click handler opens, and its inline style.  The timers
    that fade a card in are not run. *)
Record Card : Type := {
  cardClassName : jsstring;
  cardInnerHTML : jsstring;
  cardOpens : option Article;
  cardOpacity : jsstring;
  cardTransform : jsstring
}.

Definition fallbackImage : jsstring :=
  sq "data:image/svg+xml,%3Csvg xmlns='http://www.w3.org/2000/svg' width='400' height='300'%3E%3Crect fill='%23cbd5e1' width='400' height='300'/%3E%3Ctext x='50%25' y='50%25' dominant-baseline='middle' text-anchor='middle' font-family='sans-serif' font-size='24' fill='%2364748b'%3ENo Image%3C/text%3E%3C/svg%3E".

Definition noDescription : jsstring := lit "No description available".

(** [createSkeletonCard]. *)
Definition createSkeletonCard : Card :=
  {| cardClassName := lit "news-card skeleton-card";
     cardInnerHTML :=
       Reader.line 12 (sq "<div class='skeleton-image'></div>") ++
       Reader.line 12 (sq "<div class='news-content'>") ++
       Reader.line 16 (sq "<div class='news-meta'>") ++
       Reader.line 20 (sq "<div class='skeleton-text skeleton-source'></div>") ++
       Reader.line 20 (sq "<div class='skeleton-text skeleton-date'></div>") ++
       Reader.line 16 (lit "</div>") ++
       Reader.line 16 (sq "<div class='skeleton-text skeleton-title'></div>") ++
       Reader.line 16 (sq "<div class='skeleton-text skeleton-title-line2'></div>") ++
       Reader.line 16 (sq "<div class='skeleton-text skeleton-description'></div>") ++
       Reader.line 16 (sq "<div class='skeleton-text skeleton-description-line2'></div>") ++
       Reader.line 16 (sq "<div class='skeleton-text skeleton-description-line3'></div>") ++
       Reader.line 12 (lit "</div>") ++
       Reader.line 8 [];
     cardOpens := None;
     cardOpacity := [];
     cardTransform := [] |}.

(** [a || b] on strings. *)
Definition orElse (a b : jsstring) : jsstring :=
  if truthy a then a else b.

Definition imageOrFallback (article : Article) : jsstring :=
  match urlToImage article with
  | Some (c :: u) => c :: u
  | _ => fallbackImage
  end.

(** [createNewsCard]. *)
Definition createNewsCard (D : HostDOM) (C : Clock) (article : Article) : Card :=
  let imageUrl := imageOrFallback article in
  let truncatedTitle := truncateText (title article) 100 in
  let truncatedDescription :=
    truncateText (orElse (description article) noDescription) 150 in
  {| cardClassName := lit "news-card";
     cardInnerHTML :=
       Reader.line 12 (sq "<img src='" ++ imageUrl ++ sq "' ") ++
       Reader.line 17 (sq "alt='" ++ escapeHtml D (title article) ++ sq "' ") ++
       Reader.line 17 (sq "class='news-image' ") ++
       Reader.line 17 (sq "loading='lazy'") ++
       Reader.line 17 (sq "onerror='this.src=" ++ lit "'" ++ fallbackImage ++
                       lit "'" ++ sq "'>") ++
       Reader.line 12 (sq "<div class='news-content'>") ++
       Reader.line 16 (sq "<div class='news-meta'>") ++
       Reader.line 20 (sq "<span class='news-source'>" ++
                       escapeHtml D (sourceName article) ++ lit "</span>") ++
       Reader.line 20 (sq "<span class='news-date'>" ++
                       formatDate C (publishedAt article) ++ lit "</span>") ++
       Reader.line 16 (lit "</div>") ++
       Reader.line 16 (sq "<h3 class='news-title'>" ++
                       escapeHtml D truncatedTitle ++ lit "</h3>") ++
       Reader.line 16 (sq "<p class='news-description'>" ++
                       escapeHtml D truncatedDescription ++ lit "</p>") ++
       Reader.line 16 (sq "<span class='read-more'>Read more " ++
                       [226%N; 8224%N; 8217%N] ++ lit "</span>") ++
       Reader.line 12 (lit "</div>") ++
       Reader.line 8 [];
     cardOpens := Some article;
     cardOpacity := [];
     cardTransform := [] |}.
(** The grid, the elements around it and their inline [display]. *)
Record Grid : Type := {
  newsGrid : list Card;
  loadingSpinnerDisplay : jsstring;
  errorMessageHTML : jsstring;
  errorMessageDisplay : jsstring;
  emptyStateDisplay : jsstring;
  sectionTitle : jsstring;
  resultsCount : jsstring;
  apiKeyBannerDisplay : jsstring
}.

Definition setNewsGrid (cards : list Card) (g : Grid) : Grid :=
  {| newsGrid := cards;
     loadingSpinnerDisplay := loadingSpinnerDisplay g;
     errorMessageHTML := errorMessageHTML g;
     errorMessageDisplay := errorMessageDisplay g;
     emptyStateDisplay := emptyStateDisplay g;
     sectionTitle := sectionTitle g;
     resultsCount := resultsCount g;
     apiKeyBannerDisplay := apiKeyBannerDisplay g |}.

Definition setErrorMessageHTML (html : jsstring) (g : Grid) : Grid :=
  {| newsGrid := newsGrid g;
     loadingSpinnerDisplay := loadingSpinnerDisplay g;
     errorMessageHTML := html;
     errorMessageDisplay := errorMessageDisplay g;
     emptyStateDisplay := emptyStateDisplay g;
     sectionTitle := sectionTitle g;
     resultsCount := resultsCount g;
     apiKeyBannerDisplay := apiKeyBannerDisplay g |}.

Definition setErrorMessageDisplay (display : jsstring) (g : Grid) : Grid :=
  {| newsGrid := newsGrid g;
     loadingSpinnerDisplay := loadingSpinnerDisplay g;
     errorMessageHTML := errorMessageHTML g;
     errorMessageDisplay := display;
     emptyStateDisplay := emptyStateDisplay g;
     sectionTitle := sectionTitle g;
     resultsCount := resultsCount g;
     apiKeyBannerDisplay := apiKeyBannerDisplay g |}.

Definition setEmptyStateDisplay (display : jsstring) (g : Grid) : Grid :=
  {| newsGrid := newsGrid g;
     loadingSpinnerDisplay := loadingSpinnerDisplay g;
     errorMessageHTML := errorMessageHTML g;
     errorMessageDisplay := errorMessageDisplay g;
     emptyStateDisplay := display;
     sectionTitle := sectionTitle g;
     resultsCount := resultsCount g;
     apiKeyBannerDisplay := apiKeyBannerDisplay g |}.

Definition setResultsCount (text : jsstring) (g : Grid) : Grid :=
  {| newsGrid := newsGrid g;
     loadingSpinnerDisplay := loadingSpinnerDisplay g;
     errorMessageHTML := errorMessageHTML g;
     errorMessageDisplay := errorMessageDisplay g;
     emptyStateDisplay := emptyStateDisplay g;
     sectionTitle := sectionTitle g;
     resultsCount := text;
     apiKeyBannerDisplay := apiKeyBannerDisplay g |}.

(** [hideLoading]. *)
Definition hideLoading (g : Grid) : Grid :=
  {| newsGrid := newsGrid g;
     loadingSpinnerDisplay := lit "none";
     errorMessageHTML := errorMessageHTML g;
     errorMessageDisplay := errorMessageDisplay g;
     emptyStateDisplay := emptyStateDisplay g;
     sectionTitle := sectionTitle g;
     resultsCount := resultsCount g;
     apiKeyBannerDisplay := apiKeyBannerDisplay g |}.

(** [hideApiKeyBanner]. *)
Definition hideApiKeyBanner (g : Grid) : Grid :=
  {| newsGrid := newsGrid g;
     loadingSpinnerDisplay := loadingSpinnerDisplay g;
     errorMessageHTML := errorMessageHTML g;
     errorMessageDisplay := errorMessageDisplay g;
     emptyStateDisplay := emptyStateDisplay g;
     sectionTitle := sectionTitle g;
     resultsCount := resultsCount g;
     apiKeyBannerDisplay := lit "none" |}.

(** [updateSectionTitle]. *)
Definition updateSectionTitle (text : jsstring) (g : Grid) : Grid :=
  {| newsGrid := newsGrid g;
     loadingSpinnerDisplay := loadingSpinnerDisplay g;
     errorMessageHTML := errorMessageHTML g;
     errorMessageDisplay := errorMessageDisplay g;
     emptyStateDisplay := emptyStateDisplay g;
     sectionTitle := text;
     resultsCount := resultsCount g;
     apiKeyBannerDisplay := apiKeyBannerDisplay g |}.

(** [showSkeletonLoading]. *)
Definition showSkeletonLoading (count : nat) (g : Grid) : Grid :=
  let g := setErrorMessageDisplay (lit "none") g in
  let g := setEmptyStateDisplay (lit "none") g in
  let g := hideLoading g in
  setNewsGrid (repeat createSkeletonCard count) g.

(** [showLoading]. *)
Definition showLoading (g : Grid) : Grid := showSkeletonLoading 12 g.

(** The markup of [showError]. *)
Definition errorBlock (message : jsstring) : jsstring :=
  Reader.line 12 (sq "<div class='error-content'>") ++
  Reader.line 16 (sq "<svg class='error-icon' width='24' height='24' viewBox='0 0 24 24' fill='none'>") ++
  Reader.line 20 (sq "<circle cx='12' cy='12' r='10' stroke='currentColor' stroke-width='2'/>") ++
  Reader.line 20 (sq "<path d='M12 8v4M12 16h.01' stroke='currentColor' stroke-width='2' stroke-linecap='round'/>") ++
  Reader.line 16 (lit "</svg>") ++
  Reader.line 16 (sq "<div class='error-text'>") ++
  Reader.line 20 (lit "<strong>Error</strong>") ++
  Reader.line 20 (lit "<p>" ++ message ++ lit "</p>") ++
  Reader.line 16 (lit "</div>") ++
  Reader.line 12 (lit "</div>") ++
  Reader.line 8 [].

(** [showError]. *)
Definition showError (message : jsstring) (g : Grid) : Grid :=
  let g := setErrorMessageHTML (errorBlock message) g in
  let g := setErrorMessageDisplay (lit "flex") g in
  let g := setEmptyStateDisplay (lit "none") g in
  let g := setNewsGrid [] g in
  hideLoading g.

(** [showEmpty]. *)
Definition showEmpty (g : Grid) : Grid :=
  let g := setEmptyStateDisplay (lit "block") g in
  let g := setErrorMessageDisplay (lit "none") g in
  let g := setNewsGrid [] g in
  hideLoading g.

(** The test of the filter in [renderArticles]. *)
Definition hasTitle (article : Article) : bool :=
  truthy (title article) && negb (jseqb (title article) (lit "[Removed]")).

Definition countLabel (n : nat) : jsstring :=
  decimal (N.of_nat n) ++ lit " article" ++
  (if negb (Nat.eqb n 1) then lit "s" else []).

(** [renderArticles]; a missing list is [None].  Each card is appended
    with the style the loop gives it before its timer runs. *)
Definition renderArticles (D : HostDOM) (C : Clock)
           (articles : option (list Article)) (g : Grid) : Grid :=
  let g := setNewsGrid [] g in
  match articles with
  | None | Some [] => setResultsCount [] (showEmpty g)
  | Some articles =>
      let validArticles := filter hasTitle articles in
      if Nat.eqb (length validArticles) 0 then
        setResultsCount [] (showEmpty g)
      else
        let g := setResultsCount (countLabel (length validArticles)) g in
        setNewsGrid
          (map (fun article =>
                  let card := createNewsCard D C article in
                  {| cardClassName := cardClassName card;
                     cardInnerHTML := cardInnerHTML card;
                     cardOpens := cardOpens card;
                     cardOpacity := lit "0";
                     cardTransform := lit "translateY(20px)" |})
               validArticles)
          g
  end.
(** *** The article modal *)

(** The elements of the modal that [openArticleModal] and the two view
    modes write. *)
Record Modal : Type := {
  modalImageSrc : jsstring;
  modalSource : jsstring;
  modalDate : jsstring;
  modalTitle : jsstring;
  modalDescription : jsstring;
  openOriginalBtnHref : jsstring;
  readerContent : jsstring;               (* markup assigned to readerContent *)
  modalBodyDisplay : jsstring;
  modalEmbedDisplay : jsstring;
  readerModeBtnActive : bool;
  embedModeBtnActive : bool;
  (* the texts that showEmbedMode has assigned to articleFrame.src, the
     latest first; every assignment makes the frame load *)
  embedLoads : list jsstring
}.

(** A call that returns, or that stops at an exception with the effects
    made so far. *)
Inductive Completion (A : Type) : Type :=
| Normal (a : A)
| Throws (a : A).

Arguments Normal {A} a.
Arguments Throws {A} a.

Definition setReaderContent (html : jsstring) (m : Modal) : Modal :=
  {| modalImageSrc := modalImageSrc m;
     modalSource := modalSource m;
     modalDate := modalDate m;
     modalTitle := modalTitle m;
     modalDescription := modalDescription m;
     openOriginalBtnHref := openOriginalBtnHref m;
     readerContent := html;
     modalBodyDisplay := modalBodyDisplay m;
     modalEmbedDisplay := modalEmbedDisplay m;
     readerModeBtnActive := readerModeBtnActive m;
     embedModeBtnActive := embedModeBtnActive m;
     embedLoads := embedLoads m |}.

(** [showReaderMode]. *)
Definition showReaderMode (m : Modal) : Modal :=
  {| modalImageSrc := modalImageSrc m;
     modalSource := modalSource m;
     modalDate := modalDate m;
     modalTitle := modalTitle m;
     modalDescription := modalDescription m;
     openOriginalBtnHref := openOriginalBtnHref m;
     readerContent := readerContent m;
     modalBodyDisplay := lit "block";
     modalEmbedDisplay := lit "none";
     readerModeBtnActive := true;
     embedModeBtnActive := false;
     embedLoads := embedLoads m |}.

Definition setArticleFrameSrc (src : jsstring) (st : State) : State :=
  {| currentArticle := currentArticle st;
     searchHistory := searchHistory st;
     storedHistory := storedHistory st;
     storageWritable := storageWritable st;
     modalOverlayActive := modalOverlayActive st;
     bodyOverflow := bodyOverflow st;
     articleFrameSrc := src |}.

(** The assignment [articleFrame.src = address] by [showEmbedMode]. *)
Definition recordEmbedLoad (address : jsstring) (m : Modal) : Modal :=
  {| modalImageSrc := modalImageSrc m;
     modalSource := modalSource m;
     modalDate := modalDate m;
     modalTitle := modalTitle m;
     modalDescription := modalDescription m;
     openOriginalBtnHref := openOriginalBtnHref m;
     readerContent := readerContent m;
     modalBodyDisplay := modalBodyDisplay m;
     modalEmbedDisplay := modalEmbedDisplay m;
     readerModeBtnActive := readerModeBtnActive m;
     embedModeBtnActive := embedModeBtnActive m;
     embedLoads := address :: embedLoads m |}.

(** [showEmbedMode].  [articleFrameSrc] is what [articleFrame.src]
    returns: not the text that was assigned but the address to which the
    browser resolves it ([about:blank] for every spelling of it, the
    absolute address for a relative one, the text itself when it is no
    address); [resolveUrl] is that resolution.  Without a current article
    the read of [currentArticle.url] raises a TypeError, after the panes
    have been switched. *)
Definition showEmbedMode (resolveUrl : jsstring -> jsstring)
           (st : State) (m : Modal) : Completion (State * Modal) :=
  let m :=
    {| modalImageSrc := modalImageSrc m;
       modalSource := modalSource m;
       modalDate := modalDate m;
       modalTitle := modalTitle m;
       modalDescription := modalDescription m;
       openOriginalBtnHref := openOriginalBtnHref m;
       readerContent := readerContent m;
       modalBodyDisplay := lit "none";
       modalEmbedDisplay := lit "block";
       readerModeBtnActive := false;
       embedModeBtnActive := true;
       embedLoads := embedLoads m |} in
  if negb (truthy (articleFrameSrc st))
     || jseqb (articleFrameSrc st) (lit "about:blank")
  then
    match currentArticle st with
    | Some article =>
        Normal (setArticleFrameSrc (resolveUrl (url article)) st,
                recordEmbedLoad (url article) m)
    | None => Throws (st, m)
    end
  else Normal (st, m).

Definition readerLoading : jsstring :=
  Reader.line 12 (sq "<div class='reader-loading'>") ++
  Reader.line 16 (sq "<div class='spinner-small'></div>") ++
  Reader.line 16 (lit "<p>Loading article content...</p>") ++
  Reader.line 12 (lit "</div>") ++
  Reader.line 8 [].

(** [loadArticleContent] up to its [await]: the loading block is shown. *)
Definition loadArticleContentPending (m : Modal) : Modal :=
  setReaderContent readerLoading m.

(** [loadArticleContent] once the extraction has settled.
    [Reader.extractContent] returns on every input, so the [catch] is
    never entered. *)
Definition loadArticleContent (P : Reader.Platform) (D : HostDOM)
           (JINA_API_KEY articleUrl : jsstring) (m : Modal) : Modal :=
  let m := loadArticleContentPending m in
  let content := Reader.extractContent P D JINA_API_KEY articleUrl in
  setReaderContent content m.

(** The part of [openArticleModal] before [loadArticleContent]. *)
Definition populateModal (C : Clock) (article : Article)
           (st : State) (m : Modal) : State * Modal :=
  let st :=
    {| currentArticle := Some article;
       searchHistory := searchHistory st;
       storedHistory := storedHistory st;
       storageWritable := storageWritable st;
       modalOverlayActive := true;
       bodyOverflow := lit "hidden";
       articleFrameSrc := articleFrameSrc st |} in
  let m :=
    {| modalImageSrc := imageOrFallback article;
       modalSource := sourceName article;
       modalDate := formatDate C (publishedAt article);
       modalTitle := title article;
       modalDescription := orElse (description article) noDescription;
       openOriginalBtnHref := url article;
       readerContent := readerContent m;
       modalBodyDisplay := modalBodyDisplay m;
       modalEmbedDisplay := modalEmbedDisplay m;
       readerModeBtnActive := readerModeBtnActive m;
       embedModeBtnActive := embedModeBtnActive m;
       embedLoads := embedLoads m |} in
  (st, showReaderMode m).

(** [openArticleModal], once the content has settled. *)
Definition openArticleModal (P : Reader.Platform) (D : HostDOM) (C : Clock)
           (JINA_API_KEY : jsstring) (article : Article)
           (st : State) (m : Modal) : State * Modal :=
  let (st, m) := populateModal C article st m in
  (st, loadArticleContent P D JINA_API_KEY (url article) m).

(** *** The suggestions under the search box *)

Record Suggest : Type := {
  searchInputValue : jsstring;
  dropdownHTML : jsstring;              (* markup assigned to the dropdown *)
  dropdownActive : bool                 (* class active on the dropdown *)
}.

(** [hideSearchSuggestions]. *)
Definition hideSearchSuggestions (dd : Suggest) : Suggest :=
  {| searchInputValue := searchInputValue dd;
     dropdownHTML := dropdownHTML dd;
     dropdownActive := false |}.

Definition suggestionItem (D : HostDOM) (term : jsstring) : jsstring :=
  Reader.line 16 (sq "<div class='search-suggestion-item' onclick='UI.selectSearchSuggestion(" ++
                  lit "'" ++ escapeHtml D term ++ lit "'" ++ sq ")'>") ++
  Reader.line 20 (sq "<svg class='suggestion-icon' width='16' height='16' viewBox='0 0 16 16' fill='none'>") ++
  Reader.line 24 (sq "<path d='M7 13A6 6 0 1 0 7 1a6 6 0 0 0 0 12zM15 15l-3.35-3.35' ") ++
  Reader.line 30 (sq "stroke='currentColor' stroke-width='2' stroke-linecap='round'/>") ++
  Reader.line 20 (lit "</svg>") ++
  Reader.line 20 (sq "<span class='suggestion-text'>" ++ escapeHtml D term ++ lit "</span>") ++
  Reader.line 20 (sq "<button class='remove-suggestion-btn' ") ++
  Reader.line 28 (sq "onclick='event.stopPropagation(); UI.removeFromSearchHistory(" ++
                  lit "'" ++ escapeHtml D term ++ lit "'" ++ sq ")'>") ++
  Reader.line 24 (sq "<svg width='12' height='12' viewBox='0 0 12 12'>") ++
  Reader.line 28 (sq "<path d='M1 1l10 10M11 1L1 11' stroke='currentColor' stroke-width='2'/>") ++
  Reader.line 24 (lit "</svg>") ++
  Reader.line 20 (lit "</button>") ++
  Reader.line 16 (lit "</div>") ++
  Reader.line 12 [].

Definition suggestionsHtml (D : HostDOM) (suggestions : list jsstring) : jsstring :=
  Reader.line 12 (sq "<div class='search-suggestions-header'>") ++
  Reader.line 16 (lit "<span>Recent Searches</span>") ++
  Reader.line 16 (sq "<button class='clear-history-btn' onclick='UI.clearSearchHistory()'>Clear</button>") ++
  Reader.line 12 (lit "</div>") ++
  Reader.line 12 (flat_map (suggestionItem D) suggestions) ++
  Reader.line 8 [].

Section Suggestions.

Variable toLowerCase : jsstring -> jsstring.
Variable D : HostDOM.

(** The terms that [showSearchSuggestions] lists for a filter text. *)
Definition suggestionsFor (filterText : jsstring) (history : list jsstring)
  : list jsstring :=
  if truthy filterText then
    filter (fun term => includes (toLowerCase filterText) (toLowerCase term))
           history
  else history.

(** [showSearchSuggestions]. *)
Definition showSearchSuggestions (filterText : jsstring)
           (st : State) (dd : Suggest) : Suggest :=
  let suggestions := suggestionsFor filterText (searchHistory st) in
  if Nat.eqb (length suggestions) 0 then hideSearchSuggestions dd
  else
    {| searchInputValue := searchInputValue dd;
       dropdownHTML := suggestionsHtml D suggestions;
       dropdownActive := true |}.

(** [removeFromSearchHistory]. *)
Definition removeFromSearchHistory (term : jsstring)
           (st : State) (dd : Suggest) : State * Suggest :=
  let st :=
    setSearchHistory
      (filter (fun t => negb (jseqb t term)) (searchHistory st)) st in
  let st := saveSearchHistory st in
  if Nat.ltb 0 (length (searchHistory st))
  then (st, showSearchSuggestions (searchInputValue dd) st dd)
  else (st, hideSearchSuggestions dd).

(** The [focus] listener of [initSearchAutocomplete]. *)
Definition searchInputFocused (st : State) (dd : Suggest) : Suggest :=
  if Nat.ltb 0 (length (searchHistory st))
  then showSearchSuggestions [] st dd
  else dd.

(** The [input] listener of [initSearchAutocomplete]; [typed] is the new
    value of the search box. *)
Definition searchInputChanged (typed : jsstring)
           (st : State) (dd : Suggest) : Suggest :=
  let dd :=
    {| searchInputValue := typed;
       dropdownHTML := dropdownHTML dd;
       dropdownActive := dropdownActive dd |} in
  let value := trim typed in
  if Nat.ltb 0 (length value) then showSearchSuggestions value st dd
  else if Nat.ltb 0 (length (searchHistory st))
  then showSearchSuggestions [] st dd
  else hideSearchSuggestions dd.

End Suggestions.

(** [clearSearchHistory]. *)
Definition clearSearchHistory (st : State) (dd : Suggest) : State * Suggest :=
  let st := setSearchHistory [] st in
  let st := saveSearchHistory st in
  (st, hideSearchSuggestions dd).

(** [loadSearchHistory].  The item of the store is the text that
    [saveSearchHistory] wrote for the array in [storedHistory], or it is
    missing; a text that does not parse lands in the [catch]. *)
Definition loadSearchHistory (st : State) : State :=
  match option_map JSON.stringify (storedHistory st) with
  | None | Some [] => st
  | Some saved =>
      match JSON.parse saved with
      | Some history => setSearchHistory history st
      | None => setSearchHistory [] st
      end
  end.

(** [selectSearchSuggestion], up to the event it dispatches. *)
Definition selectSearchSuggestion (term : jsstring) (dd : Suggest) : Suggest :=
  hideSearchSuggestions
    {| searchInputValue := term;
       dropdownHTML := dropdownHTML dd;
       dropdownActive := dropdownActive dd |}.

(** *** The theme *)

(** The [data-theme] attribute of the document element and the stored
    theme. *)
Record Theme : Type := {
  dataTheme : option jsstring;
  storedTheme : option jsstring;          (* localStorage, theme *)
  themeWritable : bool                    (* setItem does not throw *)
}.

(** [initTheme], up to the listener it installs. *)
Definition initTheme (t : Theme) : Theme :=
  let savedTheme :=
    match storedTheme t with
    | Some (c :: s) => c :: s
    | _ => lit "light"
    end in
  {| dataTheme := Some savedTheme;
     storedTheme := storedTheme t;
     themeWritable := themeWritable t |}.

(** The click listener of the theme toggle.  An exception of [setItem]
    leaves the listener after the attribute has been set. *)
Definition themeToggleClick (t : Theme) : Completion Theme :=
  let currentTheme := dataTheme t in
  let newTheme :=
    match currentTheme with
    | Some s => if jseqb s (lit "light") then lit "dark" else lit "light"
    | None => lit "light"
    end in
  if themeWritable t then
    Normal {| dataTheme := Some newTheme;
              storedTheme := Some newTheme;
              themeWritable := themeWritable t |}
  else
    Throws {| dataTheme := Some newTheme;
              storedTheme := storedTheme t;
              themeWritable := themeWritable t |}.

End UI.

(** ** API (src/js/api.js): the requests to the news service *)

Module API.

Definition API_BASE_URL : jsstring := lit "https://newsapi.org/v2".

(** What [loadNews] reads of the parsed response body: [status] when it
    is a string, the [articles] array when there is one (its members
    being article objects with a [source], as the service sends them),
    and the text of [message] when the property is truthy. *)
Record Payload : Type := {
  status : option jsstring;
  articles : option (list UI.Article);
  message : option jsstring
}.

(** What [fetch] and [response.json()] can do; a body that parses to
    [null] is [JsonValue None]. *)
Inductive JsonOutcome : Type :=
| JsonRejected (message : jsstring)
| JsonValue (data : option Payload).

Inductive FetchOutcome : Type :=
| FetchRejected (message : jsstring)
| FetchResponse (status : N) (json : JsonOutcome).

Record Platform : Type := {
  fetch : jsstring -> FetchOutcome;
  uriErrorMessage : jsstring
}.

(** The settled promise of a request: rejected with an error, or
    fulfilled with the parsed body. *)
Inductive Result : Type :=
| Thrown (message : jsstring)
| Returned (data : option Payload).

Definition httpError (status : N) : jsstring :=
  lit "HTTP error! status: " ++ decimal status.

Section Requests.

Variable API_KEY : jsstring.
Variable P : Platform.

(** The part that the two requests share: every error is logged and
    thrown again. *)
Definition request (requestUrl : jsstring) : Result :=
  match fetch P requestUrl with
  | FetchRejected message => Thrown message
  | FetchResponse status json =>
      if negb (Reader.ok status) then Thrown (httpError status)
      else
        match json with
        | JsonRejected message => Thrown message
        | JsonValue data => Returned data
        end
  end.

Definition topHeadlinesUrl (category : jsstring) : jsstring :=
  let categoryParam :=
    if truthy category then lit "&category=" ++ category else [] in
  API_BASE_URL ++ lit "/top-headlines?country=us" ++ categoryParam ++
  lit "&pageSize=30&apiKey=" ++ API_KEY.

(** [fetchTopHeadlines]. *)
Definition fetchTopHeadlines (category : jsstring) : Result :=
  request (topHeadlinesUrl category).

Definition searchUrl (encoded : jsstring) : jsstring :=
  API_BASE_URL ++ lit "/everything?q=" ++ encoded ++
  lit "&sortBy=publishedAt&pageSize=30&language=en&apiKey=" ++ API_KEY.

(** [searchNews]. *)
Definition searchNews (query : jsstring) : Result :=
  match encodeURIComponent query with
  | None => Thrown (uriErrorMessage P)
  | Some encoded => request (searchUrl encoded)
  end.

(** [isApiKeyConfigured]. *)
Definition isApiKeyConfigured : bool :=
  negb (jseqb API_KEY (lit "YOUR_API_KEY_HERE")) && Nat.ltb 0 (length API_KEY).

End Requests.

End API.

(** ** App (src/js/app.js): the handlers of the page

    [loadNews] is asynchronous and no caller awaits it.  It is modelled in
    two parts: up to its [await], where the request leaves, and from the
    answer on, which runs on the page as it is by then.  [loadNews] and
    the handlers that call it are the run in which nothing else is
    handled between the two parts; timers are not run. *)

Module App.

(** The fields [currentCategory] and [currentSearchQuery] of the [App]
    object, and the category of the button that carries the class
    [active]. *)
Record State : Type := {
  currentCategory : jsstring;
  currentSearchQuery : jsstring;
  activeCategoryBtn : option jsstring
}.

(** The page: [App], [UI] and the elements they write.  The search box
    of [App] and of [UI] is one element. *)
Record World : Type := {
  app : State;
  ui : UI.State;
  grid : UI.Grid;
  suggest : UI.Suggest;
  modal : UI.Modal
}.

Definition setApp (a : State) (w : World) : World :=
  {| app := a; ui := ui w; grid := grid w; suggest := suggest w;
     modal := modal w |}.
Definition setUi (u : UI.State) (w : World) : World :=
  {| app := app w; ui := u; grid := grid w; suggest := suggest w;
     modal := modal w |}.
Definition setGrid (g : UI.Grid) (w : World) : World :=
  {| app := app w; ui := ui w; grid := g; suggest := suggest w;
     modal := modal w |}.
Definition setSuggest (s : UI.Suggest) (w : World) : World :=
  {| app := app w; ui := ui w; grid := grid w; suggest := s;
     modal := modal w |}.
Definition setModal (m : UI.Modal) (w : World) : World :=
  {| app := app w; ui := ui w; grid := grid w; suggest := suggest w;
     modal := m |}.

Definition addKeyMessage : jsstring :=
  lit "Please add your NewsAPI key in js/api.js to fetch news. Get a free key at NewsAPI.org".
Definition rateLimitMessage : jsstring :=
  lit "Rate limit exceeded. Please try again later.".
Definition invalidKeyMessage : jsstring :=
  lit "Invalid API key. Please check your NewsAPI key in js/api.js".
Definition failedToLoad : jsstring := lit "Failed to load news".
Definition enterSearchTerm : jsstring := lit "Please enter a search term".

Section Handlers.

Variable toLowerCase : jsstring -> jsstring.
Variable toUpperCase : jsstring -> jsstring.
Variable D : HostDOM.
Variable C : UI.Clock.
Variable API_KEY : jsstring.
Variable P : API.Platform.
(* the message of the TypeError raised by reading a property of null *)
Variable typeErrorMessage : jsstring.
(* the address that articleFrame.src returns for an assigned text *)
Variable resolveUrl : jsstring -> jsstring.

(** The [catch] of [loadNews]. *)
Definition loadNewsFailed (message : jsstring) (w : World) : World :=
  let w := setGrid (UI.hideLoading (grid w)) w in
  if negb (API.isApiKeyConfigured API_KEY) then
    setGrid (UI.showError addKeyMessage (grid w)) w
  else if includes (lit "429") message then
    setGrid (UI.showError rateLimitMessage (grid w)) w
  else if includes (lit "401") message then
    setGrid (UI.showError invalidKeyMessage (grid w)) w
  else
    setGrid (UI.showError (lit "Error: " ++ message) (grid w)) w.

(** The rest of the [try] of [loadNews] once the request has returned. *)
Definition loadNewsReturned (data : option API.Payload) (w : World) : World :=
  let w := setGrid (UI.hideLoading (grid w)) w in
  match data with
  | None => loadNewsFailed typeErrorMessage w
  | Some data =>
      if match API.status data with
         | Some s => jseqb s (lit "ok")
         | None => false
         end
      then
        let w := setGrid (UI.renderArticles D C (API.articles data) (grid w)) w in
        if API.isApiKeyConfigured API_KEY
        then setGrid (UI.hideApiKeyBanner (grid w)) w
        else w
      else
        setGrid
          (UI.showError
             (match API.message data with
              | Some (c :: m) => c :: m
              | _ => failedToLoad
              end)
             (grid w))
          w
  end.

Definition categoryName (category : jsstring) : jsstring :=
  match category with
  | c :: rest => toUpperCase [c] ++ rest
  | [] => lit "Top"
  end.

(** The branch of [loadNews] that sent a request, and a request in
    flight with the settled promise that will answer it. *)
Inductive Branch : Type :=
| Search
| Headlines.

Record Load : Type := {
  branch : Branch;
  answer : API.Result
}.

(** [loadNews] up to its [await]: the skeleton is shown and the request
    is sent, for the query if there is one and for the headlines of the
    category otherwise. *)
Definition loadNewsStarted (w : World) : World * Load :=
  let w := setGrid (UI.showSkeletonLoading 12 (grid w)) w in
  if truthy (currentSearchQuery (app w)) then
    (w, {| branch := Search;
           answer := API.searchNews API_KEY P (currentSearchQuery (app w)) |})
  else
    (w, {| branch := Headlines;
           answer :=
             API.fetchTopHeadlines API_KEY P (currentCategory (app w)) |}).

(** [loadNews] from the answer on.  [w] is the page at that moment: the
    code reads [this.currentSearchQuery] and [this.currentCategory]
    again. *)
Definition loadNewsAnswered (l : Load) (w : World) : World :=
  match answer l with
  | API.Thrown message => loadNewsFailed message w
  | API.Returned data =>
      match branch l with
      | Search =>
          let w :=
            setGrid
              (UI.updateSectionTitle
                 (sq "Search: '" ++ currentSearchQuery (app w) ++ sq "'")
                 (grid w))
              w in
          let w :=
            setUi (UI.addToSearchHistory toLowerCase (ui w)
                                         (currentSearchQuery (app w)))
                  w in
          loadNewsReturned data w
      | Headlines =>
          let w :=
            setGrid
              (UI.updateSectionTitle
                 (categoryName (currentCategory (app w)) ++ lit " Headlines")
                 (grid w))
              w in
          loadNewsReturned data w
      end
  end.

(** A handler that has returned, with the load it has started if it
    has started one, and the page once that load has been answered with
    nothing handled in between. *)
Definition settled (s : World * option Load) : World :=
  match s with
  | (w, Some l) => loadNewsAnswered l w
  | (w, None) => w
  end.

(** [loadNews]. *)
Definition loadNews (w : World) : World :=
  let (w, l) := loadNewsStarted w in
  loadNewsAnswered l w.

(** The target of a click in the category list: whether it carries the
    class [category-btn], and its [data-category]. *)
Record ClickTarget : Type := {
  isCategoryBtn : bool;
  datasetCategory : jsstring
}.

Definition setSearchInputValue (v : jsstring) (s : UI.Suggest) : UI.Suggest :=
  {| UI.searchInputValue := v;
     UI.dropdownHTML := UI.dropdownHTML s;
     UI.dropdownActive := UI.dropdownActive s |}.

(** [handleCategoryClick] up to the [await] of the load it starts. *)
Definition handleCategoryClickStarted (target : ClickTarget) (w : World)
  : World * option Load :=
  if isCategoryBtn target then
    let w :=
      setApp {| currentCategory := datasetCategory target;
                currentSearchQuery := [];
                activeCategoryBtn := Some (datasetCategory target) |} w in
    let w := setSuggest (setSearchInputValue [] (suggest w)) w in
    let (w, l) := loadNewsStarted w in
    (w, Some l)
  else (w, None).

(** [handleCategoryClick]. *)
Definition handleCategoryClick (target : ClickTarget) (w : World) : World :=
  settled (handleCategoryClickStarted target w).

(** [handleSearch] up to the [await] of the load it starts. *)
Definition handleSearchStarted (w : World) : World * option Load :=
  let query := trim (UI.searchInputValue (suggest w)) in
  if truthy query then
    let w :=
      setApp {| currentCategory := [];
                currentSearchQuery := query;
                activeCategoryBtn := None |} w in
    let (w, l) := loadNewsStarted w in
    (w, Some l)
  else
    (setGrid (UI.showError enterSearchTerm (grid w)) w, None).

(** [handleSearch]. *)
Definition handleSearch (w : World) : World :=
  settled (handleSearchStarted w).

(** [handleSearchKeypress]. *)
Definition handleSearchKeypress (key : jsstring) (w : World) : World :=
  if jseqb key (lit "Enter") then handleSearch w else w.

(** [handleSuggestionSelected]. *)
Definition handleSuggestionSelected (w : World) : World := handleSearch w.

(** [UI.selectSearchSuggestion] with the listener that [initEventListeners]
    installs for the event it dispatches. *)
Definition selectSearchSuggestion (term : jsstring) (w : World) : World :=
  handleSuggestionSelected
    (setSuggest (UI.selectSearchSuggestion term (suggest w)) w).

(** [handleModalClose]. *)
Definition handleModalClose (w : World) : World :=
  setUi (UI.closeArticleModal (ui w)) w.

(** [handleOverlayClick]; the flag tells whether the overlay itself was
    the target. *)
Definition handleOverlayClick (onOverlay : bool) (w : World) : World :=
  if onOverlay then setUi (UI.closeArticleModal (ui w)) w else w.

(** [handleEscapeKey]. *)
Definition handleEscapeKey (key : jsstring) (w : World) : World :=
  if jseqb key (lit "Escape") then
    if UI.modalOverlayActive (ui w)
    then setUi (UI.closeArticleModal (ui w)) w
    else setSuggest (UI.hideSearchSuggestions (suggest w)) w
  else w.

(** [handleViewModeToggle]; the argument is the [data-mode] of the
    button. *)
Definition handleViewModeToggle (mode : jsstring) (w : World)
  : UI.Completion World :=
  if jseqb mode (lit "reader") then
    UI.Normal (setModal (UI.showReaderMode (modal w)) w)
  else if jseqb mode (lit "embed") then
    match UI.showEmbedMode resolveUrl (ui w) (modal w) with
    | UI.Normal (u, m) => UI.Normal (setModal m (setUi u w))
    | UI.Throws (u, m) => UI.Throws (setModal m (setUi u w))
    end
  else UI.Normal w.

End Handlers.

End App.

(** ** Vocabulary of the specification *)

(** The content field as the specification describes it: missing, empty,
    or not a string. *)
Definition missingEmptyOrNotString (v : Reader.JSValue) : Prop :=
  v = Reader.JUndefined \/ v = Reader.JString [] \/
  (forall s, v <> Reader.JString s).

(** The service answered the request for [url] with this status line and
    this outcome of reading the body. *)
Definition responds (P : Reader.Platform) (key url : jsstring)
           (status : N) (statusText : jsstring) (body : Reader.BodyOutcome)
  : Prop :=
  exists encoded,
    encodeURIComponent url = Some encoded /\
    Reader.fetch P (Reader.buildRequest key encoded) =
    Reader.FetchResponse status statusText body.

(** The reason the specification attaches to a non-success status. *)
Definition statusReason (status : N) (statusText : jsstring) : jsstring :=
  if N.eqb status 401 then Reader.authenticationFailed
  else if N.eqb status 429 then Reader.rateLimitExceeded
  else Reader.httpError status statusText.

(** A network on which the service answers every request alike. *)
Definition answering (status : N) (statusText : jsstring)
           (body : Reader.BodyOutcome) : Reader.Platform :=
  {| Reader.fetch := fun _ => Reader.FetchResponse status statusText body;
     Reader.uriErrorMessage := lit "URI malformed" |}.

Definition unauthorized : Reader.Platform :=
  answering 401 (lit "Unauthorized") (Reader.BodyText []).

Definition sampleUrl : jsstring := lit "https://example.com/story".

(** Sample markup and markdown. *)
Definition scriptOnly : jsstring := lit "<script>alert(1)</script>".
Definition imageToken : jsstring := lit "![alt](url)".
Definition imageElement : jsstring := sq "<img src='url' alt='alt' loading='lazy'>".
Definition linkToken : jsstring := lit "[x](http://a)".
Definition anchorElement : jsstring :=
  sq "<a href='http://a' target='_blank' rel='noopener noreferrer'>x</a>".

Definition scriptElement : jsstring := lit "<script>x</script>".

(** Adjacent text nodes joined and empty ones dropped, at every depth:
    the tree after [normalize()].  When the loops detach an element that
    stood between two texts, the texts stay two nodes of the tree, and
    the markup of the tree is read back as one. *)
Fixpoint joinText (f : list Node) : list Node :=
  match f with
  | [] => []
  | Text a :: rest =>
      match a, joinText rest with
      | [], rest' => rest'
      | _, Text b :: rest' => Text (a ++ b) :: rest'
      | _, rest' => Text a :: rest'
      end
  | n :: rest => n :: joinText rest
  end.

Fixpoint normalizeNode (n : Node) : Node :=
  match n with
  | Element t a ch => Element t a (joinText (map normalizeNode ch))
  | _ => n
  end.

Definition normalize (f : list Node) : list Node :=
  joinText (map normalizeNode f).

Definition textAroundScript : jsstring := lit "a<script>x</script>b".

(** The most recent term of a sequence of additions that was not ignored. *)
Definition lastAdded (terms : list jsstring) : option jsstring :=
  find (fun t => negb (UI.ignored t)) (rev terms).

Definition isAscii (c : N) : Prop := (c < 128)%N.

(** The invariant of the search history. *)
Definition wellKept (toLowerCase : jsstring -> jsstring) (h : list jsstring)
  : Prop :=
  length h <= UI.maxSearchHistory /\ NoDup (map toLowerCase h).

(** A string that [trim] empties. *)
Definition blank (s : jsstring) : Prop := trim s = [].

(** A successful result whose content is a number, and a failure that
    carries no reason. *)
Definition numericContent : Reader.ContentData :=
  {| Reader.success := true;
     Reader.content := Reader.JNumber 7;
     Reader.title := None;
     Reader.description := None;
     Reader.author := None;
     Reader.publishedTime := None;
     Reader.error := None |}.

Definition failureWithoutReason : Reader.ContentData :=
  {| Reader.success := false;
     Reader.content := Reader.JUndefined;
     Reader.title := None;
     Reader.description := None;
     Reader.author := None;
     Reader.publishedTime := None;
     Reader.error := None |}.

(** Text without the characters that begin a markdown pattern (the hash,
    the star, the opening bracket, the exclamation mark) and without line
    feeds. *)
Definition plainText (s : jsstring) : Prop :=
  forall c, In c s ->
            c <> 35%N /\ c <> 42%N /\ c <> 91%N /\ c <> 33%N /\ c <> 10%N.

(** Content that [formatContent] sends to the markdown branch. *)
Definition markdownBranch (content : jsstring) : Prop :=
  includes (lit "<html") content = false /\
  includes (lit "<!DOCTYPE") content = false /\
  includes (lit "<p>") content = false /\
  includes (lit "<div>") content = false /\
  includes (lit "<article>") content = false.

(** Text of an image or link token: without brackets, parentheses and
    the other characters that begin a markdown pattern. *)
Definition tokenText (s : jsstring) : Prop :=
  forall c, In c s ->
            ~ In c [35; 42; 91; 93; 40; 41; 33; 10]%N.

(** The image token for an alternative text and an address, and what
    [markdownToHtml] makes of it. *)
Definition imageTokenOf (alt url : jsstring) : jsstring :=
  lit "![" ++ alt ++ lit "](" ++ url ++ lit ")".

Definition anchorAfterBang (alt url : jsstring) : jsstring :=
  lit "!" ++ sq "<a href='" ++ url ++
  sq "' target='_blank' rel='noopener noreferrer'>" ++ alt ++ lit "</a>".

(** ** Edits that keep a token

    A replacement whose matches are a delimiter, a captured text and a
    second delimiter, and whose result is that captured text between two
    tags, edits the input by dropping delimiter characters, copying
    everything else and putting tag characters next to a dropped
    character or before a character that is not of the token.  [T] is
    the token and [X] a character that the tags do not contain. *)

Section KeptText.

Variable T : jsstring.
Variable X : N.

(** [edits b s s']: [s'] is an edit of [s]; [b] tells whether the
    character before [s] was dropped. *)
Inductive edits : bool -> jsstring -> jsstring -> Prop :=
| edits_nil : forall b, edits b [] []
| edits_copy : forall b c s s',
    edits false s s' -> edits b (c :: s) (c :: s')
| edits_drop : forall b c s s',
    ~ In c T -> edits true s s' -> edits b (c :: s) s'
| edits_put : forall b c s s',
    c <> X ->
    (b = true \/ s = [] \/ exists d s0, s = d :: s0 /\ ~ In d T) ->
    edits b s s' -> edits b s (c :: s').

(** Every match is [d1 ++ cap ++ d2] and is replaced by
    [t1 ++ cap ++ t2]. *)
Definition sandwich (r : regex) (tmpl : list piece) : Prop :=
  forall prev s m caps,
    exec r prev s = Some (m, caps) ->
    exists d1 cap d2 t1 t2 rest,
      s = m ++ rest /\ m = d1 ++ cap ++ d2 /\
      expand tmpl caps = t1 ++ cap ++ t2 /\
      d1 <> [] /\
      (forall c, In c d1 -> ~ In c T) /\
      (forall c, In c d2 -> ~ In c T) /\
      ~ In X t1 /\ ~ In X t2 /\
      (d2 <> [] \/ cap = [] \/ rest = [] \/
       exists d s0, rest = d :: s0 /\ ~ In d T).

End KeptText.

(** ** Link matches before a token

    The link pattern is tried at every position outside an earlier
    match.  An attempt at an opening bracket can succeed in one way
    only: the text runs to the next closing bracket, is not empty and is
    followed by an opening parenthesis, and the address runs to the next
    closing parenthesis and is not empty.  [linkStep] follows these
    attempts through a text, character by character: the scan is outside
    a match, after an opening bracket, inside the bracketed text, after
    the bracket that closes it, after the parenthesis that follows, or
    inside the address.  When an attempt fails, the attempts that begin
    at the brackets it has passed fail at the same place, so the scan is
    outside again. *)

Inductive LinkScan : Type :=
| Outside
| Opened
| InText
| Closed
| ParenOpened
| InAddress.

Definition linkStep (q : LinkScan) (c : N) : LinkScan :=
  match q with
  | Outside => if N.eqb c 91 then Opened else Outside
  | Opened => if N.eqb c 93 then Outside else InText
  | InText => if N.eqb c 93 then Closed else InText
  | Closed =>
      if N.eqb c 40 then ParenOpened
      else if N.eqb c 91 then Opened else Outside
  | ParenOpened => if N.eqb c 41 then Outside else InAddress
  | InAddress => if N.eqb c 41 then Outside else InAddress
  end.

Definition linkScan (s : jsstring) : LinkScan := fold_left linkStep s Outside.

(** The scan is at rest: no attempt is under way that more text could
    complete.  After a closing bracket the attempt needs a parenthesis
    next, and fails at the bracket of a token that follows. *)
Definition atRest (q : LinkScan) : bool :=
  match q with
  | Outside | Closed => true
  | _ => false
  end.

(** No match of the link pattern that begins in [pre] runs into a link
    token that follows [pre]: where [pre] ends, no bracketed text is
    waiting for its closing bracket and no address for its closing
    parenthesis. *)
Definition linksEndIn (pre : jsstring) : bool := atRest (linkScan pre).

(** The brackets and parentheses of the link pattern. *)
Definition bracket (c : N) : bool :=
  N.eqb c 91 || N.eqb c 93 || N.eqb c 40 || N.eqb c 41.

(** ** Edits that keep the scan of the link pattern

    The header, bold and italic replacements put a tag where they drop a
    delimiter, and a closing tag at the end of a line; neither the
    delimiters nor the tags hold a bracket or a parenthesis.  [T] is the
    token. *)

Section Retagged.

Variable T : jsstring.

Inductive retags : jsstring -> jsstring -> Prop :=
| retags_nil : retags [] []
| retags_copy : forall c s s',
    retags s s' -> retags (c :: s) (c :: s')
| retags_swap : forall d t s s',
    d <> [] -> t <> [] ->
    (forall c, In c d -> ~ In c T) ->
    (forall c, In c t -> bracket c = false) ->
    retags s s' -> retags (d ++ s) (t ++ s')
| retags_put : forall t s s',
    (forall c, In c t -> bracket c = false) ->
    (s = [] \/ exists d s0, s = d :: s0 /\ ~ In d T) ->
    retags s s' -> retags s (t ++ s').

(** Every match is [d1 ++ cap ++ d2] and is replaced by
    [t1 ++ cap ++ t2], with tags that are not empty. *)
Definition retagging (r : regex) (tmpl : list piece) : Prop :=
  forall prev s m caps,
    exec r prev s = Some (m, caps) ->
    exists d1 cap d2 t1 t2 rest,
      s = m ++ rest /\ m = d1 ++ cap ++ d2 /\
      expand tmpl caps = t1 ++ cap ++ t2 /\
      d1 <> [] /\ t1 <> [] /\ t2 <> [] /\
      (forall c, In c d1 -> ~ In c T) /\
      (forall c, In c d2 -> ~ In c T) /\
      (forall c, In c t1 -> bracket c = false) /\
      (forall c, In c t2 -> bracket c = false) /\
      (d2 <> [] \/ rest = [] \/
       exists d s0, rest = d :: s0 /\ ~ In d T).

End Retagged.

(** ** Vocabulary of the further properties *)

(** A host that serialises a lone text node as the HTML standard
    prescribes, and an element without children as the empty string. *)
Definition serializesText (D : HostDOM) : Prop :=
  serializeFragment D [] = [] /\
  forall data, serializeFragment D [Text data] = MiniDom.escape false data.

(** A clock that reads 2026-01-01T00:00:00Z and knows two dates, one two
    and a half hours before and one two days after. *)
Definition sampleClock : UI.Clock :=
  {| UI.now := 1767225600000%Z;
     UI.parseDate :=
       fun s =>
         if jseqb s (lit "2025-12-31T21:30:00Z") then Some 1767216600000%Z
         else if jseqb s (lit "2026-01-03T00:00:00Z") then Some 1767398400000%Z
         else None;
     UI.getFullYear := fun t => (1970 + t / 31556952000)%Z;
     UI.toLocaleDateString := fun _ _ => lit "Jan 1" |}.

Definition sampleArticle : UI.Article :=
  {| UI.url := sampleUrl;
     UI.title := lit "A story";
     UI.description := [];
     UI.sourceName := lit "Example";
     UI.publishedAt := lit "2025-12-31T21:30:00Z";
     UI.urlToImage := None |}.

(** The operations on the search history. *)
Inductive HistoryOp : Type :=
| Add (term : jsstring)
| Remove (term : jsstring)
| Clear.

Section Operations.

Variable toLowerCase : jsstring -> jsstring.
Variable D : HostDOM.

Definition applyOp (w : UI.State * UI.Suggest) (op : HistoryOp)
  : UI.State * UI.Suggest :=
  match op with
  | Add term => (UI.addToSearchHistory toLowerCase (fst w) term, snd w)
  | Remove term => UI.removeFromSearchHistory toLowerCase D term (fst w) (snd w)
  | Clear => UI.clearSearchHistory (fst w) (snd w)
  end.

Definition runOps (w : UI.State * UI.Suggest) (ops : list HistoryOp)
  : UI.State * UI.Suggest :=
  fold_left applyOp ops w.

End Operations.

(** The history that a fresh page reads from the store of [st]. *)
Definition reloaded (st : UI.State) : list jsstring :=
  UI.searchHistory (UI.loadSearchHistory (UI.setSearchHistory [] st)).

(** The store can be written and holds the history, or nothing while the
    history is empty. *)
Definition stored (st : UI.State) : Prop :=
  UI.storageWritable st = true /\
  (UI.storedHistory st = Some (UI.searchHistory st) \/
   (UI.storedHistory st = None /\ UI.searchHistory st = [])).

Definition closedSuggest : UI.Suggest :=
  {| UI.searchInputValue := []; UI.dropdownHTML := []; UI.dropdownActive := false |}.

(** A history that is full. *)
Definition fullHistory : UI.State :=
  UI.setSearchHistory [lit "e"; lit "d"; lit "c"; lit "b"; lit "a"] UI.initial.

(** The state in which a call leaves the page, whether it returns or
    throws. *)
Definition leaves {A : Type} (c : UI.Completion A) : A :=
  match c with
  | UI.Normal a => a
  | UI.Throws a => a
  end.

(** A state whose frame still shows an article. *)
Definition frameLoaded : UI.State :=
  UI.setArticleFrameSrc (lit "https://example.com/first") UI.initial.

(** The articles of a response that [renderArticles] turns into cards. *)
Definition shown (articles : option (list UI.Article)) : list UI.Article :=
  filter UI.hasTitle (match articles with Some l => l | None => [] end).

(** What the user and the page can do to the handlers of [App] and to
    the listeners of the search box. *)
Inductive Event : Type :=
| Typed (text : jsstring)
| Focused
| SearchClicked
| KeyPressed (key : jsstring)
| CategoryClicked (target : App.ClickTarget)
| SuggestionSelected (term : jsstring)
| SuggestionRemoved (term : jsstring)
| HistoryCleared
| KeyDown (key : jsstring)
| ModalClosed
| OverlayClicked (onOverlay : bool)
| ModeToggled (mode : jsstring).

Section Page.

Variable toLowerCase : jsstring -> jsstring.
Variable toUpperCase : jsstring -> jsstring.
Variable D : HostDOM.
Variable C : UI.Clock.
Variable API_KEY : jsstring.
Variable P : API.Platform.
Variable typeErrorMessage : jsstring.
Variable resolveUrl : jsstring -> jsstring.

Definition react (w : App.World) (e : Event) : App.World :=
  match e with
  | Typed text =>
      App.setSuggest
        (UI.searchInputChanged toLowerCase D text (App.ui w) (App.suggest w)) w
  | Focused =>
      App.setSuggest
        (UI.searchInputFocused toLowerCase D (App.ui w) (App.suggest w)) w
  | SearchClicked =>
      App.handleSearch toLowerCase toUpperCase D C API_KEY P typeErrorMessage w
  | KeyPressed key =>
      App.handleSearchKeypress toLowerCase toUpperCase D C API_KEY P
                               typeErrorMessage key w
  | CategoryClicked target =>
      App.handleCategoryClick toLowerCase toUpperCase D C API_KEY P
                              typeErrorMessage target w
  | SuggestionSelected term =>
      App.selectSearchSuggestion toLowerCase toUpperCase D C API_KEY P
                                 typeErrorMessage term w
  | SuggestionRemoved term =>
      let (u, s) :=
        UI.removeFromSearchHistory toLowerCase D term (App.ui w) (App.suggest w) in
      App.setSuggest s (App.setUi u w)
  | HistoryCleared =>
      let (u, s) := UI.clearSearchHistory (App.ui w) (App.suggest w) in
      App.setSuggest s (App.setUi u w)
  | KeyDown key => App.handleEscapeKey key w
  | ModalClosed => App.handleModalClose w
  | OverlayClicked onOverlay => App.handleOverlayClick onOverlay w
  | ModeToggled mode =>
      match App.handleViewModeToggle resolveUrl mode w with
      | UI.Normal w' => w'
      | UI.Throws w' => w'
      end
  end.

Definition reactAll (w : App.World) (events : list Event) : App.World :=
  fold_left react events w.

End Page.

(** The page is in headline mode or in search mode, never in both. *)
Definition oneMode (a : App.State) : Prop :=
  App.currentCategory a = [] \/ App.currentSearchQuery a = [].

(** A news service that answers every request alike. *)
Definition newsAnswering (status : N) (json : API.JsonOutcome) : API.Platform :=
  {| API.fetch := fun _ => API.FetchResponse status json;
     API.uriErrorMessage := lit "URI malformed" |}.

(** A page on which nothing has been shown yet, and the same page with
    text in the search box. *)
Definition emptyGrid : UI.Grid :=
  {| UI.newsGrid := [];
     UI.loadingSpinnerDisplay := [];
     UI.errorMessageHTML := [];
     UI.errorMessageDisplay := [];
     UI.emptyStateDisplay := [];
     UI.sectionTitle := [];
     UI.resultsCount := [];
     UI.apiKeyBannerDisplay := [] |}.

Definition emptyModal : UI.Modal :=
  {| UI.modalImageSrc := [];
     UI.modalSource := [];
     UI.modalDate := [];
     UI.modalTitle := [];
     UI.modalDescription := [];
     UI.openOriginalBtnHref := [];
     UI.readerContent := [];
     UI.modalBodyDisplay := [];
     UI.modalEmbedDisplay := [];
     UI.readerModeBtnActive := false;
     UI.embedModeBtnActive := false;
     UI.embedLoads := [] |}.

Definition pageWith (typed : jsstring) : App.World :=
  {| App.app := {| App.currentCategory := [];
                   App.currentSearchQuery := [];
                   App.activeCategoryBtn := None |};
     App.ui := UI.initial;
     App.grid := emptyGrid;
     App.suggest := {| UI.searchInputValue := typed;
                       UI.dropdownHTML := [];
                       UI.dropdownActive := false |};
     App.modal := emptyModal |}.

Definition okResponse : API.JsonOutcome :=
  API.JsonValue (Some {| API.status := Some (lit "ok");
                         API.articles := Some [sampleArticle];
                         API.message := None |}).

(** The text that the [catch] of [loadNews] shows for an error. *)
Definition failureText (API_KEY message : jsstring) : jsstring :=
  if negb (API.isApiKeyConfigured API_KEY) then App.addKeyMessage
  else if includes (lit "429") message then App.rateLimitMessage
  else if includes (lit "401") message then App.invalidKeyMessage
  else lit "Error: " ++ message.

(** The page shows the article cards, the empty state or the error
    message, and nothing of the other two. *)
Definition oneView (g : UI.Grid) : Prop :=
  (UI.newsGrid g <> [] /\ UI.errorMessageDisplay g = lit "none" /\
   UI.emptyStateDisplay g = lit "none") \/
  (UI.newsGrid g = [] /\ UI.errorMessageDisplay g = lit "flex" /\
   UI.emptyStateDisplay g = lit "none") \/
  (UI.newsGrid g = [] /\ UI.errorMessageDisplay g = lit "none" /\
   UI.emptyStateDisplay g = lit "block").

(** Text of one line without the characters that begin a markdown
    pattern. *)
Definition lineText (s : jsstring) : Prop :=
  forall c, In c s ->
            ~ In c [35; 42; 91; 33]%N /\ isLineTerminator c = false.

(** [String.prototype.isWellFormed]: every surrogate is half of a pair. *)
Fixpoint isWellFormed (s : jsstring) : bool :=
  match s with
  | [] => true
  | c :: s' =>
      if isHighSurrogate c then
        match s' with
        | lo :: s'' => isLowSurrogate lo && isWellFormed s''
        | [] => false
        end
      else negb (isLowSurrogate c) && isWellFormed s'
  end.

(** Code units are 16-bit. *)
Definition codeUnits (s : jsstring) : Prop :=
  Forall (fun c => (c < 65536)%N) s.

(** The characters that delimit the parts of an address. *)
Definition delimiters : list N := [38; 61; 35; 63; 47; 32; 43; 58; 64]%N.

(** An unreserved character or the percent sign. *)
Definition safe (c : N) : Prop := isUnreserved c = true \/ c = 37%N.

(** A link token, the anchor element that [markdownToHtml] makes of it,
    and text that may stand in one: without the hash, the star, the
    brackets, the closing parenthesis and line terminators. *)
Definition linkTokenOf (text url : jsstring) : jsstring :=
  lit "[" ++ text ++ lit "](" ++ url ++ lit ")".

Definition anchorOf (text url : jsstring) : jsstring :=
  sq "<a href='" ++ url ++
  sq "' target='_blank' rel='noopener noreferrer'>" ++ text ++ lit "</a>".

Definition linkPart (s : jsstring) : Prop :=
  s <> [] /\
  forall c, In c s ->
            ~ In c [35; 42; 91; 93; 41]%N /\ isLineTerminator c = false.

(** ** Edits that keep a token with spaces

    The header patterns drop a space after the hashes.  A token that
    contains spaces survives as long as the dropped characters after the
    first are not the first character of the token. *)

Section AmendedText.

Variable T : jsstring.
Variable X : N.

(** [amends b s s']: as [edits], but a character that follows a dropped
    one may be dropped if the token does not begin with it. *)
Inductive amends : bool -> jsstring -> jsstring -> Prop :=
| amends_nil : forall b, amends b [] []
| amends_copy : forall b c s s',
    amends false s s' -> amends b (c :: s) (c :: s')
| amends_drop : forall b c s s',
    (~ In c T \/ (b = true /\ hd_error T <> Some c)) ->
    amends true s s' -> amends b (c :: s) s'
| amends_put : forall b c s s',
    c <> X ->
    (b = true \/ s = [] \/ exists d s0, s = d :: s0 /\ ~ In d T) ->
    amends b s s' -> amends b s (c :: s').

(** Every match is [(c :: d1) ++ cap ++ d2] and is replaced by
    [t1 ++ cap ++ t2]. *)
Definition encloses (r : regex) (tmpl : list piece) : Prop :=
  forall prev s m caps,
    exec r prev s = Some (m, caps) ->
    exists c d1 cap d2 t1 t2 rest,
      s = m ++ rest /\ m = (c :: d1) ++ cap ++ d2 /\
      expand tmpl caps = t1 ++ cap ++ t2 /\
      ~ In c T /\
      (forall x, In x d1 -> hd_error T <> Some x) /\
      (forall x, In x d2 -> ~ In x T) /\
      ~ In X t1 /\ ~ In X t2 /\
      (d2 <> [] \/ cap = [] \/ rest = [] \/
       exists d s0, rest = d :: s0 /\ ~ In d T).

End AmendedText.

(** * Properties *)

(** ** The content fetcher *)

Lemma trim_length_zero :
  forall s, Nat.eqb (length (trim s)) 0 = true <-> trim s = [].
Proof.
  intros s. destruct (trim s); simpl; split; intros H;
    try reflexivity; discriminate.
Qed.

Lemma blank_test :
  forall text,
    negb (truthy text) || Nat.eqb (length (trim text)) 0 = true <->
    trim text = [].
Proof.
  intros text. destruct text as [| c t].
  - simpl. split; reflexivity.
  - simpl negb. rewrite orb_false_l. apply trim_length_zero.
Qed.

Lemma statusReason_nonempty :
  forall status statusText, statusReason status statusText <> [].
Proof.
  intros status statusText. unfold statusReason.
  destruct (N.eqb status 401); [discriminate |].
  destruct (N.eqb status 429); discriminate.
Qed.

(** What the fetcher returns once the service has answered. *)
Lemma fetchArticleContent_answered :
  forall (P : Reader.Platform) (key url : jsstring)
         (status : N) (statusText : jsstring) (body : Reader.BodyOutcome),
    responds P key url status statusText body ->
    Reader.fetchArticleContent P key url =
    if Reader.ok status then
      match body with
      | Reader.BodyRejected message => Reader.Failure message
      | Reader.BodyText text =>
          match trim text with
          | [] => Reader.Failure Reader.emptyResponse
          | _ :: _ => Reader.Success text
          end
      end
    else Reader.Failure (statusReason status statusText).
Proof.
  intros P key url status statusText body (encoded & Eenc & Ef).
  unfold Reader.fetchArticleContent. rewrite Eenc, Ef.
  destruct (Reader.ok status); cbn [negb].
  - destruct body as [text | message]; [| reflexivity].
    destruct (negb (truthy text) || Nat.eqb (length (trim text)) 0) eqn:Eb.
    + apply blank_test in Eb. rewrite Eb. reflexivity.
    + destruct (trim text) eqn:Et; [| reflexivity].
      cbn [length Nat.eqb] in Eb. rewrite orb_true_r in Eb. discriminate Eb.
  - unfold statusReason. destruct (N.eqb status 401); [reflexivity |].
    destruct (N.eqb status 429); reflexivity.
Qed.

Lemma responds_functional :
  forall P key url st1 stt1 b1 st2 stt2 b2,
    responds P key url st1 stt1 b1 ->
    responds P key url st2 stt2 b2 ->
    st1 = st2 /\ stt1 = stt2 /\ b1 = b2.
Proof.
  intros P key url st1 stt1 b1 st2 stt2 b2 (e1 & E1 & F1) (e2 & E2 & F2).
  rewrite E1 in E2. injection E2 as <-. rewrite F1 in F2.
  injection F2 as -> -> ->. repeat split.
Qed.

(** Without an answer (a URIError, or a rejected [fetch]) the error's
    message becomes the reason of a failure. *)
Lemma fetchArticleContent_unanswered :
  forall (P : Reader.Platform) (key url : jsstring),
    (exists status statusText body, responds P key url status statusText body) \/
    ((forall status statusText body,
         ~ responds P key url status statusText body) /\
     exists reason, Reader.fetchArticleContent P key url = Reader.Failure reason).
Proof.
  intros P key url. unfold Reader.fetchArticleContent, responds.
  destruct (encodeURIComponent url) as [encoded |] eqn:Eenc.
  - destruct (Reader.fetch P (Reader.buildRequest key encoded))
      as [message | status statusText body] eqn:Ef.
    + right. split; [| eexists; reflexivity].
      intros st stt b (e & He & Hf). injection He as <-.
      rewrite Ef in Hf. discriminate Hf.
    + left. exists status, statusText, body, encoded.
      split; [reflexivity | exact Ef].
  - right. split; [| eexists; reflexivity].
    intros st stt b (e & He & _). discriminate He.
Qed.

(** ** The matcher *)

Lemma nil_or_cons :
  forall l : jsstring, l = [] \/ exists c t, l = c :: t.
Proof.
  intros l. destruct l as [| c t]; [left; reflexivity | right].
  exists c, t. reflexivity.
Qed.

Lemma startsWith_app :
  forall l s, startsWith l s = true -> exists rest, s = l ++ rest.
Proof.
  induction l as [| a l IH]; intros s H.
  - exists s. reflexivity.
  - destruct s as [| b s]; [discriminate |].
    simpl in H. apply andb_true_iff in H. destruct H as [Hab Hl].
    apply N.eqb_eq in Hab. subst b.
    destruct (IH s Hl) as [rest ->]. exists rest. reflexivity.
Qed.

Lemma startsWith_refl_app : forall l rest, startsWith l (l ++ rest) = true.
Proof.
  induction l as [| a l IH]; intros rest; simpl.
  - reflexivity.
  - rewrite N.eqb_refl, IH. reflexivity.
Qed.

Lemma includes_app : forall needle a b, includes needle (a ++ needle ++ b) = true.
Proof.
  intros needle a b. induction a as [| c a IH].
  - simpl app. destruct (needle ++ b) eqn:E; simpl;
      rewrite <- E, startsWith_refl_app; reflexivity.
  - simpl app. simpl. rewrite IH. apply orb_true_r.
Qed.

Lemma skipn_length_app : forall (m rest : jsstring), skipn (length m) (m ++ rest) = rest.
Proof.
  induction m as [| c m IH]; intros rest; simpl; [reflexivity | apply IH].
Qed.

Lemma lastOr_app :
  forall prev a b, lastOr prev (a ++ b) = lastOr (lastOr prev a) b.
Proof.
  intros prev a b. unfold lastOr. rewrite rev_app_distr.
  destruct (rev b) as [| c rb]; simpl; reflexivity.
Qed.

Lemma lastOr_cons : forall prev c m, lastOr prev (c :: m) = lastOr (Some c) m.
Proof.
  intros prev c m. change (c :: m) with ([c] ++ m). rewrite lastOr_app.
  reflexivity.
Qed.

(** A run is a prefix of the input made of code units of the class. *)
Lemma runs_inv :
  forall greedy cl s m,
    In m (runs greedy cl s) ->
    Forall (fun c => cmatch cl c = true) m /\ exists rest, s = m ++ rest.
Proof.
  intros greedy cl. induction s as [| c s IH]; intros m H; simpl in H.
  - destruct H as [<- | []]. split; [constructor | exists []; reflexivity].
  - destruct (cmatch cl c) eqn:Ec.
    + assert (H' : m = [] \/ In m (map (cons c) (runs greedy cl s))).
      { destruct greedy.
        - apply in_app_or in H. destruct H as [H | [<- | []]]; auto.
        - destruct H as [<- | H]; auto. }
      destruct H' as [-> | H'].
      * split; [constructor | exists (c :: s); reflexivity].
      * apply in_map_iff in H'. destruct H' as (m' & <- & Hin).
        destruct (IH m' Hin) as [Hall [rest ->]].
        split; [constructor; assumption | exists rest; reflexivity].
    + destruct H as [<- | []].
      split; [constructor | exists (c :: s); reflexivity].
Qed.

Lemma attempts_Chars_inv :
  forall l prev s m caps,
    In (m, caps) (attempts (Chars l) prev s) ->
    m = l /\ caps = [] /\ exists rest, s = l ++ rest.
Proof.
  intros l prev s m caps H. simpl in H.
  destruct (startsWith l s) eqn:E; [| destruct H].
  destruct H as [H | []]. injection H as <- <-.
  repeat split. apply startsWith_app. assumption.
Qed.

Lemma attempts_Bol_inv :
  forall prev s m caps,
    In (m, caps) (attempts Bol prev s) ->
    m = [] /\ caps = [] /\
    (prev = None \/ exists c, prev = Some c /\ isLineTerminator c = true).
Proof.
  intros prev s m caps H. simpl in H. destruct prev as [c |].
  - destruct (isLineTerminator c) eqn:E; [| destruct H].
    destruct H as [H | []]. injection H as <- <-.
    repeat split. right. exists c. split; [reflexivity | assumption].
  - destruct H as [H | []]. injection H as <- <-. repeat split. left. reflexivity.
Qed.

Lemma attempts_Eol_inv :
  forall prev s m caps,
    In (m, caps) (attempts Eol prev s) ->
    m = [] /\ caps = [] /\
    (s = [] \/ exists c s', s = c :: s' /\ isLineTerminator c = true).
Proof.
  intros prev s m caps H. simpl in H. destruct s as [| c s'].
  - destruct H as [H | []]. injection H as <- <-. repeat split. left. reflexivity.
  - destruct (isLineTerminator c) eqn:E; [| destruct H].
    destruct H as [H | []]. injection H as <- <-.
    repeat split. right. exists c, s'. split; [reflexivity | assumption].
Qed.

Lemma attempts_Rep_inv :
  forall greedy least cl prev s m caps,
    In (m, caps) (attempts (Rep greedy least cl) prev s) ->
    caps = [] /\ least <= length m /\
    Forall (fun c => cmatch cl c = true) m /\ exists rest, s = m ++ rest.
Proof.
  intros greedy least cl prev s m caps H. simpl in H.
  apply in_map_iff in H. destruct H as (run & E & Hin).
  injection E as <- <-.
  apply filter_In in Hin. destruct Hin as [Hin Hle].
  apply Nat.leb_le in Hle.
  destruct (runs_inv _ _ _ _ Hin) as [Hall Hrest].
  repeat split; assumption.
Qed.

Lemma attempts_Grp_inv :
  forall r prev s m caps,
    In (m, caps) (attempts (Grp r) prev s) ->
    exists inner, caps = m :: inner /\ In (m, inner) (attempts r prev s).
Proof.
  intros r prev s m caps H. simpl in H.
  apply in_map_iff in H. destruct H as ([m' inner] & E & Hin).
  simpl in E. injection E as <- <-. exists inner. split; [reflexivity | assumption].
Qed.

Lemma attempts_Cat_inv :
  forall r1 r2 prev s m caps,
    In (m, caps) (attempts (r1 >> r2) prev s) ->
    exists m1 caps1 m2 caps2,
      m = m1 ++ m2 /\ caps = caps1 ++ caps2 /\
      In (m1, caps1) (attempts r1 prev s) /\
      In (m2, caps2) (attempts r2 (lastOr prev m1) (skipn (length m1) s)).
Proof.
  intros r1 r2 prev s m caps H. simpl in H.
  apply in_flat_map in H. destruct H as ([m1 caps1] & H1 & H2).
  apply in_map_iff in H2. destruct H2 as ([m2 caps2] & E & H2).
  simpl in E, H2. injection E as <- <-.
  exists m1, caps1, m2, caps2. repeat split; assumption.
Qed.

(** What a match consumes is a prefix of the input. *)
Lemma attempts_prefix :
  forall r prev s m caps,
    In (m, caps) (attempts r prev s) -> exists rest, s = m ++ rest.
Proof.
  induction r as [l | | | greedy least cl | r IH | r1 IH1 r2 IH2];
    intros prev s m caps H.
  - apply attempts_Chars_inv in H. destruct H as (-> & _ & H). exact H.
  - apply attempts_Bol_inv in H. destruct H as (-> & _ & _). exists s. reflexivity.
  - apply attempts_Eol_inv in H. destruct H as (-> & _ & _). exists s. reflexivity.
  - apply attempts_Rep_inv in H. destruct H as (_ & _ & _ & H). exact H.
  - apply attempts_Grp_inv in H. destruct H as (inner & _ & H). eapply IH; eassumption.
  - apply attempts_Cat_inv in H.
    destruct H as (m1 & caps1 & m2 & caps2 & -> & _ & H1 & H2).
    destruct (IH1 _ _ _ _ H1) as [rest1 ->].
    rewrite skipn_length_app in H2.
    destruct (IH2 _ _ _ _ H2) as [rest2 ->].
    exists rest2. rewrite app_assoc. reflexivity.
Qed.

Lemma exec_In :
  forall r prev s a, exec r prev s = Some a -> In a (attempts r prev s).
Proof.
  intros r prev s a H. unfold exec in H.
  destruct (attempts r prev s) as [| a' l]; [discriminate |].
  injection H as ->. left. reflexivity.
Qed.

(** ** The global replacement *)

Section Replace.

Variable r : regex.
Variable tmpl : list piece.

Lemma replaceFrom_skip :
  forall m rest prev,
    replaceFrom r tmpl (length m) prev (m ++ rest) =
    replaceFrom r tmpl 0 (lastOr prev m) rest.
Proof.
  induction m as [| c m IH]; intros rest prev.
  - reflexivity.
  - simpl length. simpl app. cbn [replaceFrom]. rewrite IH, lastOr_cons.
    reflexivity.
Qed.

Lemma replaceFrom_match :
  forall prev s m caps rest,
    exec r prev s = Some (m, caps) -> m <> [] -> s = m ++ rest ->
    replaceFrom r tmpl 0 prev s =
    expand tmpl caps ++ replaceFrom r tmpl 0 (lastOr prev m) rest.
Proof.
  intros prev s m caps rest He Hm ->.
  destruct m as [| c m]; [contradiction |].
  simpl app. cbn [replaceFrom]. simpl app in He. rewrite He.
  rewrite replaceFrom_skip, lastOr_cons. reflexivity.
Qed.

Lemma replaceFrom_nomatch :
  forall prev c s,
    exec r prev (c :: s) = None ->
    replaceFrom r tmpl 0 prev (c :: s) = c :: replaceFrom r tmpl 0 (Some c) s.
Proof.
  intros prev c s He. cbn [replaceFrom]. rewrite He. reflexivity.
Qed.

(** A stretch of input in which no match starts is copied. *)
Lemma replaceFrom_copies :
  forall a b prev,
    (forall a1 c a2, a = a1 ++ c :: a2 ->
                     exec r (lastOr prev a1) (c :: a2 ++ b) = None) ->
    replaceFrom r tmpl 0 prev (a ++ b) =
    a ++ replaceFrom r tmpl 0 (lastOr prev a) b.
Proof.
  induction a as [| c a IH]; intros b prev H.
  - reflexivity.
  - simpl app. rewrite replaceFrom_nomatch.
    + rewrite IH.
      * rewrite lastOr_cons. reflexivity.
      * intros a1 c' a2 E. rewrite <- lastOr_cons with (prev := prev).
        apply (H (c :: a1) c' a2). rewrite E. reflexivity.
    + apply (H [] c a). reflexivity.
Qed.

(** Where no match starts, a replacement changes nothing. *)
Lemma replaceFrom_without_match :
  forall s prev,
    (forall prev, exec r prev [] = None) ->
    (forall prev c t, In c s -> exec r prev (c :: t) = None) ->
    replaceFrom r tmpl 0 prev s = s.
Proof.
  intros s prev Hnil H. revert prev.
  induction s as [| c s IH]; intros prev.
  - cbn [replaceFrom]. rewrite Hnil. reflexivity.
  - rewrite replaceFrom_nomatch by (apply H; left; reflexivity).
    rewrite IH; [reflexivity |].
    intros prev' c' t Hin. apply H. right. exact Hin.
Qed.

Lemma replaceAll_without_match :
  forall s,
    (forall prev, exec r prev [] = None) ->
    (forall prev c t, In c s -> exec r prev (c :: t) = None) ->
    replaceAll r tmpl s = s.
Proof.
  intros s Hnil H. apply replaceFrom_without_match; assumption.
Qed.

End Replace.

(** ** Text that a replacement leaves in place

    A token without delimiter characters survives an edit, and a
    character that is neither before the token nor in a tag does not
    appear before it afterwards. *)

Section Keeps.

Variable T : jsstring.
Variable X : N.

Lemma edits_after_drop : forall b s s', edits T X b s s' -> edits T X true s s'.
Proof.
  intros b s s' H. induction H.
  - constructor.
  - constructor. assumption.
  - apply edits_drop; assumption.
  - apply edits_put; [assumption | left; reflexivity | assumption].
Qed.

Lemma edits_drops :
  forall d b s s',
    (forall c, In c d -> ~ In c T) -> d <> [] \/ b = true ->
    edits T X true s s' -> edits T X b (d ++ s) s'.
Proof.
  induction d as [| c d IH]; intros b s s' Hd Hb H.
  - destruct Hb as [Hb | ->]; [contradiction | exact H].
  - simpl app. apply edits_drop.
    + apply Hd. left. reflexivity.
    + apply IH; [| right; reflexivity | exact H].
      intros c' Hc'. apply Hd. right. assumption.
Qed.

Lemma edits_puts :
  forall t b s s',
    ~ In X t ->
    (b = true \/ s = [] \/ exists d s0, s = d :: s0 /\ ~ In d T) ->
    edits T X b s s' -> edits T X b s (t ++ s').
Proof.
  induction t as [| c t IH]; intros b s s' Ht Hb H.
  - exact H.
  - simpl app. apply edits_put; [| exact Hb |].
    + intros ->. apply Ht. left. reflexivity.
    + apply IH; [| exact Hb | exact H].
      intros Hin. apply Ht. right. assumption.
Qed.

Lemma edits_copies :
  forall cap b s s',
    edits T X (match cap with [] => b | _ :: _ => false end) s s' ->
    edits T X b (cap ++ s) (cap ++ s').
Proof.
  induction cap as [| c cap IH]; intros b s s' H.
  - exact H.
  - simpl app. apply edits_copy. apply IH.
    destruct cap; exact H.
Qed.

(** Inside the token nothing is dropped and nothing is put. *)
Lemma edits_inside_token :
  forall T2 post s',
    (forall c, In c T2 -> In c T) ->
    edits T X false (T2 ++ post) s' -> exists post', s' = T2 ++ post'.
Proof.
  induction T2 as [| d T2 IH]; intros post s' Hsub H.
  - exists s'. reflexivity.
  - assert (Hd : In d T) by (apply Hsub; left; reflexivity).
    inversion H as [| b0 c0 s0 s1 H0 | b0 c0 s0 s1 Hc H0 | b0 c0 s0 s1 Hc Hb H0];
      subst.
    + destruct (IH post s1) as [post' ->].
      * intros c Hc. apply Hsub. right. assumption.
      * exact H0.
      * exists post'. reflexivity.
    + contradiction.
    + exfalso. destruct Hb as [Hb | [Hb | (d0 & s2 & Hb & Hn)]].
      * discriminate Hb.
      * discriminate Hb.
      * simpl in Hb. injection Hb as <- <-. contradiction.
Qed.

Lemma edits_keeps :
  forall b s s',
    edits T X b s s' ->
    forall pre post,
      s = pre ++ T ++ post -> ~ In X pre ->
      exists pre' post', s' = pre' ++ T ++ post' /\ ~ In X pre'.
Proof.
  intros b s s' H.
  induction H as [b | b c s s' H IH | b c s s' Hc H IH | b c s s' Hc Hb H IH];
    intros pre post Es Hpre.
  - symmetry in Es. apply app_eq_nil in Es. destruct Es as [-> Es].
    apply app_eq_nil in Es. destruct Es as [-> ->].
    exists [], []. split; [reflexivity | exact Hpre].
  - destruct pre as [| p pre].
    + simpl in Es. destruct (nil_or_cons T) as [ET | (t & T2 & ET)].
      * exists [], (c :: s'). rewrite ET. split; [reflexivity | exact Hpre].
      * rewrite ET in Es. simpl in Es. injection Es as -> ->.
        destruct (edits_inside_token T2 post) with (s' := s') as [post' ->].
        -- intros c Hc. rewrite ET. right. assumption.
        -- exact H.
        -- exists [], post'. rewrite ET. split; [reflexivity | exact Hpre].
    + simpl in Es. injection Es as -> ->.
      destruct (IH pre post eq_refl) as (pre' & post' & -> & Hpre').
      * intros Hin. apply Hpre. right. assumption.
      * exists (p :: pre'), post'. split; [reflexivity |].
        intros [E | Hin]; [| contradiction].
        apply Hpre. left. assumption.
  - destruct pre as [| p pre].
    + simpl in Es. destruct (nil_or_cons T) as [ET | (t & T2 & ET)].
      * exists [], s'. rewrite ET. split; [reflexivity | exact Hpre].
      * rewrite ET in Es. simpl in Es. injection Es as -> ->.
        exfalso. apply Hc. rewrite ET. left. reflexivity.
    + simpl in Es. injection Es as -> ->.
      apply (IH pre post eq_refl).
      intros Hin. apply Hpre. right. assumption.
  - destruct (IH pre post Es Hpre) as (pre' & post' & -> & Hpre').
    exists (c :: pre'), post'. split; [reflexivity |].
    intros [E | Hin]; [| contradiction]. apply Hc. assumption.
Qed.

Variable r : regex.
Variable tmpl : list piece.

Hypothesis Hsandwich : sandwich T X r tmpl.

Lemma replaceFrom_edits :
  forall n s prev,
    length s <= n -> edits T X false s (replaceFrom r tmpl 0 prev s).
Proof.
  induction n as [| n IH]; intros s prev Hlen.
  - destruct s; [| simpl in Hlen; lia].
    cbn [replaceFrom]. destruct (exec r prev []) as [[m caps] |] eqn:He.
    + destruct (Hsandwich _ _ _ _ He)
        as (d1 & cap & d2 & t1 & t2 & rest & Es & Em & _ & Hd1 & _).
      subst m. destruct d1; [contradiction | discriminate Es].
    + constructor.
  - destruct (exec r prev s) as [[m caps] |] eqn:He.
    + destruct (Hsandwich _ _ _ _ He)
        as (d1 & cap & d2 & t1 & t2 & rest & Es & Em & Ex & Hd1 & Hn1 & Hn2
            & Ht1 & Ht2 & Hb).
      assert (Hm : m <> []).
      { subst m. destruct d1; [contradiction | discriminate]. }
      rewrite (replaceFrom_match r tmpl prev s m caps rest He Hm Es), Ex.
      assert (Hrest : length rest <= n).
      { subst s m. rewrite !length_app in Hlen.
        destruct d1; [contradiction |]. simpl in Hlen. lia. }
      specialize (IH rest (lastOr prev m) Hrest).
      clear He Hm Hlen. subst s m. rewrite <- !app_assoc.
      apply edits_drops; [exact Hn1 | left; exact Hd1 |].
      apply edits_puts; [exact Ht1 | left; reflexivity |].
      apply edits_copies.
      destruct d2 as [| x d2].
      * simpl app. destruct cap as [| y cap].
        -- apply edits_puts; [exact Ht2 | left; reflexivity |].
           apply edits_after_drop with (b := false). exact IH.
        -- apply edits_puts; [exact Ht2 | | exact IH].
           destruct Hb as [Hb | [Hb | Hb]];
             [contradiction | discriminate | right; exact Hb].
      * apply edits_drops; [exact Hn2 | left; discriminate |].
        apply edits_puts; [exact Ht2 | left; reflexivity |].
        apply edits_after_drop with (b := false). exact IH.
    + destruct s as [| c s].
      * cbn [replaceFrom]. rewrite He. constructor.
      * rewrite (replaceFrom_nomatch r tmpl prev c s He).
        apply edits_copy. apply IH. simpl in Hlen. lia.
Qed.

Theorem replaceAll_keeps :
  forall pre post,
    ~ In X pre ->
    exists pre' post',
      replaceAll r tmpl (pre ++ T ++ post) = pre' ++ T ++ post' /\
      ~ In X pre'.
Proof.
  intros pre post Hpre.
  apply (edits_keeps _ _ _ (replaceFrom_edits _ _ None (le_n _))
                     pre post eq_refl Hpre).
Qed.

End Keeps.

(** ** The patterns of [markdownToHtml] *)

Ltac cat_inv H m1 c1 m2 c2 H1 H2 :=
  apply attempts_Cat_inv in H;
  destruct H as (m1 & c1 & m2 & c2 & -> & -> & H1 & H2).

Ltac chars_inv H rest :=
  apply attempts_Chars_inv in H;
  destruct H as (-> & -> & rest & ->).

Lemma sandwich_bold :
  forall T : jsstring,
    ~ In 42%N T -> sandwich T 91 Reader.bold (Reader.tagged "strong").
Proof.
  intros T Hstar prev s m caps He.
  apply exec_In in He. unfold Reader.bold in He.
  cat_inv He m1 c1 m2 c2 H1 H2. chars_inv H1 rest1.
  rewrite skipn_length_app in H2.
  cat_inv H2 m3 c3 m4 c4 H3 H4. chars_inv H3 rest3.
  rewrite skipn_length_app in H4.
  cat_inv H4 m5 c5 m6 c6 H5 H6.
  apply attempts_Grp_inv in H5. destruct H5 as (inner & -> & H5).
  apply attempts_Rep_inv in H5. destruct H5 as (-> & _ & Hrun & rest5 & ->).
  rewrite skipn_length_app in H6.
  cat_inv H6 m7 c7 m8 c8 H7 H8. chars_inv H7 rest7.
  rewrite skipn_length_app in H8. chars_inv H8 rest8.
  exists (lit "**"), m5, (lit "**"), (lit "<strong>"), (lit "</strong>"), rest8.
  split; [cbn; rewrite <- ?app_assoc; reflexivity |].
  split; [reflexivity |].
  split; [cbn; rewrite ?app_nil_r; reflexivity |].
  split; [discriminate |].
  assert (Hd : forall c, In c (lit "**") -> ~ In c T).
  { intros c [<- | [<- | []]]; exact Hstar. }
  split; [exact Hd |]. split; [exact Hd |].
  split; [cbn; intuition discriminate |].
  split; [cbn; intuition discriminate |].
  left. discriminate.
Qed.

Lemma sandwich_italic :
  forall T : jsstring,
    ~ In 42%N T -> sandwich T 91 Reader.italic (Reader.tagged "em").
Proof.
  intros T Hstar prev s m caps He.
  apply exec_In in He. unfold Reader.italic in He.
  cat_inv He m1 c1 m2 c2 H1 H2. chars_inv H1 rest1.
  rewrite skipn_length_app in H2.
  cat_inv H2 m5 c5 m6 c6 H5 H6.
  apply attempts_Grp_inv in H5. destruct H5 as (inner & -> & H5).
  apply attempts_Rep_inv in H5. destruct H5 as (-> & _ & Hrun & rest5 & ->).
  rewrite skipn_length_app in H6. chars_inv H6 rest6.
  exists (lit "*"), m5, (lit "*"), (lit "<em>"), (lit "</em>"), rest6.
  split; [cbn; rewrite <- ?app_assoc; reflexivity |].
  split; [reflexivity |].
  split; [cbn; rewrite ?app_nil_r; reflexivity |].
  split; [discriminate |].
  assert (Hd : forall c, In c (lit "*") -> ~ In c T).
  { intros c [<- | []]; exact Hstar. }
  split; [exact Hd |]. split; [exact Hd |].
  split; [cbn; intuition discriminate |].
  split; [cbn; intuition discriminate |].
  left. discriminate.
Qed.

Lemma sandwich_paragraph_break :
  forall T : jsstring,
    ~ In 10%N T ->
    sandwich T 91 (Reader.newline >> Reader.newline) [Txt (lit "</p><p>")].
Proof.
  intros T Hnl prev s m caps He.
  apply exec_In in He. unfold Reader.newline in He.
  cat_inv He m1 c1 m2 c2 H1 H2. chars_inv H1 rest1.
  rewrite skipn_length_app in H2. chars_inv H2 rest2.
  exists [10%N; 10%N], [], [], (lit "</p><p>"), [], rest2.
  split; [reflexivity |].
  split; [reflexivity |].
  split; [reflexivity |].
  split; [discriminate |].
  split; [intros c [<- | [<- | []]]; exact Hnl |].
  split; [intros c [] |].
  split; [cbn; intuition discriminate |].
  split; [intros [] |].
  right. left. reflexivity.
Qed.

Lemma sandwich_line_break :
  forall T : jsstring,
    ~ In 10%N T -> sandwich T 91 Reader.newline [Txt (lit "<br>")].
Proof.
  intros T Hnl prev s m caps He.
  apply exec_In in He. unfold Reader.newline in He.
  chars_inv He rest1.
  exists [10%N], [], [], (lit "<br>"), [], rest1.
  split; [reflexivity |].
  split; [reflexivity |].
  split; [reflexivity |].
  split; [discriminate |].
  split; [intros c [<- | []]; exact Hnl |].
  split; [intros c [] |].
  split; [cbn; intuition discriminate |].
  split; [intros [] |].
  right. left. reflexivity.
Qed.

(** A pattern that begins with a literal character matches only where
    that character is. *)
Lemma exec_Chars_head :
  forall x l r prev c s,
    c <> x -> exec (Chars (x :: l) >> r) prev (c :: s) = None.
Proof.
  intros x l r prev c s Hc. unfold exec. cbn [attempts startsWith].
  destruct (N.eqb_spec x c) as [E | E]; [congruence |]. reflexivity.
Qed.

Lemma exec_Chars_second :
  forall x y l r prev c d s,
    d <> y -> exec (Chars [x] >> Chars (y :: l) >> r) prev (c :: d :: s) = None.
Proof.
  intros x y l r prev c d s Hd. unfold exec. cbn [attempts startsWith].
  destruct (N.eqb x c); [| reflexivity].
  cbn [andb flat_map fst snd length skipn app map startsWith].
  destruct (N.eqb_spec y d) as [E | E]; [congruence |]. reflexivity.
Qed.

(** At the link token the link pattern matches the token itself. *)
Lemma exec_link_token :
  forall prev post,
    exec Reader.link prev (linkToken ++ post) =
    Some (linkToken, [lit "x"; lit "http://a"]).
Proof.
  intros prev post. vm_compute. reflexivity.
Qed.

Lemma markdownToHtml_cons :
  forall c m,
    Reader.markdownToHtml (Some (c :: m)) =
    lit "<p>" ++
    replaceAll Reader.newline [Txt (lit "<br>")]
      (replaceAll (Reader.newline >> Reader.newline) [Txt (lit "</p><p>")]
        (replaceAll Reader.image Reader.imageTemplate
          (replaceAll Reader.link Reader.anchorTemplate
            (replaceAll Reader.italic (Reader.tagged "em")
              (replaceAll Reader.bold (Reader.tagged "strong")
                (replaceAll (Reader.header "# ") (Reader.tagged "h1")
                  (replaceAll (Reader.header "## ") (Reader.tagged "h2")
                    (replaceAll (Reader.header "### ") (Reader.tagged "h3")
                                (c :: m))))))))) ++
    lit "</p>".
Proof. reflexivity. Qed.

Lemma not_In_by_existsb :
  forall (c : N) (l : jsstring), existsb (N.eqb c) l = false -> ~ In c l.
Proof.
  intros c l H Hin.
  assert (E : existsb (N.eqb c) l = true).
  { apply existsb_exists. exists c. split; [exact Hin | apply N.eqb_refl]. }
  rewrite E in H. discriminate.
Qed.

Lemma lineTerminator_not_in_linkToken :
  forall c, isLineTerminator c = true -> ~ In c linkToken.
Proof.
  intros c Hc Hin. vm_compute in Hin.
  repeat (destruct Hin as [<- | Hin]; [discriminate Hc |]). exact Hin.
Qed.

(** ** The removal loops *)

Section Removal.

Variable tag : jsstring.

Lemma removeNthNode_Element :
  forall i t a ch,
    removeNthNode tag i (Element t a ch) =
    if jseqb t tag then
      match i with
      | O => []
      | S j => [Element t a (removeNth tag j ch)]
      end
    else [Element t a (removeNth tag i ch)].
Proof. reflexivity. Qed.

Lemma countForest_cons :
  forall x f, countForest tag (x :: f) = countNode tag x + countForest tag f.
Proof. reflexivity. Qed.

Lemma countForest_app :
  forall f g, countForest tag (f ++ g) = countForest tag f + countForest tag g.
Proof.
  intros f g. unfold countForest. rewrite map_app, list_sum_app. reflexivity.
Qed.

Lemma countNode_Element :
  forall t a ch,
    countNode tag (Element t a ch) =
    (if jseqb t tag then 1 else 0) + countForest tag ch.
Proof. reflexivity. Qed.

Lemma removeNth_cons :
  forall i x r,
    removeNth tag i (x :: r) =
    if Nat.ltb i (countNode tag x)
    then removeNthNode tag i x ++ r
    else x :: removeNth tag (i - countNode tag x) r.
Proof. reflexivity. Qed.

(** Detaching the last element of the collection shortens it by one:
    the last element has no element of the collection below it. *)
Lemma removeNth_last_forest :
  forall f,
    Forall (fun n => forall k, countNode tag n = S k ->
                               countForest tag (removeNthNode tag k n) = k) f ->
    forall k, countForest tag f = S k ->
              countForest tag (removeNth tag k f) = k.
Proof.
  induction f as [| x r IH]; intros Hall k Hk.
  - discriminate Hk.
  - inversion Hall as [| x' r' Hx Hr]; subst.
    rewrite countForest_cons in Hk. rewrite removeNth_cons.
    destruct (Nat.ltb_spec k (countNode tag x)) as [Hlt | Hge].
    + rewrite countForest_app, (Hx k) by lia. lia.
    + rewrite countForest_cons.
      rewrite (IH Hr (k - countNode tag x)) by lia. lia.
Qed.

Lemma removeNth_last_node :
  forall n k, countNode tag n = S k ->
              countForest tag (removeNthNode tag k n) = k.
Proof.
  induction n as [t a ch IH | d | d] using Node_forall_ind; intros k Hk;
    try discriminate Hk.
  rewrite countNode_Element in Hk. rewrite removeNthNode_Element.
  destruct (jseqb t tag) eqn:Et; cbn [Nat.add] in Hk.
  - destruct k as [| j]; [reflexivity |].
    rewrite countForest_cons, countNode_Element, Et.
    assert (Hj : countForest tag ch = S j) by lia.
    rewrite (removeNth_last_forest ch IH j Hj).
    change (countForest tag []) with 0. lia.
  - rewrite countForest_cons, countNode_Element, Et.
    rewrite (removeNth_last_forest ch IH k Hk).
    change (countForest tag []) with 0. lia.
Qed.

Lemma removeNth_last :
  forall f k, countForest tag f = S k ->
              countForest tag (removeNth tag k f) = k.
Proof.
  intros f. apply removeNth_last_forest.
  apply Forall_forall. intros n _. apply removeNth_last_node.
Qed.

Lemma prune_cons :
  forall x f, prune tag (x :: f) = pruneNode tag x ++ prune tag f.
Proof. reflexivity. Qed.

Lemma prune_app :
  forall f g, prune tag (f ++ g) = prune tag f ++ prune tag g.
Proof. intros f g. unfold prune. apply flat_map_app. Qed.

Lemma pruneNode_Element :
  forall t a ch,
    pruneNode tag (Element t a ch) =
    if jseqb t tag then [] else [Element t a (prune tag ch)].
Proof. reflexivity. Qed.

(** Detaching an element of the collection does not change what is
    left once all of them are gone. *)
Lemma prune_removeNth_forest :
  forall f,
    Forall (fun n => forall i, i < countNode tag n ->
                               prune tag (removeNthNode tag i n) =
                               pruneNode tag n) f ->
    forall i, i < countForest tag f ->
              prune tag (removeNth tag i f) = prune tag f.
Proof.
  induction f as [| x r IH]; intros Hall i Hi.
  - change (countForest tag []) with 0 in Hi. lia.
  - inversion Hall as [| x' r' Hx Hr]; subst.
    rewrite countForest_cons in Hi. rewrite removeNth_cons, prune_cons.
    destruct (Nat.ltb_spec i (countNode tag x)) as [Hlt | Hge].
    + rewrite prune_app, (Hx i Hlt). reflexivity.
    + rewrite prune_cons, (IH Hr) by lia. reflexivity.
Qed.

Lemma prune_removeNth_node :
  forall n i, i < countNode tag n ->
              prune tag (removeNthNode tag i n) = pruneNode tag n.
Proof.
  induction n as [t a ch IH | d | d] using Node_forall_ind; intros i Hi;
    try (simpl in Hi; lia).
  rewrite countNode_Element in Hi.
  rewrite removeNthNode_Element, pruneNode_Element.
  destruct (jseqb t tag) eqn:Et; cbn [Nat.add] in Hi.
  - destruct i as [| j]; [reflexivity |].
    rewrite prune_cons, pruneNode_Element, Et. reflexivity.
  - rewrite prune_cons, pruneNode_Element, Et.
    rewrite (prune_removeNth_forest ch IH i) by lia.
    reflexivity.
Qed.

Lemma prune_removeNth :
  forall f i, i < countForest tag f ->
              prune tag (removeNth tag i f) = prune tag f.
Proof.
  intros f. apply prune_removeNth_forest.
  apply Forall_forall. intros n _. apply prune_removeNth_node.
Qed.

(** Without an element of the collection there is nothing to prune. *)
Lemma prune_nothing_node :
  forall n, countNode tag n = 0 -> pruneNode tag n = [n].
Proof.
  induction n as [t a ch IH | d | d] using Node_forall_ind; intros Hn;
    try reflexivity.
  rewrite countNode_Element in Hn. rewrite pruneNode_Element.
  destruct (jseqb t tag); [cbn [Nat.add] in Hn; lia |].
  cbn [Nat.add] in Hn. f_equal. f_equal.
  induction ch as [| x r IHr]; [reflexivity |].
  inversion IH as [| x' r' Hx Hr]; subst.
  rewrite countForest_cons in Hn.
  rewrite prune_cons, Hx, IHr by (assumption || lia). reflexivity.
Qed.

Lemma prune_nothing :
  forall f, countForest tag f = 0 -> prune tag f = f.
Proof.
  induction f as [| x r IH]; intros Hf; [reflexivity |].
  rewrite countForest_cons in Hf.
  rewrite prune_cons, prune_nothing_node, IH by lia. reflexivity.
Qed.

(** The loop over the live collection removes every element named
    [tag], and nothing else. *)
Lemma removeLoop_prune :
  forall k f, countForest tag f = k -> removeLoop tag k f = prune tag f.
Proof.
  induction k as [| k IH]; intros f Hf.
  - simpl. symmetry. apply prune_nothing. exact Hf.
  - simpl. rewrite IH by (apply removeNth_last; exact Hf).
    apply prune_removeNth. lia.
Qed.

Lemma removeByTagName_prune :
  forall f, removeByTagName tag f = prune tag f.
Proof. intros f. apply removeLoop_prune. reflexivity. Qed.

End Removal.

Lemma countForest_nil : forall a, countForest a [] = 0.
Proof. reflexivity. Qed.

Lemma countForest_prune_forest :
  forall a b (R : nat -> nat -> Prop),
    R 0 0 ->
    (forall x y u v, R x y -> R u v -> R (x + u) (y + v)) ->
    forall f,
      Forall (fun n => R (countForest a (pruneNode b n)) (countNode a n)) f ->
      R (countForest a (prune b f)) (countForest a f).
Proof.
  intros a b R R0 Radd. induction f as [| x r IH]; intros Hall.
  - exact R0.
  - inversion Hall as [| x' r' Hx Hr]; subst.
    rewrite prune_cons, countForest_app, countForest_cons.
    apply Radd; [exact Hx | apply IH; exact Hr].
Qed.

(** Pruning one name does not add elements of another. *)
Lemma countForest_prune_le :
  forall a b f, countForest a (prune b f) <= countForest a f.
Proof.
  intros a b f.
  apply (countForest_prune_forest a b le); [lia | intros; lia |].
  apply Forall_forall. intros n _.
  induction n as [t at' ch IH | d | d] using Node_forall_ind;
    try (cbn; rewrite ?countForest_nil; unfold countForest; cbn; lia).
  rewrite pruneNode_Element, countNode_Element.
  destruct (jseqb t b).
  - rewrite countForest_nil. lia.
  - rewrite countForest_cons, countNode_Element, countForest_nil.
    pose proof (countForest_prune_forest a b le (le_n 0)
                  ltac:(intros; lia) ch IH).
    lia.
Qed.

Lemma countForest_prune_same :
  forall a f, countForest a (prune a f) = 0.
Proof.
  intros a f.
  apply (countForest_prune_forest a a (fun x _ => x = 0));
    [reflexivity | intros x y u v -> ->; reflexivity |].
  apply Forall_forall. intros n _.
  induction n as [t at' ch IH | d | d] using Node_forall_ind;
    try reflexivity.
  rewrite pruneNode_Element.
  destruct (jseqb t a) eqn:Et; [reflexivity |].
  rewrite countForest_cons, countNode_Element, Et, countForest_nil.
  pose proof (countForest_prune_forest a a (fun x _ => x = 0) eq_refl
                ltac:(intros x y u v -> ->; reflexivity) ch IH) as H.
  cbn beta in H. rewrite H. reflexivity.
Qed.

(** The two loops of [parseContent] on a tree. *)
Lemma strip_idempotent :
  forall f, strip (strip f) = strip f.
Proof.
  intros f. unfold strip. rewrite !removeByTagName_prune.
  set (g := prune (lit "style") (prune (lit "script") f)).
  assert (Hscript : countForest (lit "script") g = 0).
  { pose proof (countForest_prune_le (lit "script") (lit "style")
                  (prune (lit "script") f)) as H.
    rewrite countForest_prune_same in H. subst g. lia. }
  rewrite (prune_nothing _ _ Hscript).
  apply prune_nothing. subst g. apply countForest_prune_same.
Qed.

(** ** Joined text nodes *)

Lemma countForest_joinText :
  forall tag f, countForest tag (joinText f) = countForest tag f.
Proof.
  intros tag. induction f as [| n f IH]; [reflexivity |].
  destruct n as [t a ch | d | d].
  - cbn [joinText]. rewrite !countForest_cons, IH. reflexivity.
  - cbn [joinText]. rewrite countForest_cons. cbn [countNode].
    rewrite <- IH.
    destruct d as [| c d]; [reflexivity |].
    destruct (joinText f) as [| [t a ch | b | b] rest']; reflexivity.
  - cbn [joinText]. rewrite !countForest_cons, IH. reflexivity.
Qed.

Lemma countNode_normalizeNode :
  forall tag n, countNode tag (normalizeNode n) = countNode tag n.
Proof.
  intros tag.
  induction n as [t a ch IH | d | d] using Node_forall_ind;
    try reflexivity.
  cbn [normalizeNode]. rewrite !countNode_Element. f_equal.
  rewrite countForest_joinText.
  induction IH as [| x r Hx _ IHr]; [reflexivity |].
  cbn [map]. rewrite !countForest_cons, Hx, IHr. reflexivity.
Qed.

Lemma countForest_normalize :
  forall tag f, countForest tag (normalize f) = countForest tag f.
Proof.
  intros tag f. unfold normalize. rewrite countForest_joinText.
  induction f as [| x r IH]; [reflexivity |].
  cbn [map]. rewrite !countForest_cons, countNode_normalizeNode, IH.
  reflexivity.
Qed.

(** On a tree without script and style elements the two loops do not
    run. *)
Lemma strip_nothing :
  forall f,
    countForest (lit "script") f = 0 -> countForest (lit "style") f = 0 ->
    strip f = f.
Proof.
  intros f H1 H2. unfold strip, removeByTagName.
  rewrite H1. cbn [removeLoop]. rewrite H2. reflexivity.
Qed.

(** After the two loops no script and no style element is left. *)
Lemma strip_clean :
  forall f,
    countForest (lit "script") (strip f) = 0 /\
    countForest (lit "style") (strip f) = 0.
Proof.
  intros f. unfold strip. rewrite !removeByTagName_prune. split.
  - pose proof (countForest_prune_le (lit "script") (lit "style")
                  (prune (lit "script") f)) as H.
    rewrite countForest_prune_same in H. lia.
  - apply countForest_prune_same.
Qed.

(** ** The search history *)

Lemma jseqb_eq : forall a b, jseqb a b = true <-> a = b.
Proof.
  intros a b. unfold jseqb.
  destruct (list_eq_dec N.eq_dec a b); split; congruence.
Qed.

Lemma NoDup_map_filter :
  forall (A B : Type) (f : A -> B) (p : A -> bool) (l : list A),
    NoDup (map f l) -> NoDup (map f (filter p l)).
Proof.
  intros A B f p. induction l as [| x l IH]; intros H; simpl.
  - constructor.
  - simpl in H. inversion H as [| y m Hnotin Hnd]; subst.
    destruct (p x); [| apply IH; exact Hnd].
    simpl. constructor; [| apply IH; exact Hnd].
    intros Hin. apply Hnotin.
    apply in_map_iff in Hin. destruct Hin as (z & Ez & Hz).
    apply filter_In in Hz. destruct Hz as [Hz _].
    apply in_map_iff. exists z. split; assumption.
Qed.

Lemma In_firstn :
  forall (A : Type) (n : nat) (l : list A) (x : A),
    In x (firstn n l) -> In x l.
Proof.
  intros A. induction n as [| n IH]; intros l x H.
  - destruct H.
  - destruct l as [| y l]; [destruct H |].
    simpl in H. destruct H as [-> | H]; [left; reflexivity |].
    right. apply IH. exact H.
Qed.

Lemma NoDup_map_firstn :
  forall (A B : Type) (f : A -> B) (n : nat) (l : list A),
    NoDup (map f l) -> NoDup (map f (firstn n l)).
Proof.
  intros A B f. induction n as [| n IH]; intros l H.
  - constructor.
  - destruct l as [| x l]; [constructor |].
    simpl in *. inversion H as [| y m Hnotin Hnd]; subst.
    constructor; [| apply IH; exact Hnd].
    intros Hin. apply Hnotin.
    apply in_map_iff in Hin. destruct Hin as (z & Ez & Hz).
    apply in_map_iff. exists z. split; [exact Ez |].
    apply (In_firstn _ _ _ _ Hz).
Qed.

Section History.

Variable toLowerCase : jsstring -> jsstring.

Lemma addToSearchHistory_ignored :
  forall st term,
    UI.ignored term = true -> UI.addToSearchHistory toLowerCase st term = st.
Proof.
  intros st term H. unfold UI.addToSearchHistory. rewrite H. reflexivity.
Qed.

Lemma addToSearchHistory_history :
  forall st term,
    UI.ignored term = false ->
    UI.searchHistory (UI.addToSearchHistory toLowerCase st term) =
    firstn UI.maxSearchHistory
      (trim term ::
       filter (fun t => negb (jseqb (toLowerCase t) (toLowerCase (trim term))))
              (UI.searchHistory st)).
Proof.
  intros st term H. unfold UI.addToSearchHistory. rewrite H.
  cbn [UI.searchHistory UI.saveSearchHistory UI.setSearchHistory].
  destruct (Nat.ltb_spec UI.maxSearchHistory
              (length (trim term ::
                 filter (fun t => negb (jseqb (toLowerCase t)
                                              (toLowerCase (trim term))))
                        (UI.searchHistory st)))) as [Hlt | Hge].
  - reflexivity.
  - symmetry. apply firstn_all2. exact Hge.
Qed.

Lemma addToSearchHistory_wellKept :
  forall st term,
    wellKept toLowerCase (UI.searchHistory st) ->
    wellKept toLowerCase
             (UI.searchHistory (UI.addToSearchHistory toLowerCase st term)).
Proof.
  intros st term [Hlen Hnd].
  destruct (UI.ignored term) eqn:Ei.
  - rewrite addToSearchHistory_ignored by exact Ei. split; assumption.
  - rewrite addToSearchHistory_history by exact Ei. split.
    + rewrite length_firstn. apply Nat.le_min_l.
    + apply NoDup_map_firstn. simpl. constructor.
      * intros Hin. apply in_map_iff in Hin. destruct Hin as (z & Ez & Hz).
        apply filter_In in Hz. destruct Hz as [_ Hz].
        apply negb_true_iff in Hz.
        apply jseqb_eq in Ez. rewrite Ez in Hz. discriminate.
      * apply NoDup_map_filter. exact Hnd.
Qed.

Lemma addAll_snoc :
  forall st terms term,
    UI.addAll toLowerCase st (terms ++ [term]) =
    UI.addToSearchHistory toLowerCase (UI.addAll toLowerCase st terms) term.
Proof.
  intros st terms term. unfold UI.addAll. rewrite fold_left_app. reflexivity.
Qed.

Lemma addAll_wellKept :
  forall terms st,
    wellKept toLowerCase (UI.searchHistory st) ->
    wellKept toLowerCase (UI.searchHistory (UI.addAll toLowerCase st terms)).
Proof.
  induction terms as [| term terms IH] using rev_ind; intros st H.
  - exact H.
  - rewrite addAll_snoc. apply addToSearchHistory_wellKept. apply IH. exact H.
Qed.

Lemma lastAdded_snoc :
  forall terms term,
    lastAdded (terms ++ [term]) =
    if UI.ignored term then lastAdded terms else Some term.
Proof.
  intros terms term. unfold lastAdded. rewrite rev_app_distr. simpl.
  destruct (UI.ignored term); reflexivity.
Qed.

Lemma addAll_most_recent_first :
  forall terms st t,
    lastAdded terms = Some t ->
    hd_error (UI.searchHistory (UI.addAll toLowerCase st terms)) =
    Some (trim t).
Proof.
  induction terms as [| term terms IH] using rev_ind; intros st t H.
  - discriminate H.
  - rewrite lastAdded_snoc in H. rewrite addAll_snoc.
    destruct (UI.ignored term) eqn:Ei.
    + rewrite addToSearchHistory_ignored by exact Ei. apply IH. exact H.
    + injection H as <-. rewrite addToSearchHistory_history by exact Ei.
      reflexivity.
Qed.

End History.

(** ** Blank input *)

Lemma trimStart_nil :
  forall s, trimStart s = [] -> Forall (fun c => isTrimmable c = true) s.
Proof.
  induction s as [| c s IH]; intros H.
  - constructor.
  - simpl in H. destruct (isTrimmable c) eqn:Ec; [| discriminate H].
    constructor; [exact Ec | apply IH; exact H].
Qed.

Lemma trimStart_head :
  forall s c t, trimStart s = c :: t -> isTrimmable c = false.
Proof.
  induction s as [| x s IH]; intros c t H.
  - discriminate H.
  - simpl in H. destruct (isTrimmable x) eqn:Ex.
    + apply (IH c t H).
    + injection H as <- _. exact Ex.
Qed.

Lemma blank_all_trimmable :
  forall s, blank s -> Forall (fun c => isTrimmable c = true) s.
Proof.
  intros s H. unfold blank, trim in H.
  assert (H1 : trimStart (rev (trimStart s)) = []).
  { destruct (trimStart (rev (trimStart s))) as [| c t]; [reflexivity |].
    simpl in H. destruct (rev t); discriminate H. }
  apply trimStart_nil in H1.
  destruct (trimStart s) as [| c t] eqn:E.
  - apply trimStart_nil. exact E.
  - exfalso. apply trimStart_head in E.
    rewrite Forall_forall in H1. rewrite (H1 c) in E; [discriminate E |].
    apply in_rev. rewrite rev_involutive. left. reflexivity.
Qed.

Lemma exec_Bol_Chars_head :
  forall x l r prev c s,
    c <> x -> exec (Bol >> Chars (x :: l) >> r) prev (c :: s) = None.
Proof.
  intros x l r prev c s Hc. unfold exec. cbn [attempts startsWith].
  assert (E : N.eqb x c = false) by (apply N.eqb_neq; congruence).
  destruct prev as [p |]; [destruct (isLineTerminator p) |];
    cbn [flat_map fst snd length skipn app map lastOr rev];
    rewrite ?E; reflexivity.
Qed.

(** The first character after a replacement by markup: the first
    character of the markup or the first character of the input. *)
Lemma replaceAll_markup_head :
  forall r markup c t,
    exists c' t',
      replaceAll r [Txt (60%N :: markup)] (c :: t) = c' :: t' /\
      (c' = 60%N \/ c' = c).
Proof.
  intros r markup c t. unfold replaceAll. cbn [replaceFrom].
  destruct (exec r None (c :: t)) as [[m caps] |].
  - cbn [expand flat_map app]. eexists. eexists.
    split; [reflexivity | left; reflexivity].
  - eexists. eexists. split; [reflexivity | right; reflexivity].
Qed.

Lemma header_needs_hash :
  forall h prev c t,
    In h ["### "; "## "; "# "]%string -> c <> 35%N ->
    exec (Reader.header h) prev (c :: t) = None.
Proof.
  intros h prev c t Hh Hc.
  destruct Hh as [<- | [<- | [<- | []]]];
    apply (exec_Bol_Chars_head 35); exact Hc.
Qed.

Lemma header_needs_input :
  forall h prev,
    In h ["### "; "## "; "# "]%string -> exec (Reader.header h) prev [] = None.
Proof.
  intros h prev Hh.
  destruct Hh as [<- | [<- | [<- | []]]];
    destruct prev as [p |]; unfold exec; cbn [attempts Reader.header];
    try destruct (isLineTerminator p); reflexivity.
Qed.

Lemma trimmable_plain :
  forall c, isTrimmable c = true ->
            c <> 35%N /\ c <> 42%N /\ c <> 91%N /\ c <> 33%N.
Proof.
  intros c H. repeat split; intros ->; discriminate H.
Qed.

(** Where none of the four characters that begin a markdown pattern
    occurs, the seven markdown replacements change nothing. *)
Lemma markdown_patterns_need_marks :
  forall s,
    (forall c, In c s -> c <> 35%N /\ c <> 42%N /\ c <> 91%N /\ c <> 33%N) ->
    replaceAll Reader.image Reader.imageTemplate
      (replaceAll Reader.link Reader.anchorTemplate
        (replaceAll Reader.italic (Reader.tagged "em")
          (replaceAll Reader.bold (Reader.tagged "strong")
            (replaceAll (Reader.header "# ") (Reader.tagged "h1")
              (replaceAll (Reader.header "## ") (Reader.tagged "h2")
                (replaceAll (Reader.header "### ") (Reader.tagged "h3") s))))))
    = s.
Proof.
  intros s Hplain.
  rewrite (replaceAll_without_match (Reader.header "### "));
    [| intros; apply header_needs_input; simpl; tauto
     | intros prev x u Hx; apply header_needs_hash;
       [simpl; tauto | apply (Hplain x Hx)]].
  rewrite (replaceAll_without_match (Reader.header "## "));
    [| intros; apply header_needs_input; simpl; tauto
     | intros prev x u Hx; apply header_needs_hash;
       [simpl; tauto | apply (Hplain x Hx)]].
  rewrite (replaceAll_without_match (Reader.header "# "));
    [| intros; apply header_needs_input; simpl; tauto
     | intros prev x u Hx; apply header_needs_hash;
       [simpl; tauto | apply (Hplain x Hx)]].
  rewrite (replaceAll_without_match Reader.bold);
    [| reflexivity
     | intros prev x u Hx; apply (exec_Chars_head 42); apply (Hplain x Hx)].
  rewrite (replaceAll_without_match Reader.italic);
    [| reflexivity
     | intros prev x u Hx; apply (exec_Chars_head 42); apply (Hplain x Hx)].
  rewrite (replaceAll_without_match Reader.link);
    [| reflexivity
     | intros prev x u Hx; apply (exec_Chars_head 91); apply (Hplain x Hx)].
  rewrite (replaceAll_without_match Reader.image);
    [| reflexivity
     | intros prev x u Hx; apply (exec_Chars_head 33); apply (Hplain x Hx)].
  reflexivity.
Qed.

(** Blank text passes the seven markdown replacements unchanged and is
    then wrapped in a paragraph: the result is not the placeholder. *)
Lemma markdownToHtml_blank :
  forall s, s <> [] -> blank s ->
            Reader.markdownToHtml (Some s) <> Reader.noContent.
Proof.
  intros s Hs Hb.
  pose proof (blank_all_trimmable s Hb) as Hall.
  rewrite Forall_forall in Hall.
  assert (Hplain : forall c, In c s ->
                     c <> 35%N /\ c <> 42%N /\ c <> 91%N /\ c <> 33%N).
  { intros c Hc. apply trimmable_plain, Hall, Hc. }
  destruct s as [| c t]; [contradiction |].
  rewrite markdownToHtml_cons, markdown_patterns_need_marks by exact Hplain.
  destruct (replaceAll_markup_head (Reader.newline >> Reader.newline)
              (lit "/p><p>") c t) as (c8 & t8 & E8 & H8).
  change (60%N :: lit "/p><p>") with (lit "</p><p>") in E8. rewrite E8.
  destruct (replaceAll_markup_head Reader.newline (lit "br>") c8 t8)
    as (c9 & t9 & E9 & H9).
  change (60%N :: lit "br>") with (lit "<br>") in E9. rewrite E9.
  intros E. cbn in E. injection E as E _.
  assert (Hc : isTrimmable c = true) by (apply Hall; left; reflexivity).
  destruct H9 as [-> | ->]; [discriminate E |].
  destruct H8 as [-> | ->]; [discriminate E |].
  subst c. discriminate Hc.
Qed.

Lemma includes_inv :
  forall needle s,
    includes needle s = true -> exists a b, s = a ++ needle ++ b.
Proof.
  intros needle. induction s as [| c s IH]; intros H.
  - simpl in H. rewrite orb_false_r in H.
    apply startsWith_app in H. destruct H as [rest E].
    exists [], rest. exact E.
  - simpl in H. apply orb_true_iff in H. destruct H as [H | H].
    + apply startsWith_app in H. destruct H as [rest E].
      exists [], rest. exact E.
    + destruct (IH H) as (a & b & ->). exists (c :: a), b. reflexivity.
Qed.

Lemma exec_Chars_only_head :
  forall x l prev c s, c <> x -> exec (Chars (x :: l)) prev (c :: s) = None.
Proof.
  intros x l prev c s Hc. unfold exec. cbn [attempts startsWith].
  destruct (N.eqb_spec x c) as [E | E]; [congruence |]. reflexivity.
Qed.

(** Plain text is wrapped in a paragraph as it is, markup included. *)
Lemma markdownToHtml_plain :
  forall s,
    s <> [] -> plainText s ->
    Reader.markdownToHtml (Some s) = lit "<p>" ++ s ++ lit "</p>".
Proof.
  intros s Hs Hplain. destruct s as [| c t]; [contradiction |].
  rewrite markdownToHtml_cons, markdown_patterns_need_marks.
  - rewrite (replaceAll_without_match (Reader.newline >> Reader.newline));
      [| reflexivity
       | intros prev x u Hx; apply (exec_Chars_head 10); apply (Hplain x Hx)].
    rewrite (replaceAll_without_match Reader.newline);
      [| reflexivity
       | intros prev x u Hx; apply (exec_Chars_only_head 10);
         apply (Hplain x Hx)].
    reflexivity.
  - intros x Hx. destruct (Hplain x Hx) as (H1 & H2 & H3 & H4 & _).
    repeat split; assumption.
Qed.

Lemma formatContent_markdownBranch :
  forall D key content,
    content <> [] -> markdownBranch content ->
    Reader.formatContent D key (Reader.Success content) =
    Reader.markdownToHtml (Some content).
Proof.
  intros D key content Hne (H1 & H2 & H3 & H4 & H5).
  destruct content as [| c t]; [contradiction |].
  unfold Reader.formatContent.
  cbn [Reader.success Reader.content Reader.Success negb Reader.toBoolean
       truthy Reader.typeofString orb].
  rewrite H1, H2, H3, H4, H5. reflexivity.
Qed.

(** ** Matches that succeed at the first attempt *)

Lemma exec_Chars_app :
  forall l prev rest, exec (Chars l) prev (l ++ rest) = Some (l, []).
Proof.
  intros l prev rest. unfold exec. cbn [attempts].
  rewrite startsWith_refl_app. reflexivity.
Qed.

Lemma exec_Grp_some :
  forall r prev s m caps,
    exec r prev s = Some (m, caps) ->
    exec (Grp r) prev s = Some (m, m :: caps).
Proof.
  intros r prev s m caps H. unfold exec in *. cbn [attempts].
  destruct (attempts r prev s) as [| a l]; [discriminate H |].
  injection H as ->. reflexivity.
Qed.

Lemma exec_Cat_some :
  forall r1 r2 prev s m1 caps1 m2 caps2,
    exec r1 prev s = Some (m1, caps1) ->
    exec r2 (lastOr prev m1) (skipn (length m1) s) = Some (m2, caps2) ->
    exec (r1 >> r2) prev s = Some (m1 ++ m2, caps1 ++ caps2).
Proof.
  intros r1 r2 prev s m1 caps1 m2 caps2 H1 H2. unfold exec in *.
  cbn [attempts].
  destruct (attempts r1 prev s) as [| a1 l1]; [discriminate H1 |].
  injection H1 as ->. cbn [flat_map fst snd].
  destruct (attempts r2 (lastOr prev m1) (skipn (length m1) s)) as [| a2 l2];
    [discriminate H2 |].
  injection H2 as ->. reflexivity.
Qed.

(** A greedy repetition first takes the whole stretch of the class. *)
Lemma runs_greedy_head :
  forall cl a rest,
    Forall (fun c => cmatch cl c = true) a ->
    (rest = [] \/ exists c r', rest = c :: r' /\ cmatch cl c = false) ->
    exists shorter, runs true cl (a ++ rest) = a :: shorter.
Proof.
  intros cl a rest Ha Hrest. induction Ha as [| c a Hc Ha IH].
  - destruct Hrest as [-> | (c & r' & -> & Hc)].
    + exists []. reflexivity.
    + exists []. simpl. rewrite Hc. reflexivity.
  - destruct IH as [shorter E]. simpl. rewrite Hc, E.
    eexists. reflexivity.
Qed.

Lemma exec_Rep_greedy :
  forall least cl prev a rest,
    Forall (fun c => cmatch cl c = true) a ->
    least <= length a ->
    (rest = [] \/ exists c r', rest = c :: r' /\ cmatch cl c = false) ->
    exec (Rep true least cl) prev (a ++ rest) = Some (a, []).
Proof.
  intros least cl prev a rest Ha Hlen Hrest. unfold exec. cbn [attempts].
  destruct (runs_greedy_head cl a rest Ha Hrest) as [shorter ->].
  cbn [filter]. apply Nat.leb_le in Hlen. rewrite Hlen. reflexivity.
Qed.

(** At a bracketed text followed by a parenthesised address the link
    pattern matches both. *)
Lemma exec_link_match :
  forall prev text url rest,
    text <> [] -> url <> [] -> ~ In 93%N text -> ~ In 41%N url ->
    exec Reader.link prev (lit "[" ++ text ++ lit "](" ++ url ++ lit ")" ++ rest) =
    Some (lit "[" ++ text ++ lit "](" ++ url ++ lit ")", [text; url]).
Proof.
  intros prev text url rest Ht Hu Htext Hurl.
  assert (Hclass : forall x (s : jsstring),
             ~ In x s -> Forall (fun c => cmatch (Except x) c = true) s).
  { intros x s Hs. apply Forall_forall. intros c Hc. cbn [cmatch].
    apply negb_true_iff, N.eqb_neq. intros ->. exact (Hs Hc). }
  assert (Hne : forall s : jsstring, s <> [] -> 1 <= length s).
  { intros s Hs. destruct s; [contradiction | simpl; lia]. }
  unfold Reader.link.
  change (lit "[" ++ text ++ lit "](" ++ url ++ lit ")" ++ rest)
    with (lit "[" ++ (text ++ lit "]" ++ lit "(" ++ url ++ lit ")" ++ rest)).
  change (lit "[" ++ text ++ lit "](" ++ url ++ lit ")")
    with (lit "[" ++ text ++ lit "]" ++ lit "(" ++ url ++ lit ")").
  change [text; url] with ([] ++ [text] ++ [] ++ [] ++ [url] ++ []).
  apply exec_Cat_some; [apply exec_Chars_app | rewrite skipn_length_app].
  apply exec_Cat_some.
  { apply exec_Grp_some. apply exec_Rep_greedy.
    - apply Hclass. exact Htext.
    - apply Hne. exact Ht.
    - right. eexists. eexists. split; reflexivity. }
  rewrite skipn_length_app.
  apply exec_Cat_some; [apply exec_Chars_app | rewrite skipn_length_app].
  apply exec_Cat_some; [apply exec_Chars_app | rewrite skipn_length_app].
  apply exec_Cat_some.
  { apply exec_Grp_some. apply exec_Rep_greedy.
    - apply Hclass. exact Hurl.
    - apply Hne. exact Hu.
    - right. eexists. eexists. split; reflexivity. }
  rewrite skipn_length_app. apply exec_Chars_app.
Qed.

Lemma tokenText_not :
  forall s c x, tokenText s -> In c s ->
                In x [35; 42; 91; 93; 40; 41; 33; 10]%N -> c <> x.
Proof.
  intros s c x Hs Hc Hx ->. exact (Hs x Hc Hx).
Qed.

(** The text of an image token with a non-empty alternative text comes
    out of [markdownToHtml] as an exclamation mark and an anchor. *)
Lemma markdownToHtml_image_token :
  forall alt url,
    alt <> [] -> url <> [] -> tokenText alt -> tokenText url ->
    Reader.markdownToHtml (Some (imageTokenOf alt url)) =
    lit "<p>" ++ anchorAfterBang alt url ++ lit "</p>".
Proof.
  intros alt url Halt Hurl Ta Tu.
  assert (Hin : forall c x, In c (imageTokenOf alt url) ->
                            In x [35; 42; 10]%N -> c <> x).
  { intros c x Hc Hx. unfold imageTokenOf in Hc.
    repeat (apply in_app_or in Hc; destruct Hc as [Hc | Hc]).
    - vm_compute in Hc. cbn [In] in Hx. intros ->.
      intuition (subst; discriminate).
    - apply (tokenText_not alt); [exact Ta | exact Hc |]. cbn [In] in *. tauto.
    - vm_compute in Hc. cbn [In] in Hx. intros ->.
      intuition (subst; discriminate).
    - apply (tokenText_not url); [exact Tu | exact Hc |]. cbn [In] in *. tauto.
    - vm_compute in Hc. cbn [In] in Hx. intros ->.
      intuition (subst; discriminate). }
  assert (Hout : forall c x,
             In c (sq "<a href='" ++ url ++
                   sq "' target='_blank' rel='noopener noreferrer'>" ++ alt ++
                   lit "</a>") ->
             In x [33; 10]%N -> c <> x).
  { intros c x Hc Hx.
    repeat (apply in_app_or in Hc; destruct Hc as [Hc | Hc]).
    - vm_compute in Hc. cbn [In] in Hx. intros ->.
      intuition (subst; discriminate).
    - apply (tokenText_not url); [exact Tu | exact Hc |]. cbn [In] in *. tauto.
    - vm_compute in Hc. cbn [In] in Hx. intros ->.
      intuition (subst; discriminate).
    - apply (tokenText_not alt); [exact Ta | exact Hc |]. cbn [In] in *. tauto.
    - vm_compute in Hc. cbn [In] in Hx. intros ->.
      intuition (subst; discriminate). }
  destruct (imageTokenOf alt url) as [| c0 t0] eqn:Etok; [discriminate Etok |].
  rewrite markdownToHtml_cons. rewrite <- Etok in *. clear Etok c0 t0.
  (* headers, bold, italic: nothing to match *)
  rewrite (replaceAll_without_match (Reader.header "### "));
    [| intros; apply header_needs_input; simpl; tauto
     | intros prev x u Hx; apply header_needs_hash;
       [simpl; tauto | apply (Hin x 35%N Hx); simpl; tauto]].
  rewrite (replaceAll_without_match (Reader.header "## "));
    [| intros; apply header_needs_input; simpl; tauto
     | intros prev x u Hx; apply header_needs_hash;
       [simpl; tauto | apply (Hin x 35%N Hx); simpl; tauto]].
  rewrite (replaceAll_without_match (Reader.header "# "));
    [| intros; apply header_needs_input; simpl; tauto
     | intros prev x u Hx; apply header_needs_hash;
       [simpl; tauto | apply (Hin x 35%N Hx); simpl; tauto]].
  rewrite (replaceAll_without_match Reader.bold);
    [| reflexivity
     | intros prev x u Hx; apply (exec_Chars_head 42);
       apply (Hin x 42%N Hx); simpl; tauto].
  rewrite (replaceAll_without_match Reader.italic);
    [| reflexivity
     | intros prev x u Hx; apply (exec_Chars_head 42);
       apply (Hin x 42%N Hx); simpl; tauto].
  (* the link pattern takes the bracket and the parenthesis *)
  assert (E6 : replaceAll Reader.link Reader.anchorTemplate
                          (imageTokenOf alt url) = anchorAfterBang alt url).
  { unfold replaceAll, imageTokenOf.
    change (lit "![" ++ alt ++ lit "](" ++ url ++ lit ")")
      with (33%N :: (lit "[" ++ alt ++ lit "](" ++ url ++ lit ")")).
    rewrite replaceFrom_nomatch by (apply (exec_Chars_head 91); discriminate).
    rewrite (replaceFrom_match Reader.link Reader.anchorTemplate _ _
               (lit "[" ++ alt ++ lit "](" ++ url ++ lit ")") [alt; url] []).
    - cbn [replaceFrom]. unfold anchorAfterBang.
      cbn [expand Reader.anchorTemplate flat_map nth pred].
      rewrite <- !app_assoc. cbn [app]. rewrite ?app_nil_r. reflexivity.
    - rewrite <- (app_nil_r (lit ")")) at 1.
      apply exec_link_match; try assumption.
      + intros H. apply (Ta _ H). cbn [In]. tauto.
      + intros H. apply (Tu _ H). cbn [In]. tauto.
    - discriminate.
    - rewrite <- !app_assoc. rewrite ?app_nil_r. reflexivity. }
  rewrite E6.
  (* the image pattern finds no bracket after the exclamation mark *)
  assert (E7 : replaceAll Reader.image Reader.imageTemplate
                          (anchorAfterBang alt url) = anchorAfterBang alt url).
  { unfold replaceAll, anchorAfterBang.
    change (lit "!" ++ sq "<a href='" ++ url ++
            sq "' target='_blank' rel='noopener noreferrer'>" ++ alt ++
            lit "</a>")
      with (33%N :: 60%N ::
            (skipn 1 (sq "<a href='") ++ url ++
             sq "' target='_blank' rel='noopener noreferrer'>" ++ alt ++
             lit "</a>")).
    rewrite replaceFrom_nomatch by (apply exec_Chars_second; discriminate).
    change (60%N ::
            (skipn 1 (sq "<a href='") ++ url ++
             sq "' target='_blank' rel='noopener noreferrer'>" ++ alt ++
             lit "</a>"))
      with (sq "<a href='" ++ url ++
            sq "' target='_blank' rel='noopener noreferrer'>" ++ alt ++
            lit "</a>").
    rewrite replaceFrom_without_match; [reflexivity | reflexivity |].
    intros prev c t Hc. apply (exec_Chars_head 33).
    apply (Hout c 33%N Hc). simpl. tauto. }
  rewrite E7.
  (* no line feed *)
  assert (Hnl : forall c, In c (anchorAfterBang alt url) -> c <> 10%N).
  { intros c Hc. unfold anchorAfterBang in Hc.
    apply in_app_or in Hc. destruct Hc as [Hc | Hc].
    - vm_compute in Hc. destruct Hc as [<- | []]. discriminate.
    - apply (Hout c 10%N Hc). simpl. tauto. }
  rewrite (replaceAll_without_match (Reader.newline >> Reader.newline));
    [| reflexivity
     | intros prev x u Hx; apply (exec_Chars_head 10); apply (Hnl x Hx)].
  rewrite (replaceAll_without_match Reader.newline);
    [| reflexivity
     | intros prev x u Hx; apply (exec_Chars_only_head 10); apply (Hnl x Hx)].
  reflexivity.
Qed.

(** ** The scan of the link pattern *)

Lemma bracket_false :
  forall c, bracket c = false ->
            c <> 91%N /\ c <> 93%N /\ c <> 40%N /\ c <> 41%N.
Proof.
  intros c H. unfold bracket in H.
  apply orb_false_iff in H. destruct H as [H H4].
  apply orb_false_iff in H. destruct H as [H H3].
  apply orb_false_iff in H. destruct H as [H1 H2].
  apply N.eqb_neq in H1, H2, H3, H4. repeat split; assumption.
Qed.

(** A character that is no bracket moves the scan as any other does,
    and a second one does not move it. *)
Lemma linkStep_plain :
  forall q c d,
    bracket c = false -> bracket d = false ->
    linkStep q c = linkStep q d /\ linkStep (linkStep q c) d = linkStep q c.
Proof.
  intros q c d Hc Hd.
  apply bracket_false in Hc. destruct Hc as (c1 & c2 & c3 & c4).
  apply bracket_false in Hd. destruct Hd as (d1 & d2 & d3 & d4).
  apply N.eqb_neq in c1, c2, c3, c4, d1, d2, d3, d4.
  destruct q; cbn [linkStep];
    rewrite ?c1, ?c2, ?c3, ?c4, ?d1, ?d2, ?d3, ?d4; cbn [linkStep];
    rewrite ?c1, ?c2, ?c3, ?c4, ?d1, ?d2, ?d3, ?d4; split; reflexivity.
Qed.

Lemma scan_plain_run :
  forall t q c,
    (forall x, In x t -> bracket x = false) -> bracket c = false ->
    linkStep (fold_left linkStep t q) c = linkStep q c.
Proof.
  induction t as [| x t IH]; intros q c Ht Hc.
  - reflexivity.
  - cbn [fold_left]. rewrite IH.
    + assert (Hx : bracket x = false) by (apply Ht; left; reflexivity).
      destruct (linkStep_plain q x c Hx Hc) as [E1 E2].
      rewrite E2. exact E1.
    + intros y Hy. apply Ht. right. exact Hy.
    + exact Hc.
Qed.

Lemma scan_plain_swap :
  forall d t q,
    d <> [] -> t <> [] ->
    (forall x, In x d -> bracket x = false) ->
    (forall x, In x t -> bracket x = false) ->
    fold_left linkStep d q = fold_left linkStep t q.
Proof.
  intros d t q Hd Ht Bd Bt.
  assert (G : forall (u : jsstring) x,
             u <> [] -> (forall y, In y u -> bracket y = false) ->
             bracket x = false ->
             fold_left linkStep u q = linkStep q x).
  { intros u x Hu Bu Bx.
    destruct (exists_last Hu) as (u0 & z & ->).
    rewrite fold_left_app. cbn [fold_left].
    assert (Bz : bracket z = false)
      by (apply Bu; apply in_or_app; right; left; reflexivity).
    rewrite scan_plain_run.
    - apply (proj1 (linkStep_plain q z x Bz Bx)).
    - intros y Hy. apply Bu. apply in_or_app. left. exact Hy.
    - exact Bz. }
  rewrite (G d 0%N Hd Bd eq_refl), (G t 0%N Ht Bt eq_refl). reflexivity.
Qed.

Section Rescanned.

Variable T : jsstring.

Hypothesis T_nonempty : T <> [].
Hypothesis T_brackets : forall c, bracket c = true -> In c T.

Lemma not_in_token_plain : forall c, ~ In c T -> bracket c = false.
Proof.
  intros c H. destruct (bracket c) eqn:E; [| reflexivity].
  exfalso. apply H. apply T_brackets. exact E.
Qed.

(** Inside the token nothing is swapped and nothing is put. *)
Lemma retags_inside_token :
  forall s s',
    retags T s s' ->
    forall T2 post,
      s = T2 ++ post -> (forall c, In c T2 -> In c T) ->
      exists post', s' = T2 ++ post'.
Proof.
  intros s s' H.
  induction H as [| c s s' H IH | d t s s' Hd Ht Hnd Hbt H IH
                  | t s s' Hbt Hs H IH];
    intros T2 post Es Hsub.
  - destruct T2; [| discriminate Es]. exists []. reflexivity.
  - destruct T2 as [| x T2].
    + exists (c :: s'). reflexivity.
    + simpl in Es. injection Es as -> ->.
      destruct (IH T2 post eq_refl) as [post' ->].
      * intros y Hy. apply Hsub. right. exact Hy.
      * exists post'. reflexivity.
  - destruct T2 as [| x T2].
    + exists (t ++ s'). reflexivity.
    + exfalso. destruct d as [| y d]; [contradiction |].
      simpl in Es. injection Es as -> _.
      apply (Hnd x); [left; reflexivity | apply Hsub; left; reflexivity].
  - destruct T2 as [| x T2].
    + exists (t ++ s'). reflexivity.
    + exfalso. destruct Hs as [-> | (d & s0 & -> & Hd)]; [discriminate Es |].
      simpl in Es. injection Es as -> _.
      apply Hd. apply Hsub. left. reflexivity.
Qed.

(** Dropped characters before the token are dropped from the text
    before it. *)
Lemma dropped_before_token :
  forall d s pre post,
    (forall c, In c d -> ~ In c T) ->
    d ++ s = pre ++ T ++ post ->
    exists pre0, pre = d ++ pre0 /\ s = pre0 ++ T ++ post.
Proof.
  induction d as [| x d IH]; intros s pre post Hd E.
  - exists pre. split; [reflexivity | exact E].
  - destruct pre as [| p pre].
    + exfalso. destruct (nil_or_cons T) as [ET | (t0 & T0 & ET)];
        [contradiction |].
      rewrite ET in E. simpl in E. injection E as -> _.
      apply (Hd t0); [left; reflexivity | rewrite ET; left; reflexivity].
    + simpl in E. injection E as -> E.
      destruct (IH s pre post) as (pre0 & -> & ->).
      * intros c Hc. apply Hd. right. exact Hc.
      * exact E.
      * exists pre0. split; reflexivity.
Qed.

Lemma retags_keeps :
  forall s s',
    retags T s s' ->
    forall pre post,
      s = pre ++ T ++ post ->
      exists pre' post',
        s' = pre' ++ T ++ post' /\
        forall q, fold_left linkStep pre' q = fold_left linkStep pre q.
Proof.
  intros s s' H.
  induction H as [| c s s' H IH | d t s s' Hd Ht Hnd Hbt H IH
                  | t s s' Hbt Hs H IH];
    intros pre post Es.
  - exfalso. symmetry in Es. apply app_eq_nil in Es. destruct Es as [_ Es].
    apply app_eq_nil in Es. destruct Es as [Es _]. contradiction.
  - destruct pre as [| p pre].
    + destruct (nil_or_cons T) as [ET | (t0 & T0 & ET)]; [contradiction |].
      simpl in Es. rewrite ET in Es. simpl in Es. injection Es as -> ->.
      destruct (retags_inside_token _ _ H T0 post eq_refl) as [post' ->].
      * intros c Hc. rewrite ET. right. exact Hc.
      * exists [], post'. rewrite ET. split; reflexivity.
    + simpl in Es. injection Es as -> ->.
      destruct (IH pre post eq_refl) as (pre' & post' & -> & Hq).
      exists (p :: pre'), post'. split; [reflexivity |].
      intros q. cbn [fold_left]. apply Hq.
  - destruct (dropped_before_token d s pre post Hnd Es) as (pre0 & -> & ->).
    destruct (IH pre0 post eq_refl) as (pre' & post' & -> & Hq).
    exists (t ++ pre'), post'. split; [rewrite app_assoc; reflexivity |].
    intros q. rewrite !fold_left_app, Hq. f_equal.
    apply scan_plain_swap; try assumption.
    intros x Hx. apply not_in_token_plain. apply Hnd. exact Hx.
  - destruct (IH pre post Es) as (pre' & post' & -> & Hq).
    exists (t ++ pre'), post'. split; [rewrite app_assoc; reflexivity |].
    intros q. rewrite fold_left_app, Hq.
    destruct Hs as [-> | (d & s0 & -> & Hd)].
    + exfalso. symmetry in Es. apply app_eq_nil in Es. destruct Es as [_ Es].
      apply app_eq_nil in Es. destruct Es as [Es _]. contradiction.
    + destruct pre as [| p pre].
      * exfalso. destruct (nil_or_cons T) as [ET | (t0 & T0 & ET)];
          [contradiction |].
        simpl in Es. rewrite ET in Es. simpl in Es. injection Es as -> _.
        apply Hd. rewrite ET. left. reflexivity.
      * simpl in Es. injection Es as -> _. cbn [fold_left].
        rewrite scan_plain_run; [reflexivity | exact Hbt |].
        apply not_in_token_plain. exact Hd.
Qed.

Variable r : regex.
Variable tmpl : list piece.

Hypothesis Hretagging : retagging T r tmpl.

Lemma retags_copies :
  forall cap s s', retags T s s' -> retags T (cap ++ s) (cap ++ s').
Proof.
  induction cap as [| c cap IH]; intros s s' H.
  - exact H.
  - simpl app. apply retags_copy. apply IH. exact H.
Qed.

Lemma replaceFrom_retags :
  forall n s prev,
    length s <= n -> retags T s (replaceFrom r tmpl 0 prev s).
Proof.
  induction n as [| n IH]; intros s prev Hlen.
  - destruct s; [| simpl in Hlen; lia].
    cbn [replaceFrom]. destruct (exec r prev []) as [[m caps] |] eqn:He.
    + destruct (Hretagging _ _ _ _ He)
        as (d1 & cap & d2 & t1 & t2 & rest & Es & Em & _ & Hd1 & _).
      subst m. destruct d1; [contradiction | discriminate Es].
    + constructor.
  - destruct (exec r prev s) as [[m caps] |] eqn:He.
    + destruct (Hretagging _ _ _ _ He)
        as (d1 & cap & d2 & t1 & t2 & rest & Es & Em & Ex & Hd1 & Ht1 & Ht2
            & Hn1 & Hn2 & Hb1 & Hb2 & Hrest).
      assert (Hm : m <> []).
      { subst m. destruct d1; [contradiction | discriminate]. }
      rewrite (replaceFrom_match r tmpl prev s m caps rest He Hm Es), Ex.
      assert (Hr : length rest <= n).
      { subst s m. rewrite !length_app in Hlen.
        destruct d1; [contradiction |]. simpl in Hlen. lia. }
      specialize (IH rest (lastOr prev m) Hr).
      clear He Hm Hlen. subst s m. rewrite <- !app_assoc.
      apply retags_swap; try assumption.
      apply retags_copies.
      destruct d2 as [| x d2].
      * simpl app. apply retags_put; [exact Hb2 | | exact IH].
        destruct Hrest as [Hrest | Hrest]; [contradiction | exact Hrest].
      * apply retags_swap; try assumption. discriminate.
    + destruct s as [| c s].
      * cbn [replaceFrom]. rewrite He. constructor.
      * rewrite (replaceFrom_nomatch r tmpl prev c s He).
        apply retags_copy. apply IH. simpl in Hlen. lia.
Qed.

Theorem replaceAll_keeps_scan :
  forall pre post,
    exists pre' post',
      replaceAll r tmpl (pre ++ T ++ post) = pre' ++ T ++ post' /\
      forall q, fold_left linkStep pre' q = fold_left linkStep pre q.
Proof.
  intros pre post.
  apply (retags_keeps _ _ (replaceFrom_retags _ _ None (le_n _))
                      pre post eq_refl).
Qed.

End Rescanned.

(** ** The patterns that put tags *)

Lemma plain_by_forallb :
  forall t : jsstring,
    forallb (fun c => negb (bracket c)) t = true ->
    forall c, In c t -> bracket c = false.
Proof.
  intros t H c Hc. rewrite forallb_forall in H.
  apply negb_true_iff. apply H. exact Hc.
Qed.

Lemma retagging_header :
  forall (T : jsstring) (hashes tag : string),
    lit hashes <> [] ->
    (forall c, In c (lit hashes) -> ~ In c T) ->
    (forall c, isLineTerminator c = true -> ~ In c T) ->
    forallb (fun c => negb (bracket c)) (lit tag) = true ->
    retagging T (Reader.header hashes) (Reader.tagged tag).
Proof.
  intros T hashes tag Hne Hh Hlt Htag prev s m caps He.
  apply exec_In in He. unfold Reader.header in He.
  cat_inv He m1 c1 m2 c2 H1 H2.
  apply attempts_Bol_inv in H1. destruct H1 as (-> & -> & _).
  cbn [lastOr rev length skipn] in H2.
  cat_inv H2 m3 c3 m4 c4 H3 H4.
  chars_inv H3 rest3.
  rewrite skipn_length_app in H4.
  apply attempts_Grp_inv in H4. destruct H4 as (inner & -> & H4).
  cat_inv H4 m5 c5 m6 c6 H5 H6.
  apply attempts_Rep_inv in H5. destruct H5 as (-> & _ & Hrun & rest5 & ->).
  rewrite skipn_length_app in H6.
  apply attempts_Eol_inv in H6. destruct H6 as (-> & -> & Hend).
  exists (lit hashes), m5, [], (lit "<" ++ lit tag ++ lit ">"),
    (lit "</" ++ lit tag ++ lit ">"), rest5.
  cbn [app]. rewrite !app_nil_r.
  assert (Hplain : forall c, In c (lit tag) -> bracket c = false)
    by (apply plain_by_forallb; exact Htag).
  split; [rewrite <- app_assoc; reflexivity |].
  split; [reflexivity |].
  split; [cbn; rewrite ?app_nil_r; reflexivity |].
  split; [exact Hne |].
  split; [discriminate |].
  split; [discriminate |].
  split; [exact Hh |].
  split; [intros c [] |].
  split.
  { intros c Hc. change (lit "<" ++ lit tag ++ lit ">")
      with (60%N :: lit tag ++ [62%N]) in Hc.
    destruct Hc as [<- | Hc]; [reflexivity |].
    apply in_app_or in Hc. destruct Hc as [Hc | [<- | []]];
      [apply Hplain; exact Hc | reflexivity]. }
  split.
  { intros c Hc. change (lit "</" ++ lit tag ++ lit ">")
      with (60%N :: 47%N :: lit tag ++ [62%N]) in Hc.
    destruct Hc as [<- | [<- | Hc]]; [reflexivity | reflexivity |].
    apply in_app_or in Hc. destruct Hc as [Hc | [<- | []]];
      [apply Hplain; exact Hc | reflexivity]. }
  right. destruct Hend as [-> | (c & s' & -> & Hc)].
  - left. reflexivity.
  - right. exists c, s'. split; [reflexivity | apply Hlt; exact Hc].
Qed.

Lemma retagging_bold :
  forall T : jsstring,
    ~ In 42%N T -> retagging T Reader.bold (Reader.tagged "strong").
Proof.
  intros T Hstar prev s m caps He.
  apply exec_In in He. unfold Reader.bold in He.
  cat_inv He m1 c1 m2 c2 H1 H2. chars_inv H1 rest1.
  rewrite skipn_length_app in H2.
  cat_inv H2 m3 c3 m4 c4 H3 H4. chars_inv H3 rest3.
  rewrite skipn_length_app in H4.
  cat_inv H4 m5 c5 m6 c6 H5 H6.
  apply attempts_Grp_inv in H5. destruct H5 as (inner & -> & H5).
  apply attempts_Rep_inv in H5. destruct H5 as (-> & _ & Hrun & rest5 & ->).
  rewrite skipn_length_app in H6.
  cat_inv H6 m7 c7 m8 c8 H7 H8. chars_inv H7 rest7.
  rewrite skipn_length_app in H8. chars_inv H8 rest8.
  exists (lit "**"), m5, (lit "**"), (lit "<strong>"), (lit "</strong>"), rest8.
  split; [cbn; rewrite <- ?app_assoc; reflexivity |].
  split; [reflexivity |].
  split; [cbn; rewrite ?app_nil_r; reflexivity |].
  split; [discriminate |].
  split; [discriminate |].
  split; [discriminate |].
  assert (Hd : forall c, In c (lit "**") -> ~ In c T).
  { intros c [<- | [<- | []]]; exact Hstar. }
  split; [exact Hd |]. split; [exact Hd |].
  split; [apply plain_by_forallb; reflexivity |].
  split; [apply plain_by_forallb; reflexivity |].
  left. discriminate.
Qed.

Lemma retagging_italic :
  forall T : jsstring,
    ~ In 42%N T -> retagging T Reader.italic (Reader.tagged "em").
Proof.
  intros T Hstar prev s m caps He.
  apply exec_In in He. unfold Reader.italic in He.
  cat_inv He m1 c1 m2 c2 H1 H2. chars_inv H1 rest1.
  rewrite skipn_length_app in H2.
  cat_inv H2 m5 c5 m6 c6 H5 H6.
  apply attempts_Grp_inv in H5. destruct H5 as (inner & -> & H5).
  apply attempts_Rep_inv in H5. destruct H5 as (-> & _ & Hrun & rest5 & ->).
  rewrite skipn_length_app in H6. chars_inv H6 rest6.
  exists (lit "*"), m5, (lit "*"), (lit "<em>"), (lit "</em>"), rest6.
  split; [cbn; rewrite <- ?app_assoc; reflexivity |].
  split; [reflexivity |].
  split; [cbn; rewrite ?app_nil_r; reflexivity |].
  split; [discriminate |].
  split; [discriminate |].
  split; [discriminate |].
  assert (Hd : forall c, In c (lit "*") -> ~ In c T).
  { intros c [<- | []]; exact Hstar. }
  split; [exact Hd |]. split; [exact Hd |].
  split; [apply plain_by_forallb; reflexivity |].
  split; [apply plain_by_forallb; reflexivity |].
  left. discriminate.
Qed.

(** ** The link pattern on any text *)

(** The first occurrence of a character splits a text in one way. *)
Lemma first_occurrence :
  forall (x : N) (a a' b b' : jsstring),
    ~ In x a -> ~ In x a' ->
    a ++ x :: b = a' ++ x :: b' -> a = a' /\ b = b'.
Proof.
  intros x. induction a as [| c a IH]; intros a' b b' Ha Ha' E.
  - destruct a' as [| c' a'].
    + injection E as ->. split; reflexivity.
    + exfalso. simpl in E. injection E as <- _. apply Ha'. left. reflexivity.
  - destruct a' as [| c' a'].
    + exfalso. simpl in E. injection E as -> _. apply Ha. left. reflexivity.
    + simpl in E. injection E as -> E.
      destruct (IH a' b b') as [-> ->]; try exact E.
      * intros H. apply Ha. right. exact H.
      * intros H. apply Ha'. right. exact H.
      * split; reflexivity.
Qed.

(** What a match of the link pattern looks like. *)
Lemma attempts_link_inv :
  forall prev s m caps,
    In (m, caps) (attempts Reader.link prev s) ->
    exists text url rest,
      s = 91%N :: text ++ 93%N :: 40%N :: url ++ 41%N :: rest /\
      text <> [] /\ url <> [] /\ ~ In 93%N text /\ ~ In 41%N url.
Proof.
  intros prev s m caps He. unfold Reader.link in He.
  assert (Hclass : forall x (l : jsstring),
             Forall (fun c => cmatch (Except x) c = true) l -> ~ In x l).
  { intros x l Hl Hin. rewrite Forall_forall in Hl.
    specialize (Hl x Hin). cbn [cmatch] in Hl.
    rewrite N.eqb_refl in Hl. discriminate Hl. }
  assert (Hlen : forall l : jsstring, 1 <= length l -> l <> []).
  { intros l Hl ->. simpl in Hl. lia. }
  cat_inv He m1 c1 m2 c2 H1 H2. chars_inv H1 rest1.
  rewrite skipn_length_app in H2.
  cat_inv H2 m3 c3 m4 c4 H3 H4.
  apply attempts_Grp_inv in H3. destruct H3 as (inner & -> & H3).
  apply attempts_Rep_inv in H3. destruct H3 as (-> & Hl3 & Hrun3 & rest3 & ->).
  rewrite skipn_length_app in H4.
  cat_inv H4 m5 c5 m6 c6 H5 H6. chars_inv H5 rest5.
  rewrite skipn_length_app in H6.
  cat_inv H6 m7 c7 m8 c8 H7 H8. chars_inv H7 rest7.
  rewrite skipn_length_app in H8.
  cat_inv H8 m9 c9 m10 c10 H9 H10.
  apply attempts_Grp_inv in H9. destruct H9 as (inner9 & -> & H9).
  apply attempts_Rep_inv in H9. destruct H9 as (-> & Hl9 & Hrun9 & rest9 & ->).
  rewrite skipn_length_app in H10. chars_inv H10 rest10.
  exists m3, m9, rest10.
  split; [reflexivity |].
  split; [apply Hlen; exact Hl3 |].
  split; [apply Hlen; exact Hl9 |].
  split; [apply Hclass; exact Hrun3 | apply Hclass; exact Hrun9].
Qed.

Lemma exec_link_none :
  forall prev s,
    (forall text url rest,
        s = 91%N :: text ++ 93%N :: 40%N :: url ++ 41%N :: rest ->
        text <> [] -> url <> [] -> ~ In 93%N text -> ~ In 41%N url ->
        False) ->
    exec Reader.link prev s = None.
Proof.
  intros prev s H. unfold exec.
  destruct (attempts Reader.link prev s) as [| [m caps] l] eqn:E;
    [reflexivity |].
  exfalso.
  destruct (attempts_link_inv prev s m caps) as (text & url & rest & Es & H1 & H2 & H3 & H4).
  - rewrite E. left. reflexivity.
  - exact (H text url rest Es H1 H2 H3 H4).
Qed.

(** The scan of a text without a closing bracket stays before the
    bracket that closes the text of a link. *)
Lemma scan_without_closing :
  forall g q,
    ~ In 93%N g ->
    (q = Outside \/ q = Opened \/ q = InText) ->
    fold_left linkStep g q = Outside \/
    fold_left linkStep g q = Opened \/
    fold_left linkStep g q = InText.
Proof.
  induction g as [| c g IH]; intros q Hg Hq.
  - exact Hq.
  - cbn [fold_left]. apply IH.
    + intros H. apply Hg. right. exact H.
    + assert (Hc : N.eqb c 93 = false).
      { apply N.eqb_neq. intros ->. apply Hg. left. reflexivity. }
      destruct Hq as [-> | [-> | ->]]; cbn [linkStep]; rewrite ?Hc.
      * destruct (N.eqb c 91); auto.
      * auto.
      * auto.
Qed.

(** After an opening bracket the scan ends well only past a closing
    bracket. *)
Lemma scan_in_text :
  forall s q,
    q = Opened \/ q = InText ->
    atRest (fold_left linkStep s q) = true ->
    exists g s1,
      s = g ++ 93%N :: s1 /\ ~ In 93%N g /\
      (match q, g with
       | Opened, [] => atRest (fold_left linkStep s1 Outside) = true
       | _, _ => atRest (fold_left linkStep s1 Closed) = true
       end).
Proof.
  induction s as [| c s IH]; intros q Hq H.
  - destruct Hq as [-> | ->]; discriminate H.
  - cbn [fold_left] in H.
    destruct (N.eqb_spec c 93) as [-> | Hc].
    + exists [], s. split; [reflexivity |]. split; [intros [] |].
      destruct Hq as [-> | ->]; exact H.
    + assert (E : linkStep q c = InText).
      { apply N.eqb_neq in Hc.
        destruct Hq as [-> | ->]; cbn [linkStep]; rewrite Hc; reflexivity. }
      rewrite E in H.
      destruct (IH InText (or_intror eq_refl) H) as (g & s1 & -> & Hg & Hs1).
      exists (c :: g), s1. split; [reflexivity |].
      split; [intros [Hx | Hx]; [congruence | exact (Hg Hx)] |].
      destruct q; try exact Hs1; destruct g; exact Hs1.
Qed.

(** After the parenthesis that opens an address the scan ends well only
    past the one that closes it. *)
Lemma scan_in_address :
  forall s q,
    q = ParenOpened \/ q = InAddress ->
    atRest (fold_left linkStep s q) = true ->
    exists g s1,
      s = g ++ 41%N :: s1 /\ ~ In 41%N g /\
      atRest (fold_left linkStep s1 Outside) = true.
Proof.
  induction s as [| c s IH]; intros q Hq H.
  - destruct Hq as [-> | ->]; discriminate H.
  - cbn [fold_left] in H.
    destruct (N.eqb_spec c 41) as [-> | Hc].
    + exists [], s. split; [reflexivity |]. split; [intros [] |].
      destruct Hq as [-> | ->]; exact H.
    + assert (E : linkStep q c = InAddress).
      { apply N.eqb_neq in Hc.
        destruct Hq as [-> | ->]; cbn [linkStep]; rewrite Hc; reflexivity. }
      rewrite E in H.
      destruct (IH InAddress (or_intror eq_refl) H) as (g & s1 & -> & Hg & Hs1).
      exists (c :: g), s1. split; [reflexivity |].
      split; [intros [Hx | Hx]; [congruence | exact (Hg Hx)] | exact Hs1].
Qed.

Lemma scan_text_closed :
  forall g,
    ~ In 93%N g ->
    fold_left linkStep (g ++ [93%N]) Outside = Outside \/
    fold_left linkStep (g ++ [93%N]) Outside = Closed.
Proof.
  intros g Hg. rewrite fold_left_app. cbn [fold_left].
  destruct (scan_without_closing g Outside Hg (or_introl eq_refl))
    as [-> | [-> | ->]]; cbn; auto.
Qed.

(** A bracketed text and a parenthesised address inside a longer text. *)
Lemma link_inside :
  forall prev text url rest tmpl,
    text <> [] -> url <> [] -> ~ In 93%N text -> ~ In 41%N url ->
    replaceFrom Reader.link tmpl 0 prev
                (91%N :: (text ++ 93%N :: 40%N :: url ++ 41%N :: []) ++ rest) =
    expand tmpl [text; url] ++
    replaceFrom Reader.link tmpl 0 (Some 41%N) rest.
Proof.
  intros prev text url rest tmpl Ht Hu Hnt Hnu.
  pose proof (exec_link_match prev text url rest Ht Hu Hnt Hnu) as Hm.
  assert (E : 91%N :: (text ++ 93%N :: 40%N :: url ++ 41%N :: []) ++ rest =
              lit "[" ++ text ++ lit "](" ++ url ++ lit ")" ++ rest).
  { cbn. rewrite <- !app_assoc. cbn. rewrite <- !app_assoc. reflexivity. }
  rewrite E.
  rewrite (replaceFrom_match Reader.link tmpl prev _
             (lit "[" ++ text ++ lit "](" ++ url ++ lit ")") [text; url] rest
             Hm).
  - f_equal. f_equal. unfold lastOr.
    rewrite !rev_app_distr. reflexivity.
  - discriminate.
  - rewrite <- !app_assoc. reflexivity.
Qed.

(** Past text that the scan leaves at rest, the replacement of links
    starts afresh at the bracket that follows. *)
Lemma link_stage_scanned :
  forall tmpl n pre prev rest,
    length pre <= n ->
    atRest (fold_left linkStep pre Outside) = true ->
    exists out prev',
      replaceFrom Reader.link tmpl 0 prev (pre ++ 91%N :: rest) =
      out ++ replaceFrom Reader.link tmpl 0 prev' (91%N :: rest).
Proof.
  intros tmpl.
  induction n as [| n IH]; intros pre prev rest Hlen Hscan.
  { destruct pre; [| simpl in Hlen; lia]. exists [], prev. reflexivity. }
  destruct pre as [| c s]; [exists [], prev; reflexivity |].
  simpl in Hlen. apply le_S_n in Hlen.
  assert (Hcopy : atRest (fold_left linkStep s Outside) = true ->
                  exec Reader.link prev ((c :: s) ++ 91%N :: rest) = None ->
                  exists out prev',
                    replaceFrom Reader.link tmpl 0 prev
                                ((c :: s) ++ 91%N :: rest) =
                    out ++ replaceFrom Reader.link tmpl 0 prev'
                                       (91%N :: rest)).
  { intros Hs He. simpl app in He |- *.
    rewrite (replaceFrom_nomatch _ _ prev c _ He).
    destruct (IH s (Some c) rest Hlen Hs) as (out & prev' & ->).
    exists (c :: out), prev'. reflexivity. }
  destruct (N.eqb_spec c 91) as [-> | Hc].
  2:{ apply Hcopy.
      - cbn [fold_left linkStep] in Hscan.
        apply N.eqb_neq in Hc. rewrite Hc in Hscan. exact Hscan.
      - simpl app. apply exec_Chars_head. exact Hc. }
  cbn [fold_left linkStep] in Hscan. change (N.eqb 91 91) with true in Hscan.
  cbv iota in Hscan.
  destruct (scan_in_text s Opened (or_introl eq_refl) Hscan)
    as (g & s1 & -> & Hg & Hs1).
  destruct g as [| x g].
  - (* the text between the brackets is empty *)
    apply Hcopy.
    + exact Hs1.
    + apply exec_link_none. intros text url rest' E Ht _ Hnt _.
      destruct text as [| y text]; [contradiction |].
      simpl in E. injection E as <- _. apply Hnt. left. reflexivity.
  - assert (Hfail :
              (forall url rest',
                  s1 ++ 91%N :: rest = 40%N :: url ++ 41%N :: rest' ->
                  url <> [] -> ~ In 41%N url -> False) ->
              exec Reader.link prev
                   ((91%N :: (x :: g) ++ 93%N :: s1) ++ 91%N :: rest) = None).
    { intros Hno. apply exec_link_none.
      intros text url rest' E Ht Hu Hnt Hnu.
      simpl app in E. injection E as E.
      rewrite <- app_assoc in E. simpl app in E.
      change (x :: g ++ 93%N :: s1 ++ 91%N :: rest)
        with ((x :: g) ++ 93%N :: s1 ++ 91%N :: rest) in E.
      destruct (first_occurrence 93%N (x :: g) text _ _ Hg Hnt E) as [_ E2].
      exact (Hno url rest' E2 Hu Hnu). }
    assert (Hresume :
              forall s2,
                atRest (fold_left linkStep s2 Closed) = true ->
                atRest (fold_left linkStep s2 Outside) = true ->
                atRest (fold_left linkStep ((x :: g) ++ 93%N :: s2) Outside) =
                true).
    { intros s2 H1 H2.
      change ((x :: g) ++ 93%N :: s2) with ((x :: g) ++ [93%N] ++ s2).
      rewrite app_assoc, fold_left_app.
      destruct (scan_text_closed (x :: g) Hg) as [-> | ->]; assumption. }
    destruct s1 as [| c' s2].
    + apply Hcopy.
      * apply Hresume; reflexivity.
      * apply Hfail. intros url rest' E _ _. discriminate E.
    + destruct (N.eqb_spec c' 40) as [-> | Hc'].
      * cbn [fold_left linkStep] in Hs1.
        change (N.eqb 40 40) with true in Hs1. cbv iota in Hs1.
        destruct (scan_in_address s2 ParenOpened (or_introl eq_refl) Hs1)
          as (g2 & s3 & -> & Hg2 & Hs3).
        destruct g2 as [| y g2].
        -- (* the address between the parentheses is empty *)
           apply Hcopy.
           ++ apply Hresume; cbn [app fold_left linkStep];
                change (N.eqb 40 40) with true;
                change (N.eqb 41 41) with true;
                change (N.eqb 40 91) with false;
                change (N.eqb 41 91) with false; cbv iota; exact Hs3.
           ++ apply Hfail. intros url rest' E Hu Hnu.
              destruct url as [| z url]; [contradiction |].
              simpl in E. injection E as <- _. apply Hnu. left. reflexivity.
        -- (* a link inside the text *)
           assert (Hlen3 : length s3 <= n).
           { rewrite !length_app in Hlen. simpl in Hlen.
             rewrite !length_app in Hlen. simpl in Hlen. lia. }
           destruct (IH s3 (Some 41%N) rest Hlen3 Hs3) as (out & prev' & E3).
           exists (expand tmpl [x :: g; y :: g2] ++ out), prev'.
           rewrite <- app_assoc, <- E3.
           rewrite <- (link_inside prev (x :: g) (y :: g2) (s3 ++ 91%N :: rest)
                         tmpl ltac:(discriminate) ltac:(discriminate) Hg Hg2).
           f_equal. cbn. rewrite <- !app_assoc. cbn. rewrite <- !app_assoc.
           reflexivity.
      * apply Hcopy.
        -- apply Hresume; [exact Hs1 |].
           cbn [fold_left linkStep] in Hs1 |- *.
           apply N.eqb_neq in Hc'. rewrite Hc' in Hs1. exact Hs1.
        -- apply Hfail. intros url rest' E _ _.
           simpl in E. injection E as E _. congruence.
Qed.

(** ** Text that a later replacement carries along *)

(** A text without a character lies on one side of an occurrence of
    that character. *)
Lemma apart_from :
  forall (c : N) (u v a T b : jsstring),
    ~ In c T ->
    u ++ c :: v = a ++ T ++ b ->
    (exists b0, u = a ++ T ++ b0) \/
    (exists a0, a = u ++ c :: a0 /\ v = a0 ++ T ++ b).
Proof.
  intros c. induction u as [| y u IH]; intros v a T b Hc E.
  - destruct a as [| x a].
    + destruct T as [| t T].
      * left. exists []. reflexivity.
      * exfalso. simpl in E. injection E as -> _. apply Hc. left. reflexivity.
    + simpl in E. injection E as <- ->. right. exists a.
      split; reflexivity.
  - destruct a as [| x a].
    + destruct T as [| t T].
      * left. exists (y :: u). reflexivity.
      * simpl in E. injection E as <- E.
        destruct (IH v [] T b) as [(b0 & ->) | (a0 & Ea & _)].
        -- intros H. apply Hc. right. exact H.
        -- exact E.
        -- left. exists b0. reflexivity.
        -- destruct u; discriminate Ea.
    + simpl in E. injection E as <- E.
      destruct (IH v a T b Hc E) as [(b0 & ->) | (a0 & -> & ->)].
      * left. exists b0. reflexivity.
      * right. exists a0. split; reflexivity.
Qed.

Section Carried.

Variable r : regex.
Variable tmpl : list piece.
Variable T : jsstring.

Hypothesis T_nonempty : T <> [].
Hypothesis Hstart :
  forall prev c t, In c T -> exec r prev (c :: t) = None.
Hypothesis Hcarried :
  forall prev s m caps,
    exec r prev s = Some (m, caps) ->
    m <> [] /\
    exists rest,
      s = m ++ rest /\
      forall a b,
        s = a ++ T ++ b ->
        (exists a' b', expand tmpl caps = a' ++ T ++ b') \/
        (exists a0, a = m ++ a0).

Lemma replaceFrom_carries :
  forall n s prev a b,
    length s <= n -> s = a ++ T ++ b ->
    exists a' b', replaceFrom r tmpl 0 prev s = a' ++ T ++ b'.
Proof.
  induction n as [| n IH]; intros s prev a b Hlen Es.
  { exfalso. destruct s; [| simpl in Hlen; lia].
    symmetry in Es. apply app_eq_nil in Es. destruct Es as [_ Es].
    apply app_eq_nil in Es. destruct Es as [Es _]. contradiction. }
  destruct a as [| c a].
  - subst s. simpl app. rewrite replaceFrom_copies.
    + exists [], (replaceFrom r tmpl 0 (lastOr prev T) b). reflexivity.
    + intros a1 c a2 E. apply Hstart. rewrite E.
      apply in_or_app. right. left. reflexivity.
  - destruct (exec r prev s) as [[m caps] |] eqn:He.
    + destruct (Hcarried _ _ _ _ He) as (Hm & rest & Em & Hab).
      rewrite (replaceFrom_match r tmpl prev s m caps rest He Hm Em).
      destruct (Hab _ _ Es) as [(a' & b' & ->) | (a0 & Ea)].
      * exists a', (b' ++ replaceFrom r tmpl 0 (lastOr prev m) rest).
        rewrite <- !app_assoc. reflexivity.
      * assert (Er : rest = a0 ++ T ++ b).
        { rewrite Ea, Em, <- app_assoc in Es.
          apply app_inv_head in Es. exact Es. }
        assert (Hr : length rest <= n).
        { rewrite Em, length_app in Hlen.
          destruct m; [contradiction | simpl in Hlen; lia]. }
        destruct (IH rest (lastOr prev m) a0 b Hr Er) as (a' & b' & ->).
        exists (expand tmpl caps ++ a'), b'.
        rewrite <- app_assoc. reflexivity.
    + subst s. simpl app in He |- *.
      rewrite (replaceFrom_nomatch r tmpl prev c _ He).
      destruct (IH (a ++ T ++ b) (Some c) a b) as (a' & b' & ->).
      * simpl in Hlen. lia.
      * reflexivity.
      * exists (c :: a'), b'. reflexivity.
Qed.

Theorem replaceAll_carries :
  forall a b,
    exists a' b', replaceAll r tmpl (a ++ T ++ b) = a' ++ T ++ b'.
Proof.
  intros a b. apply (replaceFrom_carries _ _ None a b (le_n _) eq_refl).
Qed.

End Carried.

(** What a match of the image pattern looks like. *)
Lemma exec_image_inv :
  forall prev s m caps,
    exec Reader.image prev s = Some (m, caps) ->
    exists alt url rest,
      s = 33%N :: 91%N :: alt ++ 93%N :: 40%N :: url ++ 41%N :: rest /\
      m = 33%N :: 91%N :: alt ++ 93%N :: 40%N :: url ++ [41%N] /\
      caps = [alt; url].
Proof.
  intros prev s m caps He. apply exec_In in He. unfold Reader.image in He.
  cat_inv He m0 c0 m0' c0' H0 H0'. chars_inv H0 rest0.
  rewrite skipn_length_app in H0'.
  cat_inv H0' m1 c1 m2 c2 H1 H2. chars_inv H1 rest1.
  rewrite skipn_length_app in H2.
  cat_inv H2 m3 c3 m4 c4 H3 H4.
  apply attempts_Grp_inv in H3. destruct H3 as (inner & -> & H3).
  apply attempts_Rep_inv in H3. destruct H3 as (-> & Hl3 & Hrun3 & rest3 & ->).
  rewrite skipn_length_app in H4.
  cat_inv H4 m5 c5 m6 c6 H5 H6. chars_inv H5 rest5.
  rewrite skipn_length_app in H6.
  cat_inv H6 m7 c7 m8 c8 H7 H8. chars_inv H7 rest7.
  rewrite skipn_length_app in H8.
  cat_inv H8 m9 c9 m10 c10 H9 H10.
  apply attempts_Grp_inv in H9. destruct H9 as (inner9 & -> & H9).
  apply attempts_Rep_inv in H9. destruct H9 as (-> & Hl9 & Hrun9 & rest9 & ->).
  rewrite skipn_length_app in H10. chars_inv H10 rest10.
  exists m3, m9, rest10.
  split; [reflexivity |]. split; reflexivity.
Qed.

(** A text without brackets, parentheses and exclamation marks is
    carried through the image stage, outside the images or inside the
    address or the alternative text of one. *)
Lemma image_stage_carries :
  forall T a b,
    T <> [] ->
    (forall c, In c T -> ~ In c [33; 91; 93; 40; 41]%N) ->
    exists a' b',
      replaceAll Reader.image Reader.imageTemplate (a ++ T ++ b) =
      a' ++ T ++ b'.
Proof.
  intros T a b HT Hplain.
  assert (Hc : forall x, In x [33; 91; 93; 40; 41]%N -> ~ In x T).
  { intros x Hx Hin. exact (Hplain x Hin Hx). }
  assert (H33 : ~ In 33%N T) by (apply Hc; simpl; tauto).
  assert (H91 : ~ In 91%N T) by (apply Hc; simpl; tauto).
  assert (H93 : ~ In 93%N T) by (apply Hc; simpl; tauto).
  assert (H40 : ~ In 40%N T) by (apply Hc; simpl; tauto).
  assert (H41 : ~ In 41%N T) by (apply Hc; simpl; tauto).
  apply replaceAll_carries; [exact HT | |].
  - intros prev c t Hin. apply exec_Chars_head.
    intros ->. apply (Hplain _ Hin). left. reflexivity.
  - intros prev s m caps He.
    destruct (exec_image_inv _ _ _ _ He) as (alt & url & rest & -> & -> & ->).
    split; [discriminate |].
    exists rest. split.
    { simpl. rewrite <- app_assoc. simpl. rewrite <- app_assoc. reflexivity. }
    intros a0 b0 E.
    destruct (apart_from 33 [] _ a0 T b0 H33 E)
      as [(b1 & E1) | (a1 & -> & E1)].
    { exfalso. symmetry in E1. apply app_eq_nil in E1. destruct E1 as [_ E1].
      apply app_eq_nil in E1. destruct E1 as [E1 _]. contradiction. }
    destruct (apart_from 91 [] _ a1 T b0 H91 E1)
      as [(b1 & E2) | (a2 & -> & E2)].
    { exfalso. symmetry in E2. apply app_eq_nil in E2. destruct E2 as [_ E2].
      apply app_eq_nil in E2. destruct E2 as [E2 _]. contradiction. }
    destruct (apart_from 93 alt _ a2 T b0 H93 E2)
      as [(b1 & ->) | (a3 & -> & E3)].
    { left. exists (sq "<img src='" ++ url ++ sq "' alt='" ++ a2), (b1 ++ sq "' loading='lazy'>").
      cbn. rewrite ?app_nil_r, <- ?app_assoc. cbn.
      rewrite <- ?app_assoc. reflexivity. }
    destruct (apart_from 40 [] _ a3 T b0 H40 E3)
      as [(b1 & E4) | (a4 & -> & E4)].
    { exfalso. symmetry in E4. apply app_eq_nil in E4. destruct E4 as [_ E4].
      apply app_eq_nil in E4. destruct E4 as [E4 _]. contradiction. }
    destruct (apart_from 41 url _ a4 T b0 H41 E4)
      as [(b1 & ->) | (a5 & -> & E5)].
    { left. exists (sq "<img src='" ++ a4), (b1 ++ sq "' alt='" ++ alt ++ sq "' loading='lazy'>").
      cbn. rewrite ?app_nil_r, <- ?app_assoc. cbn.
      rewrite <- ?app_assoc. reflexivity. }
    right. exists a5. simpl. rewrite <- !app_assoc. simpl.
    rewrite <- !app_assoc. reflexivity.
Qed.

(** A text without line feeds is carried through the two stages that
    replace line feeds. *)
Lemma line_feed_stage_carries :
  forall r tmpl T a b,
    T <> [] -> ~ In 10%N T ->
    (exists r', r = Reader.newline >> r' \/ r = Reader.newline) ->
    (forall prev s m caps,
        exec r prev s = Some (m, caps) ->
        m <> [] /\ Forall (fun c => c = 10%N) m) ->
    exists a' b', replaceAll r tmpl (a ++ T ++ b) = a' ++ T ++ b'.
Proof.
  intros r tmpl T a b HT Hnl Hr Hm.
  apply replaceAll_carries; [exact HT | |].
  - intros prev c t Hin.
    assert (Hc : c <> 10%N) by (intros ->; exact (Hnl Hin)).
    destruct Hr as (r' & [-> | ->]).
    + apply exec_Chars_head. exact Hc.
    + unfold exec, Reader.newline. cbn [attempts startsWith].
      destruct (N.eqb_spec 10 c) as [E | E]; [congruence | reflexivity].
  - intros prev s m caps He.
    destruct (Hm _ _ _ _ He) as [Hne Hall]. split; [exact Hne |].
    destruct (attempts_prefix _ _ _ _ _ (exec_In _ _ _ _ He)) as [rest ->].
    exists rest. split; [reflexivity |].
    intros a0 b0 E. right.
    clear He Hne. revert a0 E.
    induction Hall as [| x m Hx Hall IH]; intros a0 E.
    + exists a0. reflexivity.
    + subst x.
      destruct (apart_from 10 [] (m ++ rest) a0 T b0 Hnl E)
        as [(b1 & E1) | (a1 & -> & E1)].
      * exfalso. symmetry in E1. apply app_eq_nil in E1. destruct E1 as [_ E1].
        apply app_eq_nil in E1. destruct E1 as [E1 _]. contradiction.
      * destruct (IH a1 E1) as (a2 & ->). exists a2. reflexivity.
Qed.

Lemma linkToken_brackets : forall c, bracket c = true -> In c linkToken.
Proof.
  intros c H. unfold bracket in H.
  repeat (apply orb_true_iff in H; destruct H as [H | H]);
    apply N.eqb_eq in H; subst c; vm_compute; tauto.
Qed.

Lemma newlines_only :
  forall r prev s m caps,
    r = Reader.newline >> Reader.newline \/ r = Reader.newline ->
    exec r prev s = Some (m, caps) ->
    m <> [] /\ Forall (fun c => c = 10%N) m.
Proof.
  intros r prev s m caps [-> | ->] He; apply exec_In in He;
    unfold Reader.newline in He.
  - cat_inv He m1 c1 m2 c2 H1 H2. chars_inv H1 rest1.
    rewrite skipn_length_app in H2. chars_inv H2 rest2.
    split; [discriminate | repeat constructor].
  - chars_inv He rest1. split; [discriminate | repeat constructor].
Qed.

(** * The claims of the specification *)

(** ** Scripts in the markdown branch *)

(** C1: the input [<script>alert(1)</script>] contains a script element
    and none of the markers of the two HTML branches, so [formatContent]
    sends it to [markdownToHtml], which has no stripping step: the result
    is the script element wrapped in a paragraph, on every host and with
    every key.  So it is for all plain text without those markers: what
    contains a script element still contains it afterwards.  The same
    element after a [div] goes through [parseContent] and is removed. *)
Theorem formatContent_keeps_script_in_markdown_branch :
  forall (D : HostDOM) (key : jsstring),
    includes (lit "<script>") scriptOnly = true /\
    Reader.formatContent D key (Reader.Success scriptOnly) =
    lit "<p><script>alert(1)</script></p>" /\
    includes (lit "<script>")
             (Reader.formatContent D key (Reader.Success scriptOnly)) = true /\
    Reader.formatContent MiniDom.host key
      (Reader.Success (lit "<div>a</div>" ++ scriptOnly)) = lit "<div>a</div>" /\
    (forall content,
        content <> [] -> markdownBranch content -> plainText content ->
        includes (lit "<script>") content = true ->
        Reader.formatContent D key (Reader.Success content) =
        lit "<p>" ++ content ++ lit "</p>" /\
        includes (lit "<script>")
                 (Reader.formatContent D key (Reader.Success content)) = true).
Proof.
  intros D key.
  assert (E : Reader.formatContent D key (Reader.Success scriptOnly) =
              lit "<p><script>alert(1)</script></p>")
    by (vm_compute; reflexivity).
  rewrite E.
  split; [vm_compute; reflexivity |].
  split; [reflexivity |].
  split; [vm_compute; reflexivity |].
  split; [vm_compute; reflexivity |].
  intros content Hne Hbranch Hplain Hscript.
  rewrite formatContent_markdownBranch by assumption.
  rewrite markdownToHtml_plain by assumption.
  split; [reflexivity |].
  destruct (includes_inv _ _ Hscript) as (a & b & ->).
  rewrite <- !app_assoc. rewrite (app_assoc (lit "<p>") a).
  apply includes_app.
Qed.

Lemma formatContent_keeps_script_in_markdown_branch_witness :
  scriptOnly <> [] /\ markdownBranch scriptOnly /\ plainText scriptOnly /\
  includes (lit "<script>")
           (Reader.formatContent MiniDom.host [] (Reader.Success scriptOnly)) =
  true.
Proof.
  assert (H1 : scriptOnly <> []) by discriminate.
  assert (H2 : markdownBranch scriptOnly) by (repeat split).
  assert (H3 : plainText scriptOnly).
  { intros c Hc. vm_compute in Hc.
    repeat (destruct Hc as [<- | Hc]; [repeat split; discriminate |]).
    destruct Hc. }
  split; [exact H1 |]. split; [exact H2 |]. split; [exact H3 |].
  destruct (formatContent_keeps_script_in_markdown_branch MiniDom.host [])
    as (_ & _ & _ & _ & H).
  apply (H scriptOnly H1 H2 H3). reflexivity.
Defined.

(** ** The content fetcher *)

(** C2: [fetchArticleContent] returns a value for every outcome of the
    request, and the value is one of the two objects of the source, read
    here through the fields that [formatContent] reads.  [success] is
    true, with the body as [content], exactly when the service answered
    with a status in 200..299 and a body that is not blank after
    trimming.  In every other case [success] is false and [error] holds
    the reason: the text of the status (401, 429, or HTTP status: text)
    for a non-success status, the empty-response text for a blank body,
    and the message of the error for a rejected request, a body that
    cannot be read or a malformed address. *)
Theorem fetchArticleContent_resolves_to_success_or_failure :
  forall (P : Reader.Platform) (key url : jsstring),
    let result := Reader.fetchArticleContent P key url in
    ((exists body,
         result = Reader.Success body /\
         Reader.success result = true /\
         Reader.content result = Reader.JString body /\
         Reader.error result = None) \/
     (exists reason,
         result = Reader.Failure reason /\
         Reader.success result = false /\
         Reader.content result = Reader.JUndefined /\
         Reader.error result = Some reason)) /\
    (forall body,
        (Reader.success result = true /\
         Reader.content result = Reader.JString body) <->
        exists status statusText,
          responds P key url status statusText (Reader.BodyText body) /\
          Reader.ok status = true /\ trim body <> []) /\
    (forall status statusText body,
        responds P key url status statusText body ->
        Reader.ok status = false ->
        Reader.success result = false /\
        Reader.error result = Some (statusReason status statusText) /\
        statusReason status statusText <> []) /\
    (forall status statusText body,
        responds P key url status statusText (Reader.BodyText body) ->
        Reader.ok status = true ->
        trim body = [] ->
        Reader.success result = false /\
        Reader.error result = Some Reader.emptyResponse /\
        Reader.emptyResponse <> []) /\
    (forall status statusText message,
        responds P key url status statusText (Reader.BodyRejected message) ->
        Reader.ok status = true ->
        Reader.success result = false /\
        Reader.error result = Some message) /\
    (forall encoded message,
        encodeURIComponent url = Some encoded ->
        Reader.fetch P (Reader.buildRequest key encoded) =
          Reader.FetchRejected message ->
        Reader.success result = false /\
        Reader.error result = Some message) /\
    (encodeURIComponent url = None ->
     Reader.success result = false /\
     Reader.error result = Some (Reader.uriErrorMessage P)).
Proof.
  intros P key url result.
  assert (V : forall r,
             (exists body, r = Reader.Success body) \/
             (exists reason, r = Reader.Failure reason) ->
             (exists body,
                 r = Reader.Success body /\
                 Reader.success r = true /\
                 Reader.content r = Reader.JString body /\
                 Reader.error r = None) \/
             (exists reason,
                 r = Reader.Failure reason /\
                 Reader.success r = false /\
                 Reader.content r = Reader.JUndefined /\
                 Reader.error r = Some reason)).
  { intros r [[body ->] | [reason ->]]; [left | right]; eexists;
      repeat split. }
  assert (Hreq : forall encoded message,
             encodeURIComponent url = Some encoded ->
             Reader.fetch P (Reader.buildRequest key encoded) =
               Reader.FetchRejected message ->
             Reader.success result = false /\
             Reader.error result = Some message).
  { intros encoded message He Hf. subst result.
    unfold Reader.fetchArticleContent. rewrite He, Hf. split; reflexivity. }
  assert (Huri : encodeURIComponent url = None ->
                 Reader.success result = false /\
                 Reader.error result = Some (Reader.uriErrorMessage P)).
  { intros He. subst result.
    unfold Reader.fetchArticleContent. rewrite He. split; reflexivity. }
  destruct (fetchArticleContent_unanswered P key url)
    as [(status & statusText & body & R) | (Hnone & reason & E)].
  - (* the service answered *)
    assert (E : result = _)
      by exact (fetchArticleContent_answered P key url status statusText body R).
    assert (U : forall st stt b,
               responds P key url st stt b ->
               st = status /\ stt = statusText /\ b = body)
      by (intros st stt b R'; exact (responds_functional _ _ _ _ _ _ _ _ _ R' R)).
    split; [| split; [| split; [| split; [| split; [| split]]]]].
    + apply V. rewrite E. destruct (Reader.ok status).
      * destruct body as [text | message].
        -- destruct (trim text); [right | left]; eexists; reflexivity.
        -- right. eexists. reflexivity.
      * right. eexists. reflexivity.
    + intros text. rewrite E. split.
      * intros [Hs Hc]. destruct (Reader.ok status) eqn:Eok; [| discriminate Hs].
        destruct body as [text' | message]; [| discriminate Hs].
        destruct (trim text') as [| c t] eqn:Et; [discriminate Hs |].
        injection Hc as <-. exists status, statusText.
        split; [exact R |]. split; [exact Eok |]. rewrite Et. discriminate.
      * intros (st & stt & Hr & Hok & Hne).
        apply U in Hr. destruct Hr as (-> & -> & <-). rewrite Hok.
        destruct (trim text); [contradiction | split; reflexivity].
    + intros st stt b Hr Hok.
      apply U in Hr. destruct Hr as (-> & -> & ->). rewrite E, Hok.
      split; [reflexivity |].
      split; [reflexivity | apply statusReason_nonempty].
    + intros st stt text Hr Hok Hblank.
      apply U in Hr. destruct Hr as (-> & -> & <-). rewrite E, Hok, Hblank.
      split; [reflexivity |]. split; [reflexivity | discriminate].
    + intros st stt message Hr Hok.
      apply U in Hr. destruct Hr as (-> & -> & <-). rewrite E, Hok.
      split; reflexivity.
    + exact Hreq.
    + exact Huri.
  - (* no answer: a URIError or a rejected [fetch] *)
    fold result in E.
    split; [| split; [| split; [| split; [| split; [| split]]]]].
    + apply V. right. exists reason. exact E.
    + intros text. rewrite E. split.
      * intros [Hs _]. discriminate Hs.
      * intros (st & stt & Hr & _). destruct (Hnone _ _ _ Hr).
    + intros st stt b Hr. destruct (Hnone _ _ _ Hr).
    + intros st stt text Hr. destruct (Hnone _ _ _ Hr).
    + intros st stt message Hr. destruct (Hnone _ _ _ Hr).
    + exact Hreq.
    + exact Huri.
Qed.

Lemma fetchArticleContent_resolves_to_success_or_failure_witness :
  responds unauthorized [] sampleUrl 401 (lit "Unauthorized") (Reader.BodyText []) /\
  Reader.ok 401 = false /\
  Reader.success (Reader.fetchArticleContent unauthorized [] sampleUrl) = false /\
  Reader.error (Reader.fetchArticleContent unauthorized [] sampleUrl) =
  Some Reader.authenticationFailed.
Proof.
  assert (R : responds unauthorized [] sampleUrl 401 (lit "Unauthorized")
                       (Reader.BodyText [])).
  { eexists. split; [vm_compute; reflexivity | reflexivity]. }
  split; [exact R |]. split; [reflexivity |].
  destruct (fetchArticleContent_resolves_to_success_or_failure
              unauthorized [] sampleUrl) as (_ & _ & H & _).
  destruct (H 401%N (lit "Unauthorized") (Reader.BodyText []) R eq_refl)
    as (Hs & He & _).
  split; [exact Hs | exact He].
Defined.

(** ** The block for a failed authentication *)

(** C3, as the specification states it, fails: with no API key configured
    the block rendered for a 401 names the authentication failure but does
    not mention the embedded view. *)
Lemma unauthorized_block_lacks_embedded_view :
  responds unauthorized [] sampleUrl 401 (lit "Unauthorized") (Reader.BodyText []) /\
  includes (lit "Authentication")
           (Reader.extractContent unauthorized MiniDom.host [] sampleUrl) = true /\
  includes (lit "embedded view")
           (Reader.extractContent unauthorized MiniDom.host [] sampleUrl) = false /\
  includes (lit "mbed")
           (Reader.extractContent unauthorized MiniDom.host [] sampleUrl) = false.
Proof.
  split.
  - eexists. split; [vm_compute; reflexivity | reflexivity].
  - repeat split; vm_compute; reflexivity.
Qed.

(** C3, amended: when the extraction fails with HTTP 401 the rendered
    block is the Unable to load article content block with the
    authentication reason, so it contains the word Authentication; the
    sentence that suggests the embedded view is the default text of that
    block, shown only for a failure without a reason, and is absent here.
    The tip about an API key is shown exactly when no key is configured. *)
Theorem unauthorized_block_names_authentication :
  forall (P : Reader.Platform) (D : HostDOM) (key url statusText : jsstring)
         (body : Reader.BodyOutcome),
    responds P key url 401 statusText body ->
    let out := Reader.extractContent P D key url in
    out = Reader.unableToLoad key (Some Reader.authenticationFailed) /\
    includes (lit "Unable to load article content") out = true /\
    includes (lit "Authentication") out = true /\
    includes (lit "embedded view") out = false /\
    includes (lit "Tip: Add a free Jina API key") out = negb (truthy key) /\
    includes (lit "embedded view")
             (Reader.formatContent D key failureWithoutReason) = true.
Proof.
  intros P D key url statusText body R out.
  assert (E : out = Reader.unableToLoad key (Some Reader.authenticationFailed)).
  { subst out. unfold Reader.extractContent.
    rewrite (fetchArticleContent_answered P key url 401 statusText body R).
    reflexivity. }
  rewrite E. split; [reflexivity |].
  destruct key as [| c key']; repeat split; vm_compute; reflexivity.
Qed.

Lemma unauthorized_block_names_authentication_witness :
  responds unauthorized [] sampleUrl 401 (lit "Unauthorized") (Reader.BodyText []) /\
  includes (lit "Authentication")
           (Reader.extractContent unauthorized MiniDom.host [] sampleUrl) = true.
Proof.
  assert (R : responds unauthorized [] sampleUrl 401 (lit "Unauthorized")
                       (Reader.BodyText [])).
  { eexists. split; [vm_compute; reflexivity | reflexivity]. }
  split; [exact R |].
  apply (unauthorized_block_names_authentication
           unauthorized MiniDom.host [] sampleUrl (lit "Unauthorized")
           (Reader.BodyText []) R).
Defined.

(** ** Empty, missing and blank input *)




(** ** Image tokens *)

(** C5: on the image token [![alt](url)] the link pattern, which runs
    before the image pattern, rewrites the bracket part into an anchor;
    the image pattern then finds nothing, and the output holds no image
    element; so it is for every alternative text and address made of
    token text.  An image with an empty alternative text, which the link
    pattern cannot match, becomes an image element. *)
Theorem markdownToHtml_turns_image_token_into_anchor :
  Reader.markdownToHtml (Some imageToken) =
  sq "<p>!<a href='url' target='_blank' rel='noopener noreferrer'>alt</a></p>" /\
  includes imageElement (Reader.markdownToHtml (Some imageToken)) = false /\
  includes (lit "<img") (Reader.markdownToHtml (Some imageToken)) = false /\
  Reader.markdownToHtml (Some (lit "![](url)")) =
  sq "<p><img src='url' alt='' loading='lazy'></p>" /\
  (forall alt url,
      alt <> [] -> url <> [] -> tokenText alt -> tokenText url ->
      Reader.markdownToHtml (Some (imageTokenOf alt url)) =
      lit "<p>" ++ anchorAfterBang alt url ++ lit "</p>").
Proof.
  split; [vm_compute; reflexivity |].
  split; [vm_compute; reflexivity |].
  split; [vm_compute; reflexivity |].
  split; [vm_compute; reflexivity |].
  exact markdownToHtml_image_token.
Qed.

Lemma markdownToHtml_turns_image_token_into_anchor_witness :
  tokenText (lit "a cat") /\ tokenText (lit "http://a/cat.png") /\
  Reader.markdownToHtml (Some (lit "![a cat](http://a/cat.png)")) =
  sq "<p>!<a href='http://a/cat.png' target='_blank' rel='noopener noreferrer'>a cat</a></p>".
Proof.
  assert (Ha : tokenText (lit "a cat")).
  { intros c Hc. apply not_In_by_existsb. vm_compute in Hc.
    repeat (destruct Hc as [<- | Hc]; [reflexivity |]). destruct Hc. }
  assert (Hu : tokenText (lit "http://a/cat.png")).
  { intros c Hc. apply not_In_by_existsb. vm_compute in Hc.
    repeat (destruct Hc as [<- | Hc]; [reflexivity |]). destruct Hc. }
  split; [exact Ha |]. split; [exact Hu |].
  destruct markdownToHtml_turns_image_token_into_anchor as (_ & _ & _ & _ & H).
  apply (H (lit "a cat") (lit "http://a/cat.png"));
    [discriminate | discriminate | exact Ha | exact Hu].
Defined.

(** ** Link tokens *)




(** ** Running the sanitiser twice *)

(** C7, as the specification states it, fails: markup that is nothing but
    a script element is parsed to that one element, the loop detaches it,
    and the empty tree is read back as the empty string; on the empty
    string the second run takes the early return and answers with the
    placeholder. *)
Lemma parseContent_twice_differs_on_script_only_markup :
  MiniDom.parse scriptElement =
  [Element (lit "script") [] [Text (lit "x")]] /\
  Reader.parseContent MiniDom.host (Some scriptElement) = [] /\
  Reader.parseContent MiniDom.host
    (Some (Reader.parseContent MiniDom.host (Some scriptElement))) =
  Reader.noContent /\
  Reader.parseContent MiniDom.host
    (Some (Reader.parseContent MiniDom.host (Some scriptElement))) <>
  Reader.parseContent MiniDom.host (Some scriptElement).
Proof.
  repeat split; try (vm_compute; reflexivity).
  vm_compute. discriminate.
Qed.

(** C7, amended: on the tree the script and style removal is idempotent,
    a second pass of the two loops detaches nothing.  On markup the second
    run begins by handing the first result to the browser again, and what
    the browser makes of it is not decided by the code.
    [parseContent (parseContent h)] equals [parseContent h] whenever the
    first result is not the empty string and the browser reads it back
    unchanged, finding no script or style element in it (second part).
    This is so, in particular, whenever the browser parses the markup of
    the stripped tree back to that tree with adjacent text nodes joined,
    as for a script that stood between two texts, and serialises joined
    text like the separate nodes (third part). *)
Theorem parseContent_idempotent_on_stripped_tree :
  (forall f : list Node, strip (strip f) = strip f) /\
  (forall (D : HostDOM) (h : option jsstring),
      let once := Reader.parseContent D h in
      once <> [] ->
      serializeFragment D (parseFragment D once) = once ->
      countForest (lit "script") (parseFragment D once) = 0 ->
      countForest (lit "style") (parseFragment D once) = 0 ->
      Reader.parseContent D (Some once) = once) /\
  (forall (D : HostDOM) (h : jsstring),
      let stripped := strip (parseFragment D h) in
      h <> [] ->
      serializeFragment D stripped <> [] ->
      parseFragment D (serializeFragment D stripped) = normalize stripped ->
      serializeFragment D (normalize stripped) =
        serializeFragment D stripped ->
      Reader.parseContent D (Some (Reader.parseContent D (Some h))) =
      Reader.parseContent D (Some h)).
Proof.
  assert (G : forall (D : HostDOM) (s : jsstring),
             s <> [] ->
             serializeFragment D (parseFragment D s) = s ->
             countForest (lit "script") (parseFragment D s) = 0 ->
             countForest (lit "style") (parseFragment D s) = 0 ->
             Reader.parseContent D (Some s) = s).
  { intros D s Hs Hround H1 H2.
    destruct s as [| c s]; [contradiction |].
    cbn [Reader.parseContent]. rewrite (strip_nothing _ H1 H2).
    exact Hround. }
  split; [exact strip_idempotent |]. split.
  - intros D h once. apply G.
  - intros D h stripped Hh Hout Hparse Hser.
    destruct h as [| c h]; [contradiction |].
    cbn [Reader.parseContent]. fold stripped.
    destruct (strip_clean (parseFragment D (c :: h))) as [C1 C2].
    fold stripped in C1, C2.
    apply G.
    + exact Hout.
    + rewrite Hparse. exact Hser.
    + rewrite Hparse, countForest_normalize. exact C1.
    + rewrite Hparse, countForest_normalize. exact C2.
Qed.

Lemma parseContent_idempotent_on_stripped_tree_witness :
  strip (MiniDom.parse textAroundScript) = [Text (lit "a"); Text (lit "b")] /\
  MiniDom.parse (lit "ab") = [Text (lit "ab")] /\
  Reader.parseContent MiniDom.host (Some textAroundScript) = lit "ab" /\
  Reader.parseContent MiniDom.host
    (Some (Reader.parseContent MiniDom.host (Some textAroundScript))) =
  Reader.parseContent MiniDom.host (Some textAroundScript).
Proof.
  split; [vm_compute; reflexivity |].
  split; [vm_compute; reflexivity |].
  split; [vm_compute; reflexivity |].
  apply (proj2 (proj2 parseContent_idempotent_on_stripped_tree)
               MiniDom.host textAroundScript).
  - discriminate.
  - vm_compute. discriminate.
  - vm_compute. reflexivity.
  - vm_compute. reflexivity.
Defined.

(** ** The search history *)



(** ** Closing the article modal *)

(** C9: whatever the state before, after [closeArticleModal] the frame
    shows [about:blank] and no article is current; the overlay is hidden
    and the search history is untouched. *)
Theorem closeArticleModal_blanks_frame_and_clears_article :
  forall st : UI.State,
    UI.articleFrameSrc (UI.closeArticleModal st) = lit "about:blank" /\
    UI.currentArticle (UI.closeArticleModal st) = None /\
    UI.modalOverlayActive (UI.closeArticleModal st) = false /\
    UI.searchHistory (UI.closeArticleModal st) = UI.searchHistory st.
Proof.
  intros st. repeat split.
Qed.

(** ** Unusable content *)

(** C10: a successful result whose content is missing, empty or not a
    string is answered with the non-empty Invalid content format block,
    which suggests the embedded view; neither the host nor the markdown
    converter is consulted. *)
Theorem formatContent_rejects_unusable_content :
  forall (D : HostDOM) (key : jsstring) (cd : Reader.ContentData),
    Reader.success cd = true ->
    missingEmptyOrNotString (Reader.content cd) ->
    Reader.formatContent D key cd = Reader.invalidContent /\
    includes (lit "Invalid content format") (Reader.formatContent D key cd) = true /\
    includes (lit "Please try the embedded view") (Reader.formatContent D key cd) = true /\
    Reader.formatContent D key cd <> [].
Proof.
  intros D key cd Hs Hc.
  assert (E : Reader.formatContent D key cd = Reader.invalidContent).
  { unfold Reader.formatContent. rewrite Hs. cbn [negb].
    destruct Hc as [H | [H | H]].
    - rewrite H. reflexivity.
    - rewrite H. reflexivity.
    - destruct (Reader.content cd) as [ | | b | n | s | ];
        try (cbn [Reader.typeofString negb]; rewrite orb_true_r; reflexivity).
      exfalso. apply (H s). reflexivity. }
  rewrite E. repeat split; try (vm_compute; reflexivity).
  discriminate.
Qed.

Lemma formatContent_rejects_unusable_content_witness :
  Reader.formatContent MiniDom.host []
    numericContent = Reader.invalidContent.
Proof.
  apply (formatContent_rejects_unusable_content MiniDom.host []
           numericContent).
  - reflexivity.
  - right. right. intros s. discriminate.
Defined.

(** * Further properties of the code *)

(** ** Text helpers *)

Lemma truncateText_cut :
  forall text maxLength,
    maxLength < length text ->
    UI.truncateText text maxLength = firstn maxLength text ++ lit "...".
Proof.
  intros text maxLength H. unfold UI.truncateText.
  destruct text as [| c t]; [simpl in H; lia |].
  cbn [truthy negb].
  destruct (Nat.leb (length (c :: t)) maxLength) eqn:E; [| reflexivity].
  apply Nat.leb_le in E. lia.
Qed.

Lemma truncateText_whole :
  forall text maxLength,
    length text <= maxLength -> UI.truncateText text maxLength = text.
Proof.
  intros text maxLength H. unfold UI.truncateText.
  destruct text as [| c t]; [reflexivity |].
  cbn [truthy negb].
  apply Nat.leb_le in H. rewrite H. reflexivity.
Qed.

(** X1: [truncateText] never returns more than [maxLength + 3] code units
    and keeps the first [maxLength] code units of the text; the result is
    longer than the text exactly when the text is one or two code units
    over the limit. *)
Theorem truncateText_length_and_prefix :
  forall text maxLength,
    length (UI.truncateText text maxLength) <= maxLength + 3 /\
    firstn maxLength (UI.truncateText text maxLength) = firstn maxLength text /\
    (length text < length (UI.truncateText text maxLength) <->
     maxLength < length text < maxLength + 3).
Proof.
  intros text maxLength.
  destruct (Nat.le_gt_cases (length text) maxLength) as [H | H].
  - rewrite (truncateText_whole text maxLength H).
    split; [lia |]. split; [reflexivity |]. lia.
  - rewrite (truncateText_cut text maxLength H).
    assert (L : length (firstn maxLength text) = maxLength)
      by (rewrite length_firstn; lia).
    split; [| split].
    + rewrite length_app, L. simpl. lia.
    + rewrite firstn_app, L, Nat.sub_diag, firstn_firstn, Nat.min_id.
      simpl. apply app_nil_r.
    + rewrite length_app, L. simpl. lia.
Qed.

(** X2: truncating a truncated text to the same length changes nothing. *)
Theorem truncateText_idempotent :
  forall text maxLength,
    UI.truncateText (UI.truncateText text maxLength) maxLength =
    UI.truncateText text maxLength.
Proof.
  intros text maxLength.
  destruct (Nat.le_gt_cases (length text) maxLength) as [H | H].
  - rewrite (truncateText_whole text maxLength H).
    apply truncateText_whole. exact H.
  - rewrite (truncateText_cut text maxLength H).
    assert (L : length (firstn maxLength text) = maxLength)
      by (rewrite length_firstn; lia).
    rewrite truncateText_cut.
    + rewrite firstn_app, L, Nat.sub_diag, firstn_firstn, Nat.min_id.
      simpl. rewrite app_nil_r. reflexivity.
    + rewrite length_app, L. simpl. lia.
Qed.

Lemma serializesText_host : serializesText MiniDom.host.
Proof.
  split; [reflexivity |].
  intros data. cbn. apply app_nil_r.
Qed.

Lemma escapeHtml_escape :
  forall D, serializesText D ->
  forall text, UI.escapeHtml D text = MiniDom.escape false text.
Proof.
  intros D [H0 H1] text. unfold UI.escapeHtml.
  destruct text as [| c t]; [exact H0 | apply H1].
Qed.

Lemma escape_cons :
  forall c t,
    MiniDom.escape false (c :: t) =
    MiniDom.escape false [c] ++ MiniDom.escape false t.
Proof.
  intros c t. unfold MiniDom.escape. cbn [flat_map].
  rewrite app_nil_r. reflexivity.
Qed.

(** The escaped form of one code unit. *)
Lemma escape_one :
  forall c,
    (c = 38%N /\ MiniDom.escape false [c] = lit "&amp;") \/
    (c = 160%N /\ MiniDom.escape false [c] = lit "&nbsp;") \/
    (c = 60%N /\ MiniDom.escape false [c] = lit "&lt;") \/
    (c = 62%N /\ MiniDom.escape false [c] = lit "&gt;") \/
    (c <> 38%N /\ c <> 160%N /\ c <> 60%N /\ c <> 62%N /\
     MiniDom.escape false [c] = [c]).
Proof.
  intros c. unfold MiniDom.escape. cbn [flat_map]. rewrite app_nil_r.
  destruct (N.eqb c 38) eqn:E1; [apply N.eqb_eq in E1; auto |].
  destruct (N.eqb c 160) eqn:E2; [apply N.eqb_eq in E2; auto |].
  destruct (N.eqb c 60) eqn:E3; [apply N.eqb_eq in E3; auto 6 |].
  destruct (N.eqb c 62) eqn:E4; [apply N.eqb_eq in E4; auto 6 |].
  apply N.eqb_neq in E1, E2, E3, E4. auto 10.
Qed.

(** X3: on a host that serialises text as the standard prescribes, the
    result of [escapeHtml] holds neither [<] nor [>], and as many double
    quotes and apostrophes as the text: quotes are not escaped. *)
Theorem escapeHtml_removes_angle_brackets_keeps_quotes :
  forall D, serializesText D ->
  forall text,
    ~ In 60%N (UI.escapeHtml D text) /\
    ~ In 62%N (UI.escapeHtml D text) /\
    count_occ N.eq_dec (UI.escapeHtml D text) 34%N =
      count_occ N.eq_dec text 34%N /\
    count_occ N.eq_dec (UI.escapeHtml D text) 39%N =
      count_occ N.eq_dec text 39%N.
Proof.
  intros D HD text. rewrite (escapeHtml_escape D HD).
  induction text as [| c t IH].
  - simpl. tauto.
  - rewrite escape_cons.
    destruct IH as (I1 & I2 & I3 & I4).
    rewrite !in_app_iff, !count_occ_app, I3, I4.
    destruct (escape_one c) as [[-> E] | [[-> E] | [[-> E] | [[-> E] | (n1 & n2
        & n3 & n4 & E)]]]];
      rewrite E.
    1-4: (split; [| split; [| split]];
          [ intros [H | H]; [vm_compute in H; intuition discriminate | tauto]
          | intros [H | H]; [vm_compute in H; intuition discriminate | tauto]
          | reflexivity | reflexivity ]).
    split; [| split; [| split]].
    + intros [[H | []] | H]; [congruence | tauto].
    + intros [[H | []] | H]; [congruence | tauto].
    + change (c :: t) with ([c] ++ t). rewrite count_occ_app. reflexivity.
    + change (c :: t) with ([c] ++ t). rewrite count_occ_app. reflexivity.
Qed.

Lemma escapeHtml_removes_angle_brackets_keeps_quotes_witness :
  serializesText MiniDom.host /\
  UI.escapeHtml MiniDom.host (sq "<b>'Tom' & Co") =
    sq "&lt;b&gt;'Tom' &amp; Co" /\
  ~ In 60%N (UI.escapeHtml MiniDom.host (sq "<b>'Tom' & Co")).
Proof.
  split; [exact serializesText_host |]. split; [reflexivity |].
  exact (proj1 (escapeHtml_removes_angle_brackets_keeps_quotes
                  MiniDom.host serializesText_host (sq "<b>'Tom' & Co"))).
Defined.

Lemma find_all_false :
  forall (A : Type) (p : A -> bool) l,
    (forall x, In x l -> p x = false) -> find p l = None.
Proof.
  intros A p l H. induction l as [| x l IH]; [reflexivity |].
  simpl. rewrite (H x (or_introl eq_refl)).
  apply IH. intros y Hy. apply H. right. exact Hy.
Qed.

Lemma references_start_with_ampersand :
  forall r, In r MiniDom.references -> exists n, fst r = 38%N :: n.
Proof.
  intros r H. unfold MiniDom.references in H. simpl in H.
  repeat (destruct H as [<- | H]; [eexists; reflexivity |]).
  destruct H.
Qed.

Lemma decode_plain_head :
  forall c s, c <> 38%N -> MiniDom.decode 0 (c :: s) = c :: MiniDom.decode 0 s.
Proof.
  intros c s H. cbn [MiniDom.decode].
  rewrite find_all_false; [reflexivity |].
  intros r Hr. destruct (references_start_with_ampersand r Hr) as [n ->].
  cbn [startsWith]. apply N.eqb_neq in H. rewrite N.eqb_sym, H. reflexivity.
Qed.

Lemma decode_escape :
  forall text, MiniDom.decode 0 (MiniDom.escape false text) = text.
Proof.
  induction text as [| c t IH]; [reflexivity |].
  rewrite escape_cons.
  destruct (escape_one c) as [[-> E] | [[-> E] | [[-> E] | [[-> E] | (n1 & n2 &
      n3 & n4 & E)]]]];
    rewrite E.
  1-4: (cbn; rewrite IH; reflexivity).
  cbn [app]. rewrite (decode_plain_head c _ n1), IH. reflexivity.
Qed.

(** X4: on such a host [escapeHtml] loses nothing: two texts with the
    same escaped form are the same text. *)
Theorem escapeHtml_injective :
  forall D, serializesText D ->
  forall a b, UI.escapeHtml D a = UI.escapeHtml D b -> a = b.
Proof.
  intros D HD a b H. rewrite !(escapeHtml_escape D HD) in H.
  rewrite <- (decode_escape a), <- (decode_escape b), H. reflexivity.
Qed.

Lemma escapeHtml_injective_witness :
  serializesText MiniDom.host /\
  UI.escapeHtml MiniDom.host (lit "a<b") = lit "a&lt;b" /\
  lit "a<b" = lit "a<b".
Proof.
  split; [exact serializesText_host |]. split; [reflexivity |].
  apply (escapeHtml_injective MiniDom.host serializesText_host
                              (lit "a<b") (lit "a<b")).
  reflexivity.
Defined.

Lemma decimalZ_negative :
  forall z, (z < 0)%Z -> exists rest, decimalZ z = 45%N :: rest.
Proof.
  intros z H. destruct z as [| p | p]; try lia.
  eexists. reflexivity.
Qed.

(** X5: for a date less than seven days in the past, [formatDate] shows
    whole minutes below one hour (0 to 59), whole hours below one day
    (1 to 23) and whole days from then on (1 to 6). *)
Theorem formatDate_relative_units :
  forall C dateString date,
    UI.parseDate C dateString = Some date ->
    (0 <= UI.now C - date < 604800000)%Z ->
    let age := (UI.now C - date)%Z in
    ((age < 3600000)%Z ->
     UI.formatDate C dateString = decimalZ (age / 60000) ++ lit "m ago" /\
     (0 <= age / 60000 < 60)%Z) /\
    ((3600000 <= age < 86400000)%Z ->
     UI.formatDate C dateString = decimalZ (age / 3600000) ++ lit "h ago" /\
     (1 <= age / 3600000 < 24)%Z) /\
    ((86400000 <= age)%Z ->
     UI.formatDate C dateString = decimalZ (age / 86400000) ++ lit "d ago" /\
     (1 <= age / 86400000 < 7)%Z).
Proof.
  intros C dateString date HP HR age.
  unfold UI.formatDate. rewrite HP. cbv zeta. fold age.
  change (1000 * 60 * 60)%Z with 3600000%Z.
  change (1000 * 60)%Z with 60000%Z.
  assert (HD : (age / 3600000 / 24 = age / 86400000)%Z)
    by (rewrite Z.div_div by lia; reflexivity).
  rewrite HD.
  split; [| split]; intros H.
  - assert (A : (0 <= age / 60000 < 60)%Z)
      by (split; [apply Z.div_pos; lia | apply Z.div_lt_upper_bound; lia]).
    destruct (Z.ltb_spec (age / 60000) 60); [| lia].
    split; [reflexivity | exact A].
  - assert (A : (60 <= age / 60000)%Z) by (apply Z.div_le_lower_bound; lia).
    assert (B : (1 <= age / 3600000 < 24)%Z)
      by (split; [apply Z.div_le_lower_bound; lia
                 | apply Z.div_lt_upper_bound; lia]).
    destruct (Z.ltb_spec (age / 60000) 60); [lia |].
    destruct (Z.ltb_spec (age / 3600000) 24); [| lia].
    split; [reflexivity | exact B].
  - assert (A : (60 <= age / 60000)%Z) by (apply Z.div_le_lower_bound; lia).
    assert (B : (24 <= age / 3600000)%Z) by (apply Z.div_le_lower_bound; lia).
    assert (E : (1 <= age / 86400000 < 7)%Z)
      by (split; [apply Z.div_le_lower_bound; lia
                 | apply Z.div_lt_upper_bound; lia]).
    destruct (Z.ltb_spec (age / 60000) 60); [lia |].
    destruct (Z.ltb_spec (age / 3600000) 24); [lia |].
    destruct (Z.ltb_spec (age / 86400000) 7); [| lia].
    split; [reflexivity | exact E].
Qed.

Lemma formatDate_relative_units_witness :
  UI.parseDate sampleClock (lit "2025-12-31T21:30:00Z") = Some 1767216600000%Z
      /\
  (0 <= UI.now sampleClock - 1767216600000 < 604800000)%Z /\
  UI.formatDate sampleClock (lit "2025-12-31T21:30:00Z") = lit "2h ago".
Proof.
  assert (R : (0 <= UI.now sampleClock - 1767216600000 < 604800000)%Z)
    by (simpl; lia).
  split; [reflexivity |]. split; [exact R |].
  destruct (formatDate_relative_units sampleClock (lit "2025-12-31T21:30:00Z")
              1767216600000%Z eq_refl R) as (_ & H & _).
  apply H. simpl. lia.
Defined.

(** X6: a date in the future, however far ahead, is shown as a negative
    number of minutes: the text begins with the minus sign and ends with
    [m ago]. *)
Theorem formatDate_future_date_counts_negative_minutes :
  forall C dateString date,
    UI.parseDate C dateString = Some date ->
    (UI.now C < date)%Z ->
    (date - UI.now C < 2 ^ 53)%Z ->
    ((UI.now C - date) / 60000 < 0)%Z /\
    UI.formatDate C dateString =
      decimalZ ((UI.now C - date) / 60000) ++ lit "m ago" /\
    hd_error (UI.formatDate C dateString) = Some 45%N.
Proof.
  intros C dateString date HP HF _.
  assert (A : ((UI.now C - date) / 60000 < 0)%Z)
    by (apply Z.div_lt_upper_bound; lia).
  assert (E : UI.formatDate C dateString =
              decimalZ ((UI.now C - date) / 60000) ++ lit "m ago").
  { unfold UI.formatDate. rewrite HP. cbv zeta.
    change (1000 * 60)%Z with 60000%Z.
    destruct (Z.ltb_spec ((UI.now C - date) / 60000) 60); [reflexivity | lia]. }
  split; [exact A |]. split; [exact E |].
  rewrite E. destruct (decimalZ_negative _ A) as [rest ->]. reflexivity.
Qed.

Lemma formatDate_future_date_counts_negative_minutes_witness :
  UI.parseDate sampleClock (lit "2026-01-03T00:00:00Z") = Some 1767398400000%Z
      /\
  (UI.now sampleClock < 1767398400000)%Z /\
  UI.formatDate sampleClock (lit "2026-01-03T00:00:00Z") = lit "-2880m ago".
Proof.
  assert (F : (UI.now sampleClock < 1767398400000)%Z) by (simpl; lia).
  split; [reflexivity |]. split; [exact F |].
  destruct (formatDate_future_date_counts_negative_minutes
              sampleClock (lit "2026-01-03T00:00:00Z") 1767398400000%Z
              eq_refl F) as (_ & H & _).
  - simpl. lia.
  - exact H.
Defined.

(** ** The stored text of the history *)

Lemma hexValue_hexLower :
  forall d, (d < 16)%N -> JSON.hexValue (JSON.hexLower d) = Some d.
Proof.
  intros d H.
  assert (E : In d [0; 1; 2; 3; 4; 5; 6; 7; 8; 9; 10; 11; 12; 13; 14; 15]%N).
  { simpl. lia. }
  simpl in E.
  repeat (destruct E as [<- | E]; [reflexivity |]). destruct E.
Qed.

Lemma hex_digits_value :
  forall c, (c < 65536)%N ->
    (c / 4096 * 4096 + (c / 256) mod 16 * 256 + (c / 16) mod 16 * 16 +
     c mod 16 = c)%N.
Proof.
  intros c H.
  pose proof (N.div_mod c 16 ltac:(lia)) as E1.
  pose proof (N.div_mod (c / 16) 16 ltac:(lia)) as E2.
  pose proof (N.div_mod (c / 16 / 16) 16 ltac:(lia)) as E3.
  rewrite N.Div0.div_div in E2, E3. rewrite N.Div0.div_div in E3.
  change (16 * 16)%N with 256%N in *. change (256 * 16)%N with 4096%N in *.
  lia.
Qed.

Lemma parseChars_unicodeEscape :
  forall c rest,
    (c < 65536)%N ->
    JSON.parseChars (JSON.unicodeEscape c ++ rest) =
    option_map (JSON.prepend c) (JSON.parseChars rest).
Proof.
  intros c rest H. unfold JSON.unicodeEscape. cbn [app JSON.parseChars].
  change (N.eqb 92 34) with false. change (N.eqb 92 92) with true.
  change (N.eqb 117 117) with true. cbv iota.
  rewrite !hexValue_hexLower;
    try (apply N.mod_lt; lia);
    try (apply N.Div0.div_lt_upper_bound; lia).
  rewrite hex_digits_value by exact H. reflexivity.
Qed.

Lemma shortEscape_unescape :
  forall c e, JSON.shortEscape c = Some e ->
              N.eqb e 117 = false /\ JSON.unescape e = Some c.
Proof.
  intros c e H. unfold JSON.shortEscape in H.
  repeat match type of H with
         | (if N.eqb c ?k then _ else _) = _ =>
             destruct (N.eqb_spec c k);
             [subst c; injection H as <-; split; reflexivity |]
         end.
  discriminate H.
Qed.

Lemma shortEscape_none :
  forall c, JSON.shortEscape c = None -> c <> 34%N /\ c <> 92%N.
Proof.
  intros c H. split; intros ->; discriminate H.
Qed.

Lemma parseChars_plain :
  forall c rest,
    c <> 34%N -> c <> 92%N -> (32 <= c)%N ->
    JSON.parseChars (c :: rest) =
    option_map (JSON.prepend c) (JSON.parseChars rest).
Proof.
  intros c rest H1 H2 H3. cbn [JSON.parseChars].
  apply N.eqb_neq in H1, H2. rewrite H1, H2.
  destruct (N.ltb_spec c 32); [lia | reflexivity].
Qed.

Lemma surrogate_bounds :
  forall c, isHighSurrogate c = true \/ isLowSurrogate c = true ->
            (32 <= c)%N /\ (c < 65536)%N /\ c <> 34%N /\ c <> 92%N.
Proof.
  intros c [H | H]; unfold isHighSurrogate, isLowSurrogate in H;
    apply andb_true_iff in H; destruct H as [H1 H2];
    apply N.leb_le in H1, H2; repeat split; lia.
Qed.

Lemma parseChars_quoteBody_step :
  forall s,
    (forall rest, JSON.parseChars (JSON.quoteBody s ++ 34%N :: rest) =
                  Some (s, rest)) /\
    (forall c rest,
        JSON.parseChars (JSON.quoteBody (c :: s) ++ 34%N :: rest) =
        Some (c :: s, rest)).
Proof.
  induction s as [| d s [IH1 IH2]].
  - assert (Base : forall rest,
               JSON.parseChars (JSON.quoteBody [] ++ 34%N :: rest) =
               Some ([], rest)) by reflexivity.
    split; [exact Base |].
    intros c rest. cbn [JSON.quoteBody].
    destruct (JSON.shortEscape c) as [e |] eqn:Es.
    + destruct (shortEscape_unescape c e Es) as [Eu Ev].
      cbn [app JSON.parseChars]. change (N.eqb 92 34) with false.
      change (N.eqb 92 92) with true. cbv iota. rewrite Eu, Ev.
      reflexivity.
    + destruct (shortEscape_none c Es) as [N1 N2].
      destruct (N.ltb_spec c 32) as [Hc | Hc].
      * rewrite <- app_assoc, parseChars_unicodeEscape by lia.
        reflexivity.
      * destruct (isHighSurrogate c) eqn:Eh.
        -- destruct (surrogate_bounds c (or_introl Eh)) as (_ & B & _).
           rewrite parseChars_unicodeEscape by exact B. reflexivity.
        -- destruct (isLowSurrogate c) eqn:El.
           ++ destruct (surrogate_bounds c (or_intror El)) as (_ & B & _).
              rewrite <- app_assoc, parseChars_unicodeEscape by exact B.
              reflexivity.
           ++ cbn [app]. rewrite parseChars_plain by assumption. reflexivity.
  - split; [intros rest; apply IH2 |].
    intros c rest.
    change (JSON.quoteBody (c :: d :: s))
      with (match JSON.shortEscape c with
            | Some e => 92%N :: e :: JSON.quoteBody (d :: s)
            | None =>
                if N.ltb c 32 then JSON.unicodeEscape c ++ JSON.quoteBody (d ::
                    s)
                else if isHighSurrogate c then
                  if isLowSurrogate d then c :: d :: JSON.quoteBody s
                  else JSON.unicodeEscape c ++ JSON.quoteBody (d :: s)
                else if isLowSurrogate c
                then JSON.unicodeEscape c ++ JSON.quoteBody (d :: s)
                else c :: JSON.quoteBody (d :: s)
            end).
    destruct (JSON.shortEscape c) as [e |] eqn:Es.
    + destruct (shortEscape_unescape c e Es) as [Eu Ev].
      cbn [app]. 
      change (JSON.parseChars (92%N :: e :: JSON.quoteBody (d :: s) ++ 34%N ::
          rest))
        with (if N.eqb e 117 then
                match JSON.quoteBody (d :: s) ++ 34%N :: rest with
                | h1 :: h2 :: h3 :: h4 :: s4 =>
                    match JSON.hexValue h1, JSON.hexValue h2,
                          JSON.hexValue h3, JSON.hexValue h4 with
                    | Some a, Some b, Some c', Some d0 =>
                        option_map
                          (JSON.prepend (a * 4096 + b * 256 + c' * 16 + d0)%N)
                          (JSON.parseChars s4)
                    | _, _, _, _ => None
                    end
                | _ => None
                end
              else
                match JSON.unescape e with
                | Some v =>
                    option_map (JSON.prepend v)
                      (JSON.parseChars (JSON.quoteBody (d :: s) ++ 34%N ::
                          rest))
                | None => None
                end).
      rewrite Eu, Ev, IH2. reflexivity.
    + destruct (shortEscape_none c Es) as [N1 N2].
      destruct (N.ltb_spec c 32) as [Hc | Hc].
      * rewrite <- app_assoc, parseChars_unicodeEscape by lia.
        rewrite IH2. reflexivity.
      * destruct (isHighSurrogate c) eqn:Eh.
        -- destruct (surrogate_bounds c (or_introl Eh)) as (_ & B & _).
           destruct (isLowSurrogate d) eqn:Ed.
           ++ destruct (surrogate_bounds d (or_intror Ed)) as (D1 & _ & D2 &
               D3).
              cbn [app].
              rewrite parseChars_plain by assumption.
              rewrite parseChars_plain by assumption.
              rewrite IH1. reflexivity.
           ++ rewrite <- app_assoc, parseChars_unicodeEscape by exact B.
              rewrite IH2. reflexivity.
        -- destruct (isLowSurrogate c) eqn:El.
           ++ destruct (surrogate_bounds c (or_intror El)) as (_ & B & _).
              rewrite <- app_assoc, parseChars_unicodeEscape by exact B.
              rewrite IH2. reflexivity.
           ++ cbn [app]. rewrite parseChars_plain by assumption.
              rewrite IH2. reflexivity.
Qed.

Lemma parseChars_quoteBody :
  forall s rest,
    JSON.parseChars (JSON.quoteBody s ++ 34%N :: rest) = Some (s, rest).
Proof. intros s. apply parseChars_quoteBody_step. Qed.

Lemma quote_app :
  forall v tail,
    JSON.quote v ++ tail = 34%N :: JSON.quoteBody v ++ 34%N :: tail.
Proof.
  intros v tail. unfold JSON.quote. cbn [app]. rewrite <- app_assoc.
  reflexivity.
Qed.

Lemma parseElements_quote :
  forall fuel v tail,
    JSON.parseElements (S fuel) (JSON.quote v ++ tail) =
    match JSON.skipWs tail with
    | 44%N :: rest' =>
        option_map (cons v) (JSON.parseElements fuel (JSON.skipWs rest'))
    | 93%N :: rest' =>
        match JSON.skipWs rest' with
        | [] => Some [v]
        | _ :: _ => None
        end
    | _ => None
    end.
Proof.
  intros fuel v tail. rewrite quote_app. cbn [JSON.parseElements].
  rewrite parseChars_quoteBody. reflexivity.
Qed.

Lemma skipWs_quote :
  forall v tail, JSON.skipWs (JSON.quote v ++ tail) = JSON.quote v ++ tail.
Proof. intros v tail. rewrite quote_app. reflexivity. Qed.

Lemma parseElements_stringify :
  forall l v fuel,
    length l < fuel ->
    JSON.parseElements fuel
      (JSON.quote v ++ flat_map (fun x => 44%N :: JSON.quote x) l ++ [93%N]) =
    Some (v :: l).
Proof.
  induction l as [| w l IH]; intros v fuel Hf.
  - destruct fuel as [| fuel]; [simpl in Hf; lia |].
    rewrite parseElements_quote. reflexivity.
  - destruct fuel as [| fuel]; [simpl in Hf; lia |].
    rewrite parseElements_quote. cbn [flat_map app].
    rewrite <- app_assoc.
    change (JSON.skipWs (44%N :: JSON.quote w ++
                         flat_map (fun x => 44%N :: JSON.quote x) l ++ [93%N]))
      with (44%N :: JSON.quote w ++
            flat_map (fun x => 44%N :: JSON.quote x) l ++ [93%N]).
    cbv iota. rewrite skipWs_quote, IH by (simpl in Hf; lia). reflexivity.
Qed.

Lemma length_stringify :
  forall l, length l < length (JSON.stringify l).
Proof.
  intros [| v l]; [simpl; lia |].
  unfold JSON.stringify. cbn [length]. rewrite !length_app. cbn [length].
  assert (H : length l <= length (flat_map (fun x => 44%N :: JSON.quote x) l)).
  { induction l as [| w l IH]; [simpl; lia |].
    cbn [flat_map length]. rewrite length_app. simpl. lia. }
  lia.
Qed.

Lemma parse_stringify :
  forall l, JSON.parse (JSON.stringify l) = Some l.
Proof.
  intros [| v l]; [reflexivity |].
  unfold JSON.parse.
  pose proof (length_stringify (v :: l)) as H.
  unfold JSON.stringify in *.
  change (JSON.skipWs (91%N :: JSON.quote v ++
                       flat_map (fun x => 44%N :: JSON.quote x) l ++ [93%N]))
    with (91%N :: JSON.quote v ++
          flat_map (fun x => 44%N :: JSON.quote x) l ++ [93%N]).
  cbv iota. rewrite skipWs_quote.
  rewrite quote_app at 1. cbv iota. rewrite <- quote_app.
  apply parseElements_stringify.
  change (length (v :: l)) with (S (length l)) in H. lia.
Qed.

(** ** Operations on the search history *)

Section Operations_properties.

Variable toLowerCase : jsstring -> jsstring.
Variable D : HostDOM.

Lemma removeFromSearchHistory_history :
  forall term st dd,
    UI.searchHistory (fst (UI.removeFromSearchHistory toLowerCase D term st dd))
        =
    filter (fun t => negb (jseqb t term)) (UI.searchHistory st).
Proof.
  intros term st dd. unfold UI.removeFromSearchHistory.
  match goal with |- context [if ?b then _ else _] => destruct b end;
    reflexivity.
Qed.

Lemma wellKept_filter :
  forall p h, wellKept toLowerCase h -> wellKept toLowerCase (filter p h).
Proof.
  intros p h [Hlen Hnd]. split.
  - pose proof (filter_length_le p h). lia.
  - apply NoDup_map_filter. exact Hnd.
Qed.

Lemma applyOp_wellKept :
  forall op w,
    wellKept toLowerCase (UI.searchHistory (fst w)) ->
    wellKept toLowerCase
             (UI.searchHistory (fst (applyOp toLowerCase D w op))).
Proof.
  intros [term | term |] w H; cbn [applyOp fst].
  - apply addToSearchHistory_wellKept. exact H.
  - rewrite removeFromSearchHistory_history. apply wellKept_filter. exact H.
  - split; [simpl; lia | constructor].
Qed.

Lemma runOps_snoc :
  forall w ops op,
    runOps toLowerCase D w (ops ++ [op]) =
    applyOp toLowerCase D (runOps toLowerCase D w ops) op.
Proof.
  intros w ops op. unfold runOps. rewrite fold_left_app. reflexivity.
Qed.

Lemma runOps_wellKept :
  forall ops w,
    wellKept toLowerCase (UI.searchHistory (fst w)) ->
    wellKept toLowerCase (UI.searchHistory (fst (runOps toLowerCase D w ops))).
Proof.
  induction ops as [| op ops IH] using rev_ind; intros w H.
  - exact H.
  - rewrite runOps_snoc. apply applyOp_wellKept. apply IH. exact H.
Qed.

Lemma saveSearchHistory_stored :
  forall st, UI.storageWritable st = true -> stored (UI.saveSearchHistory st).
Proof.
  intros st H. unfold stored, UI.saveSearchHistory. cbn. rewrite H.
  split; [reflexivity | left; reflexivity].
Qed.

Lemma applyOp_stored :
  forall op w, stored (fst w) -> stored (fst (applyOp toLowerCase D w op)).
Proof.
  intros [term | term |] w H; cbn [applyOp fst].
  - unfold UI.addToSearchHistory. destruct (UI.ignored term); [exact H |].
    apply saveSearchHistory_stored. apply H.
  - unfold UI.removeFromSearchHistory.
    match goal with |- context [if ?b then _ else _] => destruct b end;
      cbn [fst]; apply saveSearchHistory_stored; apply H.
  - unfold UI.clearSearchHistory. cbn [fst].
    apply saveSearchHistory_stored. apply H.
Qed.

Lemma runOps_stored :
  forall ops w, stored (fst w) -> stored (fst (runOps toLowerCase D w ops)).
Proof.
  induction ops as [| op ops IH] using rev_ind; intros w H.
  - exact H.
  - rewrite runOps_snoc. apply applyOp_stored. apply IH. exact H.
Qed.

Lemma stored_reloaded :
  forall st, stored st -> reloaded st = UI.searchHistory st.
Proof.
  intros st [_ [H | [H1 H2]]]; unfold reloaded, UI.loadSearchHistory;
    cbn [UI.storedHistory UI.setSearchHistory].
  - rewrite H. cbn [option_map]. rewrite parse_stringify.
    destruct (JSON.stringify (UI.searchHistory st)) eqn:E; [| reflexivity].
    destruct (UI.searchHistory st); [reflexivity | discriminate E].
  - rewrite H1, H2. reflexivity.
Qed.

(** X7: whatever additions, removals and clearings are made from the
    empty history, the history holds at most five terms, no two of them
    equal up to case. *)
Theorem history_operations_keep_cap_and_distinctness :
  forall ops dd,
    wellKept toLowerCase
      (UI.searchHistory (fst (runOps toLowerCase D (UI.initial, dd) ops))).
Proof.
  intros ops dd. apply runOps_wellKept.
  split; [simpl; lia | constructor].
Qed.

(** X8: while the store can be written, a fresh page, parsing the text
    that [JSON.stringify] wrote to the store, reads back the history as
    the last operation left it. *)
Theorem history_survives_reload :
  forall ops st dd,
    stored st ->
    reloaded (fst (runOps toLowerCase D (st, dd) ops)) =
    UI.searchHistory (fst (runOps toLowerCase D (st, dd) ops)).
Proof.
  intros ops st dd H. apply stored_reloaded. apply runOps_stored. exact H.
Qed.

Lemma filter_all :
  forall (A : Type) (p : A -> bool) l,
    (forall x, In x l -> p x = true) -> filter p l = l.
Proof.
  intros A p l H. induction l as [| x l IH]; [reflexivity |].
  simpl. rewrite (H x (or_introl eq_refl)). f_equal.
  apply IH. intros y Hy. apply H. right. exact Hy.
Qed.


End Operations_properties.

Lemma history_survives_reload_witness :
  stored UI.initial /\
  reloaded
    (fst (runOps UI.asciiToLowerCase MiniDom.host (UI.initial, closedSuggest)
                 [Add (lit "News"); Add (lit "ai"); Remove (lit "News")])) =
  [lit "ai"].
Proof.
  assert (S : stored UI.initial)
    by (split; [reflexivity | right; split; reflexivity]).
  split; [exact S |].
  rewrite (history_survives_reload UI.asciiToLowerCase MiniDom.host
             [Add (lit "News"); Add (lit "ai"); Remove (lit "News")]
             UI.initial closedSuggest S).
  reflexivity.
Defined.


(** ** The news grid *)

Lemma renderArticles_none_shown :
  forall D C articles g,
    shown articles = [] ->
    UI.renderArticles D C articles g =
    UI.setResultsCount [] (UI.showEmpty (UI.setNewsGrid [] g)).
Proof.
  intros D C articles g H. unfold UI.renderArticles, shown in *.
  destruct articles as [[| a l] |]; try reflexivity.
  rewrite H. reflexivity.
Qed.

Lemma renderArticles_some_shown :
  forall D C articles g,
    shown articles <> [] ->
    UI.renderArticles D C articles g =
    UI.setNewsGrid
      (map (fun article =>
              {| UI.cardClassName := UI.cardClassName (UI.createNewsCard D C
                  article);
                 UI.cardInnerHTML := UI.cardInnerHTML (UI.createNewsCard D C
                     article);
                 UI.cardOpens := UI.cardOpens (UI.createNewsCard D C article);
                 UI.cardOpacity := lit "0";
                 UI.cardTransform := lit "translateY(20px)" |})
           (shown articles))
      (UI.setResultsCount (UI.countLabel (length (shown articles)))
                          (UI.setNewsGrid [] g)).
Proof.
  intros D C articles g H. unfold UI.renderArticles, shown in *.
  destruct articles as [[| a l] |]; try (exfalso; apply H; reflexivity).
  destruct (filter UI.hasTitle (a :: l)) as [| b m] eqn:E;
    [exfalso; apply H; reflexivity |].
  reflexivity.
Qed.


(** ** The handlers of the page *)

Lemma trimStart_split :
  forall s, exists p,
    s = p ++ trimStart s /\ Forall (fun c => isTrimmable c = true) p.
Proof.
  induction s as [| c s (p & E & F)].
  - exists []. split; [reflexivity | constructor].
  - simpl. destruct (isTrimmable c) eqn:Ec.
    + exists (c :: p). split; [simpl; f_equal; exact E |].
      constructor; assumption.
    + exists []. split; [reflexivity | constructor].
Qed.

Lemma trimStart_fixed :
  forall s, s = [] \/ (exists c t, s = c :: t /\ isTrimmable c = false) ->
            trimStart s = s.
Proof.
  intros s [-> | (c & t & -> & H)]; [reflexivity |].
  simpl. rewrite H. reflexivity.
Qed.

Lemma trimStart_shape :
  forall s, trimStart s = [] \/
            exists c t, trimStart s = c :: t /\ isTrimmable c = false.
Proof.
  intros s. destruct (trimStart s) as [| c t] eqn:E; [left; reflexivity |].
  right. exists c, t. split; [reflexivity |].
  apply (trimStart_head s c t E).
Qed.

Lemma trim_shape :
  forall s, trimStart (trim s) = trim s /\ trimStart (rev (trim s)) = rev (trim
      s).
Proof.
  intros s. unfold trim. rewrite rev_involutive.
  split.
  - destruct (trimStart_split (rev (trimStart s))) as (p & E & F).
    destruct (trimStart (rev (trimStart s))) as [| b bs] eqn:Eb; [reflexivity
        |].
    apply trimStart_fixed. right.
    assert (Ea : trimStart s = rev (b :: bs) ++ rev p).
    { rewrite <- (rev_involutive (trimStart s)), E, rev_app_distr. reflexivity.
        }
    destruct (rev (b :: bs)) as [| x xs] eqn:Er.
    { apply (f_equal (@length N)) in Er. rewrite length_rev in Er. discriminate
        Er. }
    exists x, xs. split; [reflexivity |].
    apply (trimStart_head s x (xs ++ rev p)). exact Ea.
  - apply trimStart_fixed. apply trimStart_shape.
Qed.

Lemma trim_idempotent : forall s, trim (trim s) = trim s.
Proof.
  intros s. destruct (trim_shape s) as [H1 H2].
  unfold trim at 1. rewrite H1, H2. apply rev_involutive.
Qed.

Section Page_properties.

Variable toLowerCase : jsstring -> jsstring.
Variable toUpperCase : jsstring -> jsstring.
Variable D : HostDOM.
Variable C : UI.Clock.
Variable API_KEY : jsstring.
Variable P : API.Platform.
Variable typeErrorMessage : jsstring.
Variable resolveUrl : jsstring -> jsstring.

Lemma loadNewsFailed_app_ui :
  forall message w,
    App.app (App.loadNewsFailed API_KEY message w) = App.app w /\
    App.ui (App.loadNewsFailed API_KEY message w) = App.ui w.
Proof.
  intros message w. unfold App.loadNewsFailed.
  repeat match goal with
         | |- context [if ?b then _ else _] => destruct b
         end; split; reflexivity.
Qed.

Lemma loadNewsReturned_app_ui :
  forall data w,
    App.app (App.loadNewsReturned D C API_KEY typeErrorMessage data w) =
      App.app w /\
    App.ui (App.loadNewsReturned D C API_KEY typeErrorMessage data w) =
      App.ui w.
Proof.
  intros data w. unfold App.loadNewsReturned.
  destruct data as [data |].
  - repeat match goal with
           | |- context [if ?b then _ else _] => destruct b
           end; split; reflexivity.
  - cbv zeta. split.
    + etransitivity; [apply (proj1 (loadNewsFailed_app_ui _ _)) | reflexivity].
    + etransitivity; [apply (proj2 (loadNewsFailed_app_ui _ _)) | reflexivity].
Qed.

(** The first part of a load changes the grid and nothing else. *)
Lemma loadNewsStarted_page :
  forall w,
    fst (App.loadNewsStarted API_KEY P w) =
    App.setGrid (UI.showSkeletonLoading 12 (App.grid w)) w.
Proof.
  intros w. unfold App.loadNewsStarted.
  destruct (truthy _); reflexivity.
Qed.

(** The second part of a load leaves the fields of [App] alone. *)
Lemma loadNewsAnswered_app :
  forall l w,
    App.app (App.loadNewsAnswered toLowerCase toUpperCase D C API_KEY
                                  typeErrorMessage l w) = App.app w.
Proof.
  intros l w. unfold App.loadNewsAnswered.
  destruct (App.answer l) as [message | data].
  - apply (proj1 (loadNewsFailed_app_ui _ _)).
  - destruct (App.branch l);
      (etransitivity; [apply (proj1 (loadNewsReturned_app_ui _ _)) |
                       reflexivity]).
Qed.

Lemma loadNews_app :
  forall w,
    App.app (App.loadNews toLowerCase toUpperCase D C API_KEY P
                          typeErrorMessage w) = App.app w.
Proof.
  intros w. unfold App.loadNews.
  destruct (App.loadNewsStarted API_KEY P w) as [w1 l] eqn:E.
  apply (f_equal fst) in E. rewrite loadNewsStarted_page in E.
  cbn [fst] in E. subst w1. rewrite loadNewsAnswered_app. reflexivity.
Qed.

Lemma react_oneMode :
  forall e w,
    oneMode (App.app w) ->
    oneMode (App.app (react toLowerCase toUpperCase D C API_KEY P
                            typeErrorMessage resolveUrl w e)).
Proof.
  intros e w H.
  assert (HS : forall w0,
             oneMode (App.app w0) ->
             oneMode (App.app (App.handleSearch toLowerCase toUpperCase D C
                                 API_KEY P typeErrorMessage w0))).
  { intros w0 H0. unfold App.handleSearch, App.handleSearchStarted.
    destruct (truthy (trim (UI.searchInputValue (App.suggest w0)))).
    - destruct (App.loadNewsStarted API_KEY P _) as [w1 l] eqn:E.
      apply (f_equal fst) in E. rewrite loadNewsStarted_page in E.
      cbn [fst] in E. subst w1. cbn [App.settled].
      rewrite loadNewsAnswered_app. left. reflexivity.
    - exact H0. }
  destruct e; cbn [react].
  - exact H.
  - exact H.
  - apply HS. exact H.
  - unfold App.handleSearchKeypress.
    destruct (jseqb key (lit "Enter")); [apply HS |]; exact H.
  - unfold App.handleCategoryClick, App.handleCategoryClickStarted.
    destruct (App.isCategoryBtn target); [| exact H].
    destruct (App.loadNewsStarted API_KEY P _) as [w1 l] eqn:E.
    apply (f_equal fst) in E. rewrite loadNewsStarted_page in E.
    cbn [fst] in E. subst w1. cbn [App.settled].
    rewrite loadNewsAnswered_app. right. reflexivity.
  - unfold App.selectSearchSuggestion, App.handleSuggestionSelected.
    apply HS. exact H.
  - destruct (UI.removeFromSearchHistory _ _ _ _ _). exact H.
  - destruct (UI.clearSearchHistory _ _). exact H.
  - unfold App.handleEscapeKey.
    destruct (jseqb key (lit "Escape")); [| exact H].
    destruct (UI.modalOverlayActive (App.ui w)); exact H.
  - exact H.
  - unfold App.handleOverlayClick. destruct onOverlay; exact H.
  - unfold App.handleViewModeToggle.
    destruct (jseqb mode (lit "reader")); [exact H |].
    destruct (jseqb mode (lit "embed")); [| exact H].
    destruct (UI.showEmbedMode _ _ _) as [[u m] | [u m]]; exact H.
Qed.

(** X11: whatever the user does, the page never has a category and a
    search query at once. *)
Theorem page_stays_in_one_mode :
  forall events w,
    oneMode (App.app w) ->
    oneMode (App.app (reactAll toLowerCase toUpperCase D C API_KEY P
                               typeErrorMessage resolveUrl w events)).
Proof.
  induction events as [| e events IH] using rev_ind; intros w H.
  - exact H.
  - unfold reactAll. rewrite fold_left_app. cbn [fold_left].
    apply react_oneMode. apply IH. exact H.
Qed.

End Page_properties.

Lemma page_stays_in_one_mode_witness :
  oneMode (App.app (pageWith (lit " ai "))) /\
  oneMode
    (App.app
       (reactAll UI.asciiToLowerCase (fun s => s) MiniDom.host sampleClock
                 (lit "key") (newsAnswering 200 okResponse) (lit "null")
                 (fun s => s)
                 (pageWith (lit " ai "))
                 [SearchClicked;
                  CategoryClicked
                    {| App.isCategoryBtn := true;
                       App.datasetCategory := lit "business" |}])).
Proof.
  assert (H : oneMode (App.app (pageWith (lit " ai "))))
    by (left; reflexivity).
  split; [exact H |].
  apply (page_stays_in_one_mode UI.asciiToLowerCase (fun s => s) MiniDom.host
           sampleClock (lit "key") (newsAnswering 200 okResponse) (lit "null")
           (fun s => s)).
  exact H.
Defined.

Section Load_properties.

Variable toLowerCase : jsstring -> jsstring.
Variable toUpperCase : jsstring -> jsstring.
Variable D : HostDOM.
Variable C : UI.Clock.
Variable API_KEY : jsstring.
Variable typeErrorMessage : jsstring.

Lemma truthy_trim :
  forall v, ~ blank v -> truthy (trim v) = true /\ UI.ignored (trim v) = false.
Proof.
  intros v H. unfold blank in H. unfold UI.ignored.
  rewrite trim_idempotent.
  destruct (trim v) as [| c t]; [exfalso; apply H; reflexivity |].
  split; reflexivity.
Qed.

Lemma all_trimmable_blank :
  forall s, Forall (fun c => isTrimmable c = true) s -> blank s.
Proof.
  intros s H. unfold blank, trim.
  assert (E : trimStart s = []).
  { induction H as [| c s Hc _ IH]; [reflexivity |].
    simpl. rewrite Hc. exact IH. }
  rewrite E. reflexivity.
Qed.

(** X12: a search for nothing but white space sends no request and
    leaves [App] and the history as they were, but it empties the grid
    and shows [Please enter a search term]. *)
Theorem blank_search_clears_grid_without_request :
  forall P P' w,
    let search P :=
      App.handleSearch toLowerCase toUpperCase D C API_KEY P typeErrorMessage w
    in
    Forall (fun c => isTrimmable c = true)
           (UI.searchInputValue (App.suggest w)) ->
    search P = search P' /\
    App.app (search P) = App.app w /\
    App.ui (search P) = App.ui w /\
    UI.newsGrid (App.grid (search P)) = [] /\
    UI.errorMessageDisplay (App.grid (search P)) = lit "flex" /\
    UI.errorMessageHTML (App.grid (search P)) =
      UI.errorBlock App.enterSearchTerm.
Proof.
  intros P P' w search H. subst search. cbv beta.
  apply all_trimmable_blank in H.
  unfold blank in H. unfold App.handleSearch, App.handleSearchStarted.
  rewrite H. cbn [truthy App.settled]. repeat split.
Qed.

(** What the answer to a search request does to the history: it records
    the query that the page holds when the answer arrives. *)
Lemma loadNewsAnswered_history :
  forall l later,
    UI.searchHistory
      (App.ui (App.loadNewsAnswered toLowerCase toUpperCase D C API_KEY
                                    typeErrorMessage l later)) =
    match App.answer l, App.branch l with
    | API.Returned _, App.Search =>
        UI.searchHistory
          (UI.addToSearchHistory toLowerCase (App.ui later)
             (App.currentSearchQuery (App.app later)))
    | _, _ => UI.searchHistory (App.ui later)
    end.
Proof.
  intros l later. unfold App.loadNewsAnswered.
  destruct (App.answer l) as [message | data].
  - rewrite (proj2 (loadNewsFailed_app_ui API_KEY _ _)). reflexivity.
  - destruct (App.branch l);
      rewrite (proj2 (loadNewsReturned_app_ui D C API_KEY typeErrorMessage _ _));
      reflexivity.
Qed.

(** X13: [handleSearch] with a search box that is not blank sends the
    request for the trimmed text and returns.  When the answer arrives
    with a success status and a JSON body, whatever the body says, the
    history gets the query that the page holds at that moment: the
    trimmed text if the page is still on that search (as it is when
    nothing was handled in between), nothing if a category has been
    chosen since, and the later query if another search has been started
    since.  A request that fails leaves the history as it is. *)
Theorem search_is_recorded_once_answered :
  forall P w,
    let query := trim (UI.searchInputValue (App.suggest w)) in
    let answered :=
      App.loadNewsAnswered toLowerCase toUpperCase D C API_KEY
                           typeErrorMessage in
    ~ blank (UI.searchInputValue (App.suggest w)) ->
    exists w1 l,
      App.handleSearchStarted API_KEY P w = (w1, Some l) /\
      App.handleSearch toLowerCase toUpperCase D C API_KEY P typeErrorMessage
                       w = answered l w1 /\
      App.currentSearchQuery (App.app w1) = query /\
      App.branch l = App.Search /\
      App.answer l = API.searchNews API_KEY P query /\
      forall later,
        (forall data,
            App.answer l = API.Returned data ->
            (App.currentSearchQuery (App.app later) = query ->
             hd_error (UI.searchHistory (App.ui (answered l later))) =
               Some query) /\
            (App.currentSearchQuery (App.app later) = [] ->
             UI.searchHistory (App.ui (answered l later)) =
               UI.searchHistory (App.ui later)) /\
            (~ blank (App.currentSearchQuery (App.app later)) ->
             hd_error (UI.searchHistory (App.ui (answered l later))) =
               Some (trim (App.currentSearchQuery (App.app later))))) /\
        (forall message,
            App.answer l = API.Thrown message ->
            UI.searchHistory (App.ui (answered l later)) =
              UI.searchHistory (App.ui later)).
Proof.
  intros P w query answered H. subst query answered.
  destruct (truthy_trim _ H) as [Ht Hi].
  unfold App.handleSearch, App.handleSearchStarted. rewrite Ht.
  unfold App.loadNewsStarted.
  cbn [App.app App.setApp App.setGrid App.currentSearchQuery].
  rewrite Ht.
  eexists. eexists.
  split; [reflexivity |]. split; [reflexivity |].
  split; [reflexivity |]. split; [reflexivity |]. split; [reflexivity |].
  intros later. cbn [App.answer].
  assert (Hblank : forall q,
             ~ blank q ->
             hd_error
               (UI.searchHistory
                  (UI.addToSearchHistory toLowerCase (App.ui later) q)) =
             Some (trim q)).
  { intros q Hq. unfold blank in Hq.
    assert (Hq' : UI.ignored q = false).
    { unfold UI.ignored. destruct q as [| c q]; [contradiction Hq; reflexivity |].
      cbn [truthy negb orb]. destruct (trim (c :: q)); [contradiction |].
      reflexivity. }
    rewrite (addToSearchHistory_history toLowerCase _ _ Hq'). reflexivity. }
  split.
  - intros data E. rewrite loadNewsAnswered_history. cbn [App.answer App.branch].
    rewrite E. split; [| split].
    + intros Eq. rewrite Eq. rewrite Hblank.
      * rewrite trim_idempotent. reflexivity.
      * unfold blank. rewrite trim_idempotent. exact H.
    + intros Eq. rewrite Eq. reflexivity.
    + intros Hq. apply Hblank. exact Hq.
  - intros message E. rewrite loadNewsAnswered_history. cbn [App.answer].
    rewrite E. reflexivity.
Qed.

End Load_properties.

Lemma blank_search_clears_grid_without_request_witness :
  Forall (fun c => isTrimmable c = true) (lit "   ") /\
  UI.newsGrid
    (App.grid
       (App.handleSearch UI.asciiToLowerCase (fun s => s) MiniDom.host
          sampleClock (lit "key") (newsAnswering 200 okResponse) (lit "null")
          (pageWith (lit "   ")))) = [].
Proof.
  assert (H : Forall (fun c => isTrimmable c = true) (lit "   "))
    by (repeat constructor).
  split; [exact H |].
  destruct (blank_search_clears_grid_without_request
              UI.asciiToLowerCase (fun s => s) MiniDom.host sampleClock
              (lit "key") (lit "null")
              (newsAnswering 200 okResponse) (newsAnswering 500 okResponse)
              (pageWith (lit "   ")) H) as (_ & _ & _ & G & _).
  exact G.
Defined.

Lemma search_is_recorded_once_answered_witness :
  ~ blank (UI.searchInputValue (App.suggest (pageWith (lit " ai ")))) /\
  hd_error
    (UI.searchHistory
       (App.ui
          (App.handleSearch UI.asciiToLowerCase (fun s => s) MiniDom.host
             sampleClock (lit "key") (newsAnswering 200 okResponse)
             (lit "null") (pageWith (lit " ai "))))) =
  Some (lit "ai").
Proof.
  assert (H : ~ blank (UI.searchInputValue
                         (App.suggest (pageWith (lit " ai ")))))
    by (intros E; vm_compute in E; discriminate E).
  split; [exact H |].
  destruct (search_is_recorded_once_answered
              UI.asciiToLowerCase (fun s => s) MiniDom.host sampleClock
              (lit "key") (lit "null") (newsAnswering 200 okResponse)
              (pageWith (lit " ai ")) H)
    as (w1 & l & _ & Eh & Eq & _ & Ea & R).
  rewrite Eh.
  destruct (R w1) as [R1 _].
  destruct (R1 (Some {| API.status := Some (lit "ok");
                        API.articles := Some [sampleArticle];
                        API.message := None |}))
    as [R2 _].
  - rewrite Ea. reflexivity.
  - apply R2. exact Eq.
Defined.

Section Failure_properties.

Variable toLowerCase : jsstring -> jsstring.
Variable toUpperCase : jsstring -> jsstring.
Variable D : HostDOM.
Variable C : UI.Clock.
Variable API_KEY : jsstring.
Variable typeErrorMessage : jsstring.

Lemma loadNewsFailed_grid :
  forall message w,
    App.grid (App.loadNewsFailed API_KEY message w) =
    UI.showError (failureText API_KEY message) (UI.hideLoading (App.grid w)).
Proof.
  intros message w. unfold App.loadNewsFailed, failureText.
  repeat match goal with
         | |- context [if ?b then _ else _] => destruct b
         end; reflexivity.
Qed.

Lemma loadNews_thrown :
  forall P w message,
    (if truthy (App.currentSearchQuery (App.app w))
     then API.searchNews API_KEY P (App.currentSearchQuery (App.app w))
     else API.fetchTopHeadlines API_KEY P (App.currentCategory (App.app w))) =
    API.Thrown message ->
    App.grid (App.loadNews toLowerCase toUpperCase D C API_KEY P
                           typeErrorMessage w) =
    UI.showError (failureText API_KEY message)
                 (UI.hideLoading (UI.showSkeletonLoading 12 (App.grid w))).
Proof.
  intros P w message H. unfold App.loadNews, App.loadNewsStarted.
  cbn [App.app App.setGrid].
  destruct (truthy (App.currentSearchQuery (App.app w)));
    unfold App.loadNewsAnswered; cbn [App.answer];
    rewrite H; apply loadNewsFailed_grid.
Qed.


Lemma oneView_showError :
  forall message g, oneView (UI.showError message g).
Proof.
  intros message g. right. left. repeat split.
Qed.

Lemma oneView_renderArticles :
  forall articles g,
    UI.errorMessageDisplay g = lit "none" ->
    UI.emptyStateDisplay g = lit "none" ->
    oneView (UI.renderArticles D C articles g).
Proof.
  intros articles g H1 H2.
  destruct (shown articles) as [| a l] eqn:E.
  - rewrite (renderArticles_none_shown D C articles g E).
    right. right. repeat split.
  - rewrite renderArticles_some_shown by (rewrite E; discriminate).
    left. rewrite E. cbn. repeat split; [discriminate | exact H1 | exact H2].
Qed.

Lemma noSkeleton_renderArticles :
  forall articles g,
    Forall (fun c => UI.cardOpens c <> None)
           (UI.newsGrid (UI.renderArticles D C articles g)).
Proof.
  intros articles g.
  destruct (shown articles) as [| a l] eqn:E.
  - rewrite (renderArticles_none_shown D C articles g E). constructor.
  - rewrite renderArticles_some_shown by (rewrite E; discriminate).
    cbn [UI.newsGrid UI.setNewsGrid]. apply Forall_forall.
    intros c Hc. apply in_map_iff in Hc. destruct Hc as (x & <- & _).
    discriminate.
Qed.

(** The views after [renderArticles]: the empty state alone, or cards
    with the error message and the empty state as they were. *)
Lemma renderArticles_views :
  forall articles g,
    let g' := UI.renderArticles D C articles g in
    UI.loadingSpinnerDisplay g' =
      (match shown articles with
       | [] => lit "none"
       | _ :: _ => UI.loadingSpinnerDisplay g
       end) /\
    (UI.newsGrid g' = [] -> oneView g') /\
    (UI.newsGrid g' <> [] ->
     UI.errorMessageDisplay g' = UI.errorMessageDisplay g /\
     UI.emptyStateDisplay g' = UI.emptyStateDisplay g).
Proof.
  intros articles g g'. subst g'.
  destruct (shown articles) as [| a l] eqn:E.
  - rewrite (renderArticles_none_shown D C articles g E).
    split; [reflexivity |]. split.
    + intros _. right. right. repeat split.
    + intros Hne. exfalso. apply Hne. reflexivity.
  - rewrite renderArticles_some_shown by (rewrite E; discriminate).
    split; [reflexivity |]. split.
    + rewrite E. cbn [UI.newsGrid UI.setNewsGrid map]. discriminate.
    + intros _. split; reflexivity.
Qed.

Lemma loadNewsReturned_views :
  forall data w,
    let g' := App.grid (App.loadNewsReturned D C API_KEY typeErrorMessage
                                             data w) in
    Forall (fun c => UI.cardOpens c <> None) (UI.newsGrid g') /\
    UI.loadingSpinnerDisplay g' = lit "none" /\
    (UI.newsGrid g' = [] -> oneView g') /\
    (UI.newsGrid g' <> [] ->
     UI.errorMessageDisplay g' = UI.errorMessageDisplay (App.grid w) /\
     UI.emptyStateDisplay g' = UI.emptyStateDisplay (App.grid w)).
Proof.
  intros data w g'. subst g'. unfold App.loadNewsReturned.
  assert (Herr : forall message g,
             Forall (fun c => UI.cardOpens c <> None)
                    (UI.newsGrid (UI.showError message g)) /\
             UI.loadingSpinnerDisplay (UI.showError message g) = lit "none" /\
             (UI.newsGrid (UI.showError message g) = [] ->
              oneView (UI.showError message g)) /\
             (UI.newsGrid (UI.showError message g) <> [] ->
              UI.errorMessageDisplay (UI.showError message g) =
                UI.errorMessageDisplay (App.grid w) /\
              UI.emptyStateDisplay (UI.showError message g) =
                UI.emptyStateDisplay (App.grid w))).
  { intros message g.
    split; [constructor |]. split; [reflexivity |]. split.
    - intros _. apply oneView_showError.
    - intros Hne. exfalso. apply Hne. reflexivity. }
  destruct data as [data |].
  - destruct (match API.status data with
              | Some s => jseqb s (lit "ok")
              | None => false
              end).
    + pose proof (renderArticles_views (API.articles data)
                    (UI.hideLoading (App.grid w))) as V.
      cbv zeta in V. destruct V as (V1 & V2 & V3).
      pose proof (noSkeleton_renderArticles (API.articles data)
                    (UI.hideLoading (App.grid w))) as S.
      assert (L : UI.loadingSpinnerDisplay
                    (UI.renderArticles D C (API.articles data)
                                       (UI.hideLoading (App.grid w))) =
                  lit "none").
      { rewrite V1. destruct (shown (API.articles data)); reflexivity. }
      destruct (API.isApiKeyConfigured API_KEY);
        cbn [App.grid App.setGrid].
      * split; [exact S |]. split; [exact L |]. split.
        -- intros Hg. destruct (V2 Hg) as [(N1 & _) | [(G & E1 & E2) | (G & E1 & E2)]].
           ++ exfalso. apply N1. exact Hg.
           ++ right. left. repeat split; assumption.
           ++ right. right. repeat split; assumption.
        -- intros Hg. exact (V3 Hg).
      * split; [exact S |]. split; [exact L |]. split; [exact V2 | exact V3].
    + cbn [App.grid App.setGrid]. apply Herr.
  - cbv zeta. rewrite loadNewsFailed_grid. apply Herr.
Qed.

Lemma loadNewsAnswered_views :
  forall l later,
    let g' := App.grid (App.loadNewsAnswered toLowerCase toUpperCase D C
                          API_KEY typeErrorMessage l later) in
    Forall (fun c => UI.cardOpens c <> None) (UI.newsGrid g') /\
    UI.loadingSpinnerDisplay g' = lit "none" /\
    (UI.newsGrid g' = [] -> oneView g') /\
    (UI.newsGrid g' <> [] ->
     UI.errorMessageDisplay g' = UI.errorMessageDisplay (App.grid later) /\
     UI.emptyStateDisplay g' = UI.emptyStateDisplay (App.grid later)).
Proof.
  intros l later g'. subst g'. unfold App.loadNewsAnswered.
  destruct (App.answer l) as [message | data].
  - rewrite loadNewsFailed_grid.
    split; [constructor |]. split; [reflexivity |]. split.
    + intros _. apply oneView_showError.
    + intros Hne. exfalso. apply Hne. reflexivity.
  - destruct (App.branch l); cbv zeta;
      match goal with
      | |- context [App.loadNewsReturned D C API_KEY typeErrorMessage data ?w] =>
          pose proof (loadNewsReturned_views data w) as V
      end; cbv zeta in V; exact V.
Qed.

(** X15: once the answer to a load has been handled, no skeleton card is
    left and the spinner is hidden.  Either the grid is empty, and then
    exactly one of the empty state and the error message is shown; or it
    holds article cards, and then the error message and the empty state
    are as the answer found them, since [renderArticles] hides neither.
    So the page shows exactly one of the three when the answer finds both
    hidden, as [loadNews] leaves them when nothing is handled between the
    request and the answer; an error shown in between stays next to the
    cards. *)
Theorem loadNews_settles_on_one_view :
  forall P w l later,
    let uninterrupted :=
      App.grid (App.loadNews toLowerCase toUpperCase D C API_KEY P
                             typeErrorMessage w) in
    let after :=
      App.grid (App.loadNewsAnswered toLowerCase toUpperCase D C API_KEY
                                     typeErrorMessage l later) in
    (oneView uninterrupted /\
     Forall (fun c => UI.cardOpens c <> None) (UI.newsGrid uninterrupted) /\
     UI.loadingSpinnerDisplay uninterrupted = lit "none") /\
    Forall (fun c => UI.cardOpens c <> None) (UI.newsGrid after) /\
    UI.loadingSpinnerDisplay after = lit "none" /\
    (UI.newsGrid after = [] -> oneView after) /\
    (UI.newsGrid after <> [] ->
     UI.errorMessageDisplay after = UI.errorMessageDisplay (App.grid later) /\
     UI.emptyStateDisplay after = UI.emptyStateDisplay (App.grid later)) /\
    (UI.errorMessageDisplay (App.grid later) = lit "none" ->
     UI.emptyStateDisplay (App.grid later) = lit "none" ->
     oneView after).
Proof.
  intros P w l later uninterrupted after. subst uninterrupted after.
  assert (G : forall l0 w0,
             UI.errorMessageDisplay (App.grid w0) = lit "none" ->
             UI.emptyStateDisplay (App.grid w0) = lit "none" ->
             oneView (App.grid (App.loadNewsAnswered toLowerCase toUpperCase
                                  D C API_KEY typeErrorMessage l0 w0))).
  { intros l0 w0 H1 H2.
    pose proof (loadNewsAnswered_views l0 w0) as V. cbv zeta in V.
    destruct V as (_ & _ & V3 & V4).
    destruct (UI.newsGrid
                (App.grid (App.loadNewsAnswered toLowerCase toUpperCase D C
                             API_KEY typeErrorMessage l0 w0))) as [| c g] eqn:E.
    - apply V3. reflexivity.
    - destruct V4 as [E1 E2]; [discriminate |].
      left. rewrite E, E1, E2. repeat split; [discriminate | exact H1 | exact H2]. }
  split.
  - unfold App.loadNews.
    destruct (App.loadNewsStarted API_KEY P w) as [w1 l1] eqn:E.
    assert (E1 : w1 =
                 App.setGrid (UI.showSkeletonLoading 12 (App.grid w)) w).
    { apply (f_equal fst) in E. cbn [fst] in E. rewrite <- E.
      unfold App.loadNewsStarted. destruct (truthy _); reflexivity. }
    pose proof (loadNewsAnswered_views l1 w1) as V. cbv zeta in V.
    destruct V as (V1 & V2 & _).
    split; [| split; [exact V1 | exact V2]].
    apply G; rewrite E1; reflexivity.
  - pose proof (loadNewsAnswered_views l later) as V. cbv zeta in V.
    destruct V as (V1 & V2 & V3 & V4).
    split; [exact V1 |]. split; [exact V2 |]. split; [exact V3 |].
    split; [exact V4 |]. apply G.
Qed.

End Failure_properties.


Section Overlap_properties.

Variable toLowerCase : jsstring -> jsstring.
Variable toUpperCase : jsstring -> jsstring.
Variable D : HostDOM.
Variable C : UI.Clock.
Variable API_KEY : jsstring.
Variable typeErrorMessage : jsstring.


End Overlap_properties.


(** ** The article modal and the theme *)

(** X16: after [closeArticleModal], opening an article leaves the frame
    blank, and the first switch to the embedded view assigns the address
    of that article to the frame.  A later switch to the reader and back
    assigns nothing when the frame reads the address back as neither
    empty nor [about:blank], and assigns the address again, reloading
    the frame, when it reads it back as one of the two. *)
Theorem embedded_view_loads_the_open_article_once :
  forall resolveUrl P D C key article st m,
    exists st1 m1 st2 m2,
      UI.openArticleModal P D C key article (UI.closeArticleModal st) m =
        (st1, m1) /\
      UI.articleFrameSrc st1 = lit "about:blank" /\
      UI.embedLoads m1 = UI.embedLoads m /\
      UI.showEmbedMode resolveUrl st1 m1 = UI.Normal (st2, m2) /\
      UI.articleFrameSrc st2 = resolveUrl (UI.url article) /\
      UI.embedLoads m2 = UI.url article :: UI.embedLoads m /\
      (resolveUrl (UI.url article) <> [] ->
       resolveUrl (UI.url article) <> lit "about:blank" ->
       UI.showEmbedMode resolveUrl st2 (UI.showReaderMode m2) =
         UI.Normal (st2, m2)) /\
      (resolveUrl (UI.url article) = [] \/
       resolveUrl (UI.url article) = lit "about:blank" ->
       exists m3,
         UI.showEmbedMode resolveUrl st2 (UI.showReaderMode m2) =
           UI.Normal (st2, m3) /\
         UI.embedLoads m3 =
           UI.url article :: UI.url article :: UI.embedLoads m).
Proof.
  intros resolveUrl P D C key article st m.
  eexists. eexists. eexists. eexists.
  split; [reflexivity |]. split; [reflexivity |]. split; [reflexivity |].
  split; [reflexivity |]. split; [reflexivity |]. split; [reflexivity |].
  unfold UI.showEmbedMode.
  cbn [UI.articleFrameSrc UI.setArticleFrameSrc UI.currentArticle].
  split.
  - intros H1 H2.
    destruct (resolveUrl (UI.url article)) as [| c s] eqn:E; [contradiction |].
    cbn [truthy negb orb].
    destruct (jseqb (c :: s) (lit "about:blank")) eqn:Eb.
    + apply jseqb_eq in Eb. contradiction.
    + reflexivity.
  - intros H.
    assert (G : negb (truthy (resolveUrl (UI.url article)))
                || jseqb (resolveUrl (UI.url article)) (lit "about:blank") =
                true).
    { destruct H as [-> | ->]; reflexivity. }
    rewrite G. eexists. split; reflexivity.
Qed.

(** X17: [openArticleModal] does not touch the frame: opened for another
    article while the frame still shows an address, the embedded view
    keeps that address. *)
Theorem reopened_modal_keeps_the_loaded_frame :
  forall resolveUrl P D C key article st m,
    UI.articleFrameSrc st <> [] ->
    UI.articleFrameSrc st <> lit "about:blank" ->
    exists st1 m1 m2,
      UI.openArticleModal P D C key article st m = (st1, m1) /\
      UI.currentArticle st1 = Some article /\
      UI.showEmbedMode resolveUrl st1 m1 = UI.Normal (st1, m2) /\
      UI.articleFrameSrc st1 = UI.articleFrameSrc st /\
      UI.embedLoads m2 = UI.embedLoads m.
Proof.
  intros resolveUrl P D C key article st m H1 H2.
  eexists. eexists. eexists.
  split; [reflexivity |]. split; [reflexivity |].
  unfold UI.showEmbedMode. cbn [UI.articleFrameSrc].
  destruct (UI.articleFrameSrc st) as [| c s] eqn:E; [contradiction |].
  cbn [truthy negb orb].
  destruct (jseqb (c :: s) (lit "about:blank")) eqn:Eb.
  - apply jseqb_eq in Eb. contradiction.
  - split; [reflexivity |]. split; reflexivity.
Qed.

Lemma reopened_modal_keeps_the_loaded_frame_witness :
  UI.articleFrameSrc frameLoaded <> [] /\
  UI.articleFrameSrc frameLoaded <> lit "about:blank" /\
  exists st1 m1 m2,
    UI.openArticleModal unauthorized MiniDom.host sampleClock [] sampleArticle
                        frameLoaded emptyModal = (st1, m1) /\
    UI.currentArticle st1 = Some sampleArticle /\
    UI.showEmbedMode (fun s => s) st1 m1 = UI.Normal (st1, m2) /\
    UI.articleFrameSrc st1 = UI.articleFrameSrc frameLoaded /\
    UI.embedLoads m2 = UI.embedLoads emptyModal.
Proof.
  assert (H1 : UI.articleFrameSrc frameLoaded <> []) by discriminate.
  assert (H2 : UI.articleFrameSrc frameLoaded <> lit "about:blank")
    by (intros E; vm_compute in E; discriminate E).
  split; [exact H1 |]. split; [exact H2 |].
  apply (reopened_modal_keeps_the_loaded_frame
           (fun s => s) unauthorized MiniDom.host sampleClock [] sampleArticle
           frameLoaded emptyModal H1 H2).
Defined.

(** X18: a click on the theme toggle after [initTheme] leaves the theme
    [dark] if it was [light] and [light] otherwise, whether or not the
    store can be written.  The click returns exactly when the store can
    be written, and then the next [initTheme] shows the same theme; when
    the store cannot be written the click stops at the exception of
    [setItem] and the next [initTheme] shows the theme of before the
    click. *)
Theorem theme_toggle_alternates_and_persists :
  forall t,
    let before := UI.initTheme t in
    let after := leaves (UI.themeToggleClick before) in
    (UI.dataTheme after = Some (lit "dark") <->
     UI.dataTheme before = Some (lit "light")) /\
    (UI.dataTheme after = Some (lit "dark") \/
     UI.dataTheme after = Some (lit "light")) /\
    (UI.themeToggleClick before = UI.Normal after <->
     UI.themeWritable t = true) /\
    (UI.themeToggleClick before = UI.Throws after <->
     UI.themeWritable t = false) /\
    UI.dataTheme (UI.initTheme after) =
      (if UI.themeWritable t then UI.dataTheme after
       else UI.dataTheme before).
Proof.
  intros t before after. subst before after.
  unfold UI.themeToggleClick.
  cbn [UI.dataTheme UI.initTheme UI.themeWritable UI.storedTheme].
  assert (T : forall s : jsstring,
             ((if jseqb s (lit "light") then lit "dark" else lit "light") =
              lit "dark" <-> s = lit "light") /\
             ((if jseqb s (lit "light") then lit "dark" else lit "light") =
              lit "dark" \/
              (if jseqb s (lit "light") then lit "dark" else lit "light") =
              lit "light")).
  { intros s. destruct (jseqb s (lit "light")) eqn:E.
    - apply jseqb_eq in E. subst s.
      split; [split; reflexivity | left; reflexivity].
    - split; [| right; reflexivity].
      split; [discriminate |]. intros ->. discriminate E. }
  match goal with
  | |- context [jseqb ?s (lit "light")] => destruct (T s) as [T1 T2]
  end.
  destruct (UI.themeWritable t);
    cbn [leaves UI.dataTheme UI.initTheme UI.storedTheme].
  - split.
    { split; intros H.
      - injection H as H. f_equal. apply T1. exact H.
      - injection H as H. f_equal. apply T1. exact H. }
    split.
    { destruct T2 as [E | E]; [left | right]; rewrite E; reflexivity. }
    split; [split; reflexivity |].
    split; [split; discriminate |].
    destruct T2 as [E | E]; rewrite E; reflexivity.
  - split.
    { split; intros H.
      - injection H as H. f_equal. apply T1. exact H.
      - injection H as H. f_equal. apply T1. exact H. }
    split.
    { destruct T2 as [E | E]; [left | right]; rewrite E; reflexivity. }
    split; [split; discriminate |].
    split; [split; reflexivity |].
    reflexivity.
Qed.

(** ** The removal loops and the line feeds *)

(** X19: the two backward loops of [parseContent] over the live
    collections leave the tree without any [script] or [style] element,
    nested ones included, and with every other node in place. *)
Theorem removal_loops_detach_every_script_and_style :
  forall f,
    strip f = prune (lit "style") (prune (lit "script") f) /\
    countForest (lit "script") (strip f) = 0 /\
    countForest (lit "style") (strip f) = 0.
Proof.
  intros f.
  assert (E : strip f = prune (lit "style") (prune (lit "script") f)).
  { unfold strip. rewrite !removeByTagName_prune. reflexivity. }
  rewrite E. split; [reflexivity |]. split.
  - pose proof (countForest_prune_le (lit "script") (lit "style")
                  (prune (lit "script") f)) as H.
    rewrite countForest_prune_same in H. lia.
  - apply countForest_prune_same.
Qed.

Lemma line_break_stage_leaves_no_line_feed :
  forall s prev,
    ~ In 10%N (replaceFrom Reader.newline [Txt (lit "<br>")] 0 prev s).
Proof.
  induction s as [| c s IH]; intros prev.
  - cbn. tauto.
  - cbn [replaceFrom]. unfold exec, Reader.newline.
    cbn [attempts startsWith].
    destruct (N.eqb_spec 10 c) as [E | E].
    + cbn [andb hd_error expand flat_map app length].
      intros H. cbn [In] in H.
      destruct H as [H | [H | [H | [H | H]]]]; try discriminate H.
      apply (IH (Some c) H).
    + cbn [andb hd_error]. intros [H | H]; [congruence |].
      apply (IH (Some c) H).
Qed.

(** X20: the result of [markdownToHtml] holds no line feed, whatever the
    input. *)
Theorem markdownToHtml_leaves_no_line_feed :
  forall markdown,
    Forall (fun c => c <> 10%N) (Reader.markdownToHtml markdown).
Proof.
  intros markdown. apply Forall_forall. intros c Hc ->. revert Hc.
  destruct markdown as [[| c m] |]; try (vm_compute; intuition discriminate).
  rewrite markdownToHtml_cons. unfold replaceAll at 1.
  rewrite !in_app_iff. intros [H | [H | H]].
  - vm_compute in H. intuition discriminate.
  - apply (line_break_stage_leaves_no_line_feed _ _ H).
  - vm_compute in H. intuition discriminate.
Qed.

(** ** Headings, paragraphs and emphasis *)

Lemma lastOr_not_terminator :
  forall s prev c,
    (forall x, In x s -> isLineTerminator x = false) ->
    s <> [] -> lastOr prev s = Some c -> isLineTerminator c = false.
Proof.
  intros s prev c H Hs E. unfold lastOr in E.
  destruct (rev s) as [| x r] eqn:Er.
  - exfalso. apply Hs. rewrite <- (rev_involutive s), Er. reflexivity.
  - injection E as <-. apply H. apply in_rev. rewrite Er. left. reflexivity.
Qed.

Lemma exec_Bol_inside :
  forall r p s, isLineTerminator p = false -> exec (Bol >> r) (Some p) s = None.
Proof.
  intros r p s H. unfold exec. cbn [attempts]. rewrite H. reflexivity.
Qed.

Lemma exec_header_mismatch :
  forall h prev s,
    startsWith (lit h) s = false -> exec (Reader.header h) prev s = None.
Proof.
  intros h prev s H. unfold exec, Reader.header. cbn [attempts].
  destruct prev as [p |]; [destruct (isLineTerminator p) |];
    cbn [flat_map fst snd length skipn app map lastOr rev];
    rewrite ?H; reflexivity.
Qed.

(** A header pattern changes nothing in a line that does not begin with
    its hashes. *)
Lemma header_unmatched :
  forall h tag s,
    lit h <> [] ->
    startsWith (lit h) s = false ->
    (forall c, In c s -> isLineTerminator c = false) ->
    replaceAll (Reader.header h) (Reader.tagged tag) s = s.
Proof.
  intros h tag s Hh Hs Hl. unfold replaceAll.
  rewrite <- (app_nil_r s) at 1.
  rewrite replaceFrom_copies.
  - assert (E : exec (Reader.header h) (lastOr None s) [] = None).
    { apply exec_header_mismatch. destruct (lit h); [contradiction |
        reflexivity]. }
    cbn [replaceFrom]. rewrite E. apply app_nil_r.
  - intros a1 c a2 E. rewrite app_nil_r.
    destruct a1 as [| x a1].
    + cbn [lastOr rev]. apply exec_header_mismatch.
      cbn [app] in E. rewrite <- E. exact Hs.
    + destruct (lastOr None (x :: a1)) as [p |] eqn:El.
      * apply exec_Bol_inside.
        apply (lastOr_not_terminator (x :: a1) None p); [| discriminate | exact
            El].
        intros y Hy. apply Hl. rewrite E. apply in_or_app. left. exact Hy.
      * exfalso. unfold lastOr in El.
        destruct (rev (x :: a1)) eqn:Er; [| discriminate El].
        apply (f_equal (@length N)) in Er. rewrite length_rev in Er.
        discriminate Er.
Qed.

Lemma exec_Bol_start : forall s, exec Bol None s = Some ([], []).
Proof. reflexivity. Qed.

Lemma exec_Eol_end : forall prev, exec Eol prev [] = Some ([], []).
Proof. reflexivity. Qed.

Lemma exec_header_line :
  forall h t,
    (forall c, In c t -> isLineTerminator c = false) ->
    exec (Reader.header h) None (lit h ++ t) = Some (lit h ++ t, [t]).
Proof.
  intros h t Ht. unfold Reader.header.
  apply (exec_Cat_some Bol _ None (lit h ++ t) [] [] (lit h ++ t) [t]);
    [apply exec_Bol_start |].
  cbn [length skipn lastOr rev].
  apply (exec_Cat_some (Chars (lit h)) _ None (lit h ++ t) (lit h) [] t [t]);
    [apply exec_Chars_app |].
  rewrite skipn_length_app.
  apply exec_Grp_some.
  assert (E : exec (Rep true 0 Dot) (lastOr None (lit h)) (t ++ []) =
              Some (t, [])).
  { apply exec_Rep_greedy.
    - apply Forall_forall. intros c Hc. cbn [cmatch]. rewrite (Ht c Hc).
      reflexivity.
    - apply Nat.le_0_l.
    - left. reflexivity. }
  rewrite app_nil_r in E.
  pose proof (exec_Cat_some (Rep true 0 Dot) Eol (lastOr None (lit h)) t
                t [] [] [] E) as H.
  rewrite skipn_all, app_nil_r in H. apply H. apply exec_Eol_end.
Qed.

(** A header pattern turns a line that begins with its hashes into the
    heading. *)
Lemma header_matched :
  forall h tag t,
    lit h <> [] ->
    (forall c, In c (lit h ++ t) -> isLineTerminator c = false) ->
    replaceAll (Reader.header h) (Reader.tagged tag) (lit h ++ t) =
    lit "<" ++ lit tag ++ lit ">" ++ t ++ lit "</" ++ lit tag ++ lit ">".
Proof.
  intros h tag t Hh Hl. unfold replaceAll.
  rewrite (replaceFrom_match (Reader.header h) (Reader.tagged tag)
             None (lit h ++ t) (lit h ++ t) [t] []).
  - assert (E : exec (Reader.header h) (lastOr None (lit h ++ t)) [] = None).
    { destruct (lastOr None (lit h ++ t)) as [p |] eqn:El.
      - apply exec_Bol_inside.
        apply (lastOr_not_terminator (lit h ++ t) None p);
          [exact Hl | | exact El].
        destruct (lit h); [contradiction | discriminate].
      - apply exec_header_mismatch.
        destruct (lit h); [contradiction | reflexivity]. }
    cbn [replaceFrom]. rewrite E.
    unfold Reader.tagged. cbn [expand flat_map nth pred].
    rewrite !app_nil_r, <- !app_assoc. reflexivity.
  - apply exec_header_line. intros c Hc. apply Hl. apply in_or_app. right.
    exact Hc.
  - destruct (lit h); [contradiction | discriminate].
  - symmetry. apply app_nil_r.
Qed.

Lemma bold_unmarked :
  forall s, ~ In 42%N s ->
            replaceAll Reader.bold (Reader.tagged "strong") s = s.
Proof.
  intros s H. apply replaceAll_without_match; [reflexivity |].
  intros prev x u Hx. apply (exec_Chars_head 42). intros ->. exact (H Hx).
Qed.

Lemma italic_unmarked :
  forall s, ~ In 42%N s ->
            replaceAll Reader.italic (Reader.tagged "em") s = s.
Proof.
  intros s H. apply replaceAll_without_match; [reflexivity |].
  intros prev x u Hx. apply (exec_Chars_head 42). intros ->. exact (H Hx).
Qed.

Lemma link_unmarked :
  forall s, ~ In 91%N s ->
            replaceAll Reader.link Reader.anchorTemplate s = s.
Proof.
  intros s H. apply replaceAll_without_match; [reflexivity |].
  intros prev x u Hx. apply (exec_Chars_head 91). intros ->. exact (H Hx).
Qed.

Lemma image_unmarked :
  forall s, ~ In 33%N s ->
            replaceAll Reader.image Reader.imageTemplate s = s.
Proof.
  intros s H. apply replaceAll_without_match; [reflexivity |].
  intros prev x u Hx. apply (exec_Chars_head 33). intros ->. exact (H Hx).
Qed.

Lemma paragraph_break_unmarked :
  forall s, ~ In 10%N s ->
            replaceAll (Reader.newline >> Reader.newline)
                       [Txt (lit "</p><p>")] s = s.
Proof.
  intros s H. apply replaceAll_without_match; [reflexivity |].
  intros prev x u Hx. apply (exec_Chars_head 10). intros ->. exact (H Hx).
Qed.

Lemma line_break_unmarked :
  forall s, ~ In 10%N s ->
            replaceAll Reader.newline [Txt (lit "<br>")] s = s.
Proof.
  intros s H. apply replaceAll_without_match; [reflexivity |].
  intros prev x u Hx. apply (exec_Chars_only_head 10). intros ->. exact (H Hx).
Qed.

(** The stages after the headers leave text without their marks as it
    is. *)
Lemma inline_stages_unmarked :
  forall s,
    (forall c, In c s -> ~ In c [42; 91; 33; 10]%N) ->
    replaceAll Reader.newline [Txt (lit "<br>")]
      (replaceAll (Reader.newline >> Reader.newline) [Txt (lit "</p><p>")]
        (replaceAll Reader.image Reader.imageTemplate
          (replaceAll Reader.link Reader.anchorTemplate
            (replaceAll Reader.italic (Reader.tagged "em")
              (replaceAll Reader.bold (Reader.tagged "strong") s))))) = s.
Proof.
  intros s H.
  assert (N : forall x, In x [42; 91; 33; 10]%N -> ~ In x s).
  { intros x Hx Hin. apply (H x Hin Hx). }
  rewrite bold_unmarked by (apply N; simpl; tauto).
  rewrite italic_unmarked by (apply N; simpl; tauto).
  rewrite link_unmarked by (apply N; simpl; tauto).
  rewrite image_unmarked by (apply N; simpl; tauto).
  rewrite paragraph_break_unmarked by (apply N; simpl; tauto).
  apply line_break_unmarked. apply N. simpl. tauto.
Qed.

Lemma lineText_no_terminator :
  forall h t, In h ["### "; "## "; "# "; "#### "]%string -> lineText t ->
              forall c, In c (lit h ++ t) -> isLineTerminator c = false.
Proof.
  intros h t Hh Ht c Hc. apply in_app_or in Hc. destruct Hc as [Hc | Hc].
  - destruct Hh as [<- | [<- | [<- | [<- | []]]]]; simpl in Hc;
      repeat (destruct Hc as [<- | Hc]; [reflexivity |]); destruct Hc.
  - apply (Ht c Hc).
Qed.

Lemma heading_unmarked :
  forall tag t,
    In tag ["h1"; "h2"; "h3"]%string -> lineText t ->
    forall c,
      In c (lit "<" ++ lit tag ++ lit ">" ++ t ++ lit "</" ++ lit tag ++ lit
          ">") ->
      ~ In c [35; 42; 91; 33; 10]%N /\ isLineTerminator c = false.
Proof.
  intros tag t Htag Ht c Hc.
  rewrite !in_app_iff in Hc.
  destruct Hc as [Hc | [Hc | [Hc | [Hc | [Hc | [Hc | Hc]]]]]];
    try (destruct (Ht c Hc) as [H1 H2]; split; [| exact H2];
         intros H; simpl in H;
         destruct H as [<- | [<- | [<- | [<- | [<- | []]]]]];
         try (apply H1; simpl; tauto); discriminate H2);
    destruct Htag as [<- | [<- | [<- | []]]]; simpl in Hc;
    repeat (destruct Hc as [<- | Hc];
            [split; [simpl; intuition discriminate | reflexivity] |]);
    destruct Hc.
Qed.

(** X21: a line of one, two or three hashes, a space and text becomes
    the heading of that level inside the paragraph; with four hashes the
    line is left as it is. *)
Theorem markdownToHtml_headings :
  forall t,
    lineText t ->
    Reader.markdownToHtml (Some (lit "# " ++ t)) =
      lit "<p><h1>" ++ t ++ lit "</h1></p>" /\
    Reader.markdownToHtml (Some (lit "## " ++ t)) =
      lit "<p><h2>" ++ t ++ lit "</h2></p>" /\
    Reader.markdownToHtml (Some (lit "### " ++ t)) =
      lit "<p><h3>" ++ t ++ lit "</h3></p>" /\
    Reader.markdownToHtml (Some (lit "#### " ++ t)) =
      lit "<p>#### " ++ t ++ lit "</p>".
Proof.
  intros t Ht.
  assert (U : forall tag,
             In tag ["h1"; "h2"; "h3"]%string ->
             forall c,
               In c (lit "<" ++ lit tag ++ lit ">" ++ t ++
                     lit "</" ++ lit tag ++ lit ">") ->
               isLineTerminator c = false).
  { intros tag Htag c Hc. apply (heading_unmarked tag t Htag Ht c Hc). }
  assert (V : forall tag,
             In tag ["h1"; "h2"; "h3"]%string ->
             forall c,
               In c (lit "<" ++ lit tag ++ lit ">" ++ t ++
                     lit "</" ++ lit tag ++ lit ">") ->
               ~ In c [42; 91; 33; 10]%N).
  { intros tag Htag c Hc H.
    apply (proj1 (heading_unmarked tag t Htag Ht c Hc)).
    simpl in *. tauto. }
  split; [| split; [| split]].
  - change (lit "# " ++ t) with (35%N :: 32%N :: t).
    rewrite markdownToHtml_cons.
    change (35%N :: 32%N :: t) with (lit "# " ++ t).
    rewrite (header_unmatched "### " "h3");
      [| discriminate | reflexivity
       | apply lineText_no_terminator; [simpl; tauto | exact Ht]].
    rewrite (header_unmatched "## " "h2");
      [| discriminate | reflexivity
       | apply lineText_no_terminator; [simpl; tauto | exact Ht]].
    rewrite (header_matched "# " "h1");
      [| discriminate
       | apply lineText_no_terminator; [simpl; tauto | exact Ht]].
    rewrite inline_stages_unmarked by (apply V; simpl; tauto).
    rewrite <- !app_assoc. reflexivity.
  - change (lit "## " ++ t) with (35%N :: 35%N :: 32%N :: t).
    rewrite markdownToHtml_cons.
    change (35%N :: 35%N :: 32%N :: t) with (lit "## " ++ t).
    rewrite (header_unmatched "### " "h3");
      [| discriminate | reflexivity
       | apply lineText_no_terminator; [simpl; tauto | exact Ht]].
    rewrite (header_matched "## " "h2");
      [| discriminate
       | apply lineText_no_terminator; [simpl; tauto | exact Ht]].
    rewrite (header_unmatched "# " "h1");
      [| discriminate | reflexivity | apply U; simpl; tauto].
    rewrite inline_stages_unmarked by (apply V; simpl; tauto).
    rewrite <- !app_assoc. reflexivity.
  - change (lit "### " ++ t) with (35%N :: 35%N :: 35%N :: 32%N :: t).
    rewrite markdownToHtml_cons.
    change (35%N :: 35%N :: 35%N :: 32%N :: t) with (lit "### " ++ t).
    rewrite (header_matched "### " "h3");
      [| discriminate
       | apply lineText_no_terminator; [simpl; tauto | exact Ht]].
    rewrite (header_unmatched "## " "h2");
      [| discriminate | reflexivity | apply U; simpl; tauto].
    rewrite (header_unmatched "# " "h1");
      [| discriminate | reflexivity | apply U; simpl; tauto].
    rewrite inline_stages_unmarked by (apply V; simpl; tauto).
    rewrite <- !app_assoc. reflexivity.
  - change (lit "#### " ++ t) with (35%N :: 35%N :: 35%N :: 35%N :: 32%N :: t).
    rewrite markdownToHtml_cons.
    change (35%N :: 35%N :: 35%N :: 35%N :: 32%N :: t) with (lit "#### " ++ t).
    rewrite (header_unmatched "### " "h3");
      [| discriminate | reflexivity
       | apply lineText_no_terminator; [simpl; tauto | exact Ht]].
    rewrite (header_unmatched "## " "h2");
      [| discriminate | reflexivity
       | apply lineText_no_terminator; [simpl; tauto | exact Ht]].
    rewrite (header_unmatched "# " "h1");
      [| discriminate | reflexivity
       | apply lineText_no_terminator; [simpl; tauto | exact Ht]].
    rewrite inline_stages_unmarked; [reflexivity |].
    intros c Hc H. apply in_app_or in Hc. destruct Hc as [Hc | Hc].
    + simpl in Hc, H. intuition congruence.
    + destruct (Ht c Hc) as [H1 H2]. simpl in H.
      destruct H as [<- | [<- | [<- | [<- | []]]]];
        try (apply H1; simpl; tauto); discriminate H2.
Qed.

Lemma markdownToHtml_headings_witness :
  lineText (lit "Title") /\
  Reader.markdownToHtml (Some (lit "# Title")) = lit "<p><h1>Title</h1></p>".
Proof.
  assert (H : lineText (lit "Title")).
  { intros c Hc. simpl in Hc.
    repeat (destruct Hc as [<- | Hc];
            [split; [simpl; intuition discriminate | reflexivity] |]).
    destruct Hc. }
  split; [exact H |].
  exact (proj1 (markdownToHtml_headings (lit "Title") H)).
Defined.

Lemma markdownToHtml_stages :
  forall s,
    s <> [] ->
    Reader.markdownToHtml (Some s) =
    lit "<p>" ++
    replaceAll Reader.newline [Txt (lit "<br>")]
      (replaceAll (Reader.newline >> Reader.newline) [Txt (lit "</p><p>")]
        (replaceAll Reader.image Reader.imageTemplate
          (replaceAll Reader.link Reader.anchorTemplate
            (replaceAll Reader.italic (Reader.tagged "em")
              (replaceAll Reader.bold (Reader.tagged "strong")
                (replaceAll (Reader.header "# ") (Reader.tagged "h1")
                  (replaceAll (Reader.header "## ") (Reader.tagged "h2")
                    (replaceAll (Reader.header "### ") (Reader.tagged "h3")
                                s)))))))) ++
    lit "</p>".
Proof.
  intros [| c m] H; [contradiction | apply markdownToHtml_cons].
Qed.

(** A replacement of a literal by text copies what is before the first
    occurrence and what is after it, where the first character of the
    literal does not occur. *)
Lemma replace_one_literal :
  forall x l text a b,
    ~ In x a -> ~ In x b ->
    startsWith (x :: l) ((x :: l) ++ b) = true ->
    replaceAll (Chars (x :: l)) [Txt text] (a ++ (x :: l) ++ b) =
    a ++ text ++ b.
Proof.
  intros x l text a b Ha Hb _. unfold replaceAll.
  rewrite replaceFrom_copies.
  - rewrite (replaceFrom_match (Chars (x :: l)) [Txt text] _ _ (x :: l) [] b).
    + rewrite replaceFrom_without_match.
      * cbn [expand flat_map]. rewrite app_nil_r. reflexivity.
      * reflexivity.
      * intros prev c t Hc. apply exec_Chars_only_head. intros ->. exact (Hb
          Hc).
    + apply exec_Chars_app.
    + discriminate.
    + reflexivity.
  - intros a1 c a2 E. apply exec_Chars_only_head. intros ->.
    apply Ha. rewrite E. apply in_or_app. right. left. reflexivity.
Qed.

Lemma exec_newline_pair :
  forall prev b,
    exec (Reader.newline >> Reader.newline) prev (10%N :: 10%N :: b) =
    Some ([10%N; 10%N], []).
Proof. reflexivity. Qed.

Lemma paragraph_break_once :
  forall a b,
    ~ In 10%N a -> ~ In 10%N b ->
    replaceAll (Reader.newline >> Reader.newline) [Txt (lit "</p><p>")]
               (a ++ [10%N; 10%N] ++ b) =
    a ++ lit "</p><p>" ++ b.
Proof.
  intros a b Ha Hb. unfold replaceAll.
  rewrite replaceFrom_copies.
  - rewrite (replaceFrom_match (Reader.newline >> Reader.newline)
               [Txt (lit "</p><p>")] _ _ [10%N; 10%N] [] b).
    + rewrite replaceFrom_without_match.
      * reflexivity.
      * reflexivity.
      * intros prev c t Hc. apply (exec_Chars_head 10). intros ->. exact (Hb
          Hc).
    + apply exec_newline_pair.
    + discriminate.
    + reflexivity.
  - intros a1 c a2 E. apply (exec_Chars_head 10). intros ->.
    apply Ha. rewrite E. apply in_or_app. right. left. reflexivity.
Qed.

Lemma paragraph_break_single :
  forall a b,
    ~ In 10%N a -> ~ In 10%N b ->
    replaceAll (Reader.newline >> Reader.newline) [Txt (lit "</p><p>")]
               (a ++ [10%N] ++ b) =
    a ++ [10%N] ++ b.
Proof.
  intros a b Ha Hb. unfold replaceAll.
  rewrite replaceFrom_copies.
  - cbn [app]. rewrite replaceFrom_nomatch.
    + rewrite replaceFrom_without_match.
      * reflexivity.
      * reflexivity.
      * intros prev c t Hc. apply (exec_Chars_head 10). intros ->. exact (Hb
          Hc).
    + destruct b as [| d b]; [reflexivity |].
      assert (E : N.eqb 10 d = false).
      { apply N.eqb_neq. intros <-. apply Hb. left. reflexivity. }
      unfold exec, Reader.newline. cbn [attempts].
      change (startsWith [10%N] (10%N :: d :: b)) with true.
      cbn [flat_map fst snd length skipn app map lastOr rev startsWith].
      rewrite E. reflexivity.
  - intros a1 c a2 E. apply (exec_Chars_head 10). intros ->.
    apply Ha. rewrite E. apply in_or_app. right. left. reflexivity.
Qed.

Lemma plainText_unmarked :
  forall s, plainText s ->
            forall c, In c s -> c <> 35%N /\ c <> 42%N /\ c <> 91%N /\ c <>
                33%N.
Proof.
  intros s H c Hc. destruct (H c Hc) as (H1 & H2 & H3 & H4 & _).
  repeat split; assumption.
Qed.

Lemma plainText_no_line_feed : forall s, plainText s -> ~ In 10%N s.
Proof.
  intros s H Hin. destruct (H _ Hin) as (_ & _ & _ & _ & H5). congruence.
Qed.

(** X23: between two stretches of plain text, two line feeds end one
    paragraph and begin the next, and one line feed becomes [<br>]. *)
Theorem markdownToHtml_paragraphs_and_line_breaks :
  forall a b,
    plainText a -> plainText b ->
    Reader.markdownToHtml (Some (a ++ [10%N; 10%N] ++ b)) =
      lit "<p>" ++ a ++ lit "</p><p>" ++ b ++ lit "</p>" /\
    Reader.markdownToHtml (Some (a ++ [10%N] ++ b)) =
      lit "<p>" ++ a ++ lit "<br>" ++ b ++ lit "</p>".
Proof.
  intros a b Ha Hb.
  pose proof (plainText_no_line_feed a Ha) as La.
  pose proof (plainText_no_line_feed b Hb) as Lb.
  assert (M : forall l, (forall c, In c l -> c = 10%N) ->
                forall c, In c (a ++ l ++ b) ->
                          c <> 35%N /\ c <> 42%N /\ c <> 91%N /\ c <> 33%N).
  { intros l Hl c Hc. rewrite !in_app_iff in Hc.
    destruct Hc as [Hc | [Hc | Hc]].
    - apply (plainText_unmarked a Ha c Hc).
    - rewrite (Hl c Hc). repeat split; discriminate.
    - apply (plainText_unmarked b Hb c Hc). }
  split.
  - rewrite markdownToHtml_stages by (destruct a; discriminate).
    rewrite markdown_patterns_need_marks
      by (apply M; simpl; intuition congruence).
    rewrite (paragraph_break_once a b La Lb).
    rewrite line_break_unmarked.
    + rewrite <- !app_assoc. reflexivity.
    + rewrite !in_app_iff. intros [H | [H | H]];
        [exact (La H) | vm_compute in H; intuition discriminate | exact (Lb H)].
  - rewrite markdownToHtml_stages by (destruct a; discriminate).
    rewrite markdown_patterns_need_marks
      by (apply M; simpl; intuition congruence).
    rewrite (paragraph_break_single a b La Lb).
    unfold Reader.newline.
    rewrite (replace_one_literal 10 [] (lit "<br>") a b La Lb eq_refl).
    rewrite <- !app_assoc. reflexivity.
Qed.

Lemma markdownToHtml_paragraphs_and_line_breaks_witness :
  plainText (lit "one") /\ plainText (lit "two") /\
  Reader.markdownToHtml (Some (lit "one" ++ [10%N; 10%N] ++ lit "two")) =
    lit "<p>one</p><p>two</p>".
Proof.
  assert (H1 : plainText (lit "one")).
  { intros c Hc. simpl in Hc.
    repeat (destruct Hc as [<- | Hc]; [repeat split; discriminate |]).
    destruct Hc. }
  assert (H2 : plainText (lit "two")).
  { intros c Hc. simpl in Hc.
    repeat (destruct Hc as [<- | Hc]; [repeat split; discriminate |]).
    destruct Hc. }
  split; [exact H1 |]. split; [exact H2 |].
  exact (proj1 (markdownToHtml_paragraphs_and_line_breaks
                  (lit "one") (lit "two") H1 H2)).
Defined.

Lemma filter_true :
  forall (A : Type) (l : list A), filter (fun _ => true) l = l.
Proof.
  intros A l. induction l as [| x l IH]; [reflexivity |].
  simpl. rewrite IH. reflexivity.
Qed.

Lemma runs_lazy_head :
  forall cl s, exists more, runs false cl s = [] :: more.
Proof.
  intros cl [| c s]; [exists []; reflexivity |].
  simpl. destruct (cmatch cl c); eexists; reflexivity.
Qed.

(** Among the runs of a lazy repetition, the first for which the rest of
    the pattern has an attempt decides. *)
Lemma runs_lazy_first :
  forall (B : Type) cl a rest (F : jsstring -> list B),
    Forall (fun c => cmatch cl c = true) a ->
    (forall a1 c a2, a = a1 ++ c :: a2 -> F a1 = []) ->
    F a <> [] ->
    hd_error (flat_map F (runs false cl (a ++ rest))) = hd_error (F a).
Proof.
  intros B cl a rest. induction a as [| c a IH]; intros F Hall Hnone Hsome.
  - cbn [app]. destruct (runs_lazy_head cl rest) as [more ->].
    cbn [flat_map]. destruct (F []); [contradiction | reflexivity].
  - inversion Hall as [| x l Hc Hall']; subst.
    cbn [app runs]. rewrite Hc. cbn [flat_map].
    rewrite (Hnone [] c a eq_refl). cbn [app].
    rewrite flat_map_concat_map, map_map, <- flat_map_concat_map.
    apply (IH (fun r => F (c :: r))).
    + exact Hall'.
    + intros a1 c' a2 E. apply (Hnone (c :: a1) c' a2). rewrite E. reflexivity.
    + exact Hsome.
Qed.

Lemma exec_lazy_group :
  forall cl k a rest prev m2 caps2,
    Forall (fun c => cmatch cl c = true) a ->
    (forall a1 c a2, a = a1 ++ c :: a2 ->
                     exec k (lastOr prev a1) (c :: a2 ++ rest) = None) ->
    exec k (lastOr prev a) rest = Some (m2, caps2) ->
    exec (Grp (Rep false 0 cl) >> k) prev (a ++ rest) =
    Some (a ++ m2, a :: caps2).
Proof.
  intros cl k a rest prev m2 caps2 Hall Hnone Hsome.
  unfold exec. cbn [attempts].
  change (fun run : jsstring => Nat.leb 0 (length run)) with (fun _ : jsstring
      => true).
  rewrite filter_true, map_map.
  rewrite flat_map_concat_map, map_map, <- flat_map_concat_map.
  cbn [fst snd].
  etransitivity.
  - apply (runs_lazy_first _ cl a rest); [exact Hall | |].
    + intros a1 c a2 E. rewrite E, <- app_assoc, skipn_length_app.
      pose proof (Hnone a1 c a2 E) as H. unfold exec in H.
      cbn [app]. destruct (attempts k (lastOr prev a1) (c :: a2 ++ rest));
        [reflexivity | discriminate H].
    + rewrite skipn_length_app. unfold exec in Hsome.
      destruct (attempts k (lastOr prev a) rest); [discriminate Hsome |].
      discriminate.
  - cbv beta. rewrite skipn_length_app. unfold exec in Hsome.
    destruct (attempts k (lastOr prev a) rest) as [| x l]; [discriminate Hsome
        |].
    injection Hsome as ->. reflexivity.
Qed.

Lemma exec_star_pair_mismatch :
  forall l r prev c d s,
    d <> 42%N ->
    exec (Chars (lit "*") >> Chars (42%N :: l) >> r) prev (c :: d :: s) = None.
Proof.
  intros l r prev c d s H. apply (exec_Chars_second 42 42). exact H.
Qed.

Lemma exec_closing_stars_mismatch :
  forall prev c s,
    c <> 42%N ->
    exec (Chars (lit "*") >> Chars (lit "*")) prev (c :: s) = None.
Proof. intros prev c s H. apply (exec_Chars_head 42). exact H. Qed.

Lemma exec_bold_at :
  forall prev a rest,
    Forall (fun c => isLineTerminator c = false) a ->
    (forall p a1 c a2,
        a = a1 ++ c :: a2 ->
        exec (Chars (lit "*") >> Chars (lit "*")) p
             (c :: a2 ++ lit "**" ++ rest) = None) ->
    exec Reader.bold prev (lit "**" ++ a ++ lit "**" ++ rest) =
    Some (lit "**" ++ a ++ lit "**", [a]).
Proof.
  intros prev a rest Hall Hnone. unfold Reader.bold.
  apply (exec_Cat_some (Chars (lit "*")) _ prev _ (lit "*") []
                       (lit "*" ++ a ++ lit "**") [a]);
    [apply (exec_Chars_app (lit "*")) |].
  cbn [length skipn lit map list_ascii_of_string app].
  apply (exec_Cat_some (Chars (lit "*")) _ _ _ (lit "*") []
                       (a ++ lit "**") [a]);
    [apply (exec_Chars_app (lit "*")) |].
  cbn [length skipn lit map list_ascii_of_string app].
  apply (exec_lazy_group Dot (Chars (lit "*") >> Chars (lit "*")) a
                         (lit "**" ++ rest) _ (lit "**") []).
  - apply Forall_forall. intros c Hc. cbn [cmatch].
    rewrite Forall_forall in Hall. rewrite (Hall c Hc). reflexivity.
  - intros a1 c a2 E. apply (Hnone _ a1 c a2 E).
  - reflexivity.
Qed.

Lemma exec_italic_at :
  forall prev a rest,
    Forall (fun c => isLineTerminator c = false) a ->
    ~ In 42%N a ->
    exec Reader.italic prev (lit "*" ++ a ++ lit "*" ++ rest) =
    Some (lit "*" ++ a ++ lit "*", [a]).
Proof.
  intros prev a rest Hall Hstar. unfold Reader.italic.
  apply (exec_Cat_some (Chars (lit "*")) _ prev _ (lit "*") []
                       (a ++ lit "*") [a]);
    [apply (exec_Chars_app (lit "*")) |].
  cbn [length skipn lit map list_ascii_of_string app].
  apply (exec_lazy_group Dot (Chars (lit "*")) a (lit "*" ++ rest) _ (lit "*")
      []).
  - apply Forall_forall. intros c Hc. cbn [cmatch].
    rewrite Forall_forall in Hall. rewrite (Hall c Hc). reflexivity.
  - intros a1 c a2 E. apply (exec_Chars_only_head 42). intros ->.
    apply Hstar. rewrite E. apply in_or_app. right. left. reflexivity.
  - reflexivity.
Qed.

Lemma expand_tagged :
  forall tag a,
    expand (Reader.tagged tag) [a] =
    lit "<" ++ lit tag ++ lit ">" ++ a ++ lit "</" ++ lit tag ++ lit ">".
Proof.
  intros tag a. unfold Reader.tagged. cbn [expand flat_map nth pred].
  rewrite !app_nil_r, <- !app_assoc. reflexivity.
Qed.

(** The bold pattern needs two stars in a row. *)
Lemma bold_needs_two_stars :
  forall s prev,
    includes (lit "**") s = false ->
    replaceFrom Reader.bold (Reader.tagged "strong") 0 prev s = s.
Proof.
  induction s as [| c s IH]; intros prev H.
  - reflexivity.
  - cbn [includes] in H. apply orb_false_iff in H. destruct H as [H1 H2].
    rewrite replaceFrom_nomatch; [rewrite (IH _ H2); reflexivity |].
    destruct (N.eq_dec c 42) as [-> | Hc].
    + destruct s as [| d s]; [reflexivity |].
      apply exec_star_pair_mismatch. intros ->. discriminate H1.
    + apply (exec_Chars_head 42). exact Hc.
Qed.

Lemma no_two_stars :
  forall t, ~ In 42%N t -> includes (lit "**") (t ++ lit "*") = false.
Proof.
  induction t as [| d t IH]; intros H; [reflexivity |].
  cbn [app includes startsWith lit map list_ascii_of_string].
  assert (E : N.eqb 42 d = false).
  { apply N.eqb_neq. intros <-. apply H. left. reflexivity. }
  change (N_of_ascii "*") with 42%N. rewrite E. cbn [andb orb].
  apply IH. intros Hin. apply H. right. exact Hin.
Qed.

Lemma includes_cons :
  forall needle c s,
    includes needle (c :: s) = startsWith needle (c :: s) || includes needle s.
Proof. reflexivity. Qed.

Lemma exec_two_stars_mismatch :
  forall prev c d s,
    d <> 42%N ->
    exec (Chars (lit "*") >> Chars (lit "*")) prev (c :: d :: s) = None.
Proof.
  intros prev c d s H.
  assert (E : N.eqb 42 d = false) by (apply N.eqb_neq; congruence).
  unfold exec. cbn [attempts lit map list_ascii_of_string startsWith].
  change (N_of_ascii "*") with 42%N.
  destruct (N.eqb 42 c); [| reflexivity].
  cbn [andb flat_map fst snd length skipn app map lastOr rev startsWith].
  rewrite E. reflexivity.
Qed.

Lemma bold_stage_one :
  forall a rest,
    Forall (fun c => isLineTerminator c = false) a ->
    (forall p a1 c a2,
        a = a1 ++ c :: a2 ->
        exec (Chars (lit "*") >> Chars (lit "*")) p
             (c :: a2 ++ lit "**" ++ rest) = None) ->
    replaceAll Reader.bold (Reader.tagged "strong")
               (lit "**" ++ a ++ lit "**" ++ rest) =
    lit "<strong>" ++ a ++ lit "</strong>" ++
    replaceFrom Reader.bold (Reader.tagged "strong") 0 (Some 42%N) rest.
Proof.
  intros a rest Hall Hnone. unfold replaceAll.
  rewrite (replaceFrom_match Reader.bold (Reader.tagged "strong") None _
             (lit "**" ++ a ++ lit "**") [a] rest).
  - rewrite expand_tagged.
    rewrite (app_assoc (lit "**")), lastOr_app. cbn [lastOr rev app lit map
      list_ascii_of_string]. rewrite <- !app_assoc. reflexivity.
  - apply exec_bold_at; assumption.
  - discriminate.
  - rewrite <- !app_assoc. reflexivity.
Qed.

Lemma italic_stage_one :
  forall pre a rest,
    ~ In 42%N pre ->
    Forall (fun c => isLineTerminator c = false) a ->
    ~ In 42%N a ->
    replaceAll Reader.italic (Reader.tagged "em")
               (pre ++ lit "*" ++ a ++ lit "*" ++ rest) =
    pre ++ lit "<em>" ++ a ++ lit "</em>" ++
    replaceFrom Reader.italic (Reader.tagged "em") 0 (Some 42%N) rest.
Proof.
  intros pre a rest Hpre Hall Hstar. unfold replaceAll.
  rewrite replaceFrom_copies.
  - rewrite (replaceFrom_match Reader.italic (Reader.tagged "em") _ _
               (lit "*" ++ a ++ lit "*") [a] rest).
    + rewrite expand_tagged.
      rewrite (app_assoc (lit "*")), lastOr_app. cbn [lastOr rev app lit map
        list_ascii_of_string]. rewrite <- !app_assoc. reflexivity.
    + apply exec_italic_at; assumption.
    + discriminate.
    + rewrite <- !app_assoc. reflexivity.
  - intros a1 c a2 E. apply (exec_Chars_head 42). intros ->.
    apply Hpre. rewrite E. apply in_or_app. right. left. reflexivity.
Qed.

(** The stages after the emphasis leave text without their marks as it
    is. *)
Lemma late_stages_unmarked :
  forall s,
    (forall c, In c s -> ~ In c [91; 33; 10]%N) ->
    replaceAll Reader.newline [Txt (lit "<br>")]
      (replaceAll (Reader.newline >> Reader.newline) [Txt (lit "</p><p>")]
        (replaceAll Reader.image Reader.imageTemplate
          (replaceAll Reader.link Reader.anchorTemplate s))) = s.
Proof.
  intros s H.
  assert (N : forall x, In x [91; 33; 10]%N -> ~ In x s).
  { intros x Hx Hin. apply (H x Hin Hx). }
  rewrite link_unmarked by (apply N; simpl; tauto).
  rewrite image_unmarked by (apply N; simpl; tauto).
  rewrite paragraph_break_unmarked by (apply N; simpl; tauto).
  apply line_break_unmarked. apply N. simpl. tauto.
Qed.

Lemma lineText_facts :
  forall t, lineText t ->
    Forall (fun c => isLineTerminator c = false) t /\
    ~ In 42%N t /\
    (forall c, In c t -> ~ In c [91; 33; 10]%N).
Proof.
  intros t H. split; [| split].
  - apply Forall_forall. intros c Hc. apply (H c Hc).
  - intros Hin. apply (proj1 (H _ Hin)). simpl. tauto.
  - intros c Hc Hin. destruct (H c Hc) as [H1 H2]. simpl in Hin.
    destruct Hin as [<- | [<- | [<- | []]]];
      try (apply H1; simpl; tauto); discriminate H2.
Qed.

Lemma headers_unmatched :
  forall s,
    startsWith [35%N] s = false ->
    (forall c, In c s -> isLineTerminator c = false) ->
    replaceAll (Reader.header "# ") (Reader.tagged "h1")
      (replaceAll (Reader.header "## ") (Reader.tagged "h2")
        (replaceAll (Reader.header "### ") (Reader.tagged "h3") s)) = s.
Proof.
  intros s Hs Hl.
  assert (E : forall h, startsWith (35%N :: h) s = false).
  { intros h. destruct s as [| c s]; [reflexivity |].
    cbn [startsWith] in *. apply andb_false_iff in Hs.
    destruct Hs as [Hs | Hs]; [rewrite Hs; reflexivity | discriminate Hs]. }
  rewrite (header_unmatched "### " "h3" s); [| discriminate | apply E | exact
      Hl].
  rewrite (header_unmatched "## " "h2" s); [| discriminate | apply E | exact
      Hl].
  apply (header_unmatched "# " "h1" s); [discriminate | apply E | exact Hl].
Qed.

(** X22: text between two stars on each side becomes [strong], between
    one star on each side [em]; between three stars on each side the two
    elements overlap: [<strong><em>] is closed by [</strong></em>]. *)
Theorem markdownToHtml_emphasis :
  forall t,
    t <> [] -> lineText t ->
    Reader.markdownToHtml (Some (lit "**" ++ t ++ lit "**")) =
      lit "<p><strong>" ++ t ++ lit "</strong></p>" /\
    Reader.markdownToHtml (Some (lit "*" ++ t ++ lit "*")) =
      lit "<p><em>" ++ t ++ lit "</em></p>" /\
    Reader.markdownToHtml (Some (lit "***" ++ t ++ lit "***")) =
      lit "<p><strong><em>" ++ t ++ lit "</strong></em></p>".
Proof.
  intros t Hne Ht.
  destruct (lineText_facts t Ht) as (Hall & Hstar & Hlate).
  assert (Hlt : forall pre post c,
             (forall x, In x pre -> isLineTerminator x = false) ->
             (forall x, In x post -> isLineTerminator x = false) ->
             In c (pre ++ t ++ post) -> isLineTerminator c = false).
  { intros pre post c Hpre Hpost Hc. rewrite !in_app_iff in Hc.
    destruct Hc as [Hc | [Hc | Hc]];
      [apply (Hpre c Hc) | apply (Ht c Hc) | apply (Hpost c Hc)]. }
  assert (Hmark : forall pre post c,
             (forall x, In x pre -> ~ In x [91; 33; 10]%N) ->
             (forall x, In x post -> ~ In x [91; 33; 10]%N) ->
             In c (pre ++ t ++ post) -> ~ In c [91; 33; 10]%N).
  { intros pre post c Hpre Hpost Hc. rewrite !in_app_iff in Hc.
    destruct Hc as [Hc | [Hc | Hc]];
      [apply (Hpre c Hc) | apply (Hlate c Hc) | apply (Hpost c Hc)]. }
  assert (Lit : forall (l : jsstring) (p : N -> Prop),
             Forall p l -> forall x, In x l -> p x).
  { intros l p H x Hx. rewrite Forall_forall in H. apply (H x Hx). }
  split; [| split].
  - rewrite markdownToHtml_stages by discriminate.
    rewrite headers_unmatched;
      [| reflexivity
       | intros c; apply Hlt; apply Lit; repeat constructor].
    rewrite <- (app_nil_r (lit "**")) at 2. rewrite bold_stage_one;
      [| exact Hall
       | intros p a1 c a2 E; apply exec_closing_stars_mismatch; intros ->;
         apply Hstar; rewrite E; apply in_or_app; right; left; reflexivity].
    cbn [replaceFrom exec attempts Reader.bold hd_error flat_map].
    rewrite italic_unmarked.
    + rewrite late_stages_unmarked.
      * rewrite <- !app_assoc. reflexivity.
      * intros c. apply (Hmark (lit "<strong>") (lit "</strong>" ++ []));
          apply Lit; repeat constructor; simpl; intuition discriminate.
    + rewrite !in_app_iff. intros [H | [H | H]];
        [vm_compute in H; intuition discriminate | exact (Hstar H)
         | vm_compute in H; intuition discriminate].
  - rewrite markdownToHtml_stages by discriminate.
    rewrite headers_unmatched;
      [| reflexivity
       | intros c; apply Hlt; apply Lit; repeat constructor].
    assert (B : replaceAll Reader.bold (Reader.tagged "strong")
                           (lit "*" ++ t ++ lit "*") =
                lit "*" ++ t ++ lit "*").
    { apply bold_needs_two_stars.
      destruct t as [| d t']; [contradiction |].
      assert (E : N.eqb 42 d = false).
      { apply N.eqb_neq. intros <-. apply Hstar. left. reflexivity. }
      change (lit "*" ++ (d :: t') ++ lit "*")
        with (42%N :: d :: t' ++ lit "*").
      rewrite includes_cons. change (lit "**") with [42%N; 42%N] at 1.
      cbn [startsWith]. rewrite E. cbn [andb orb].
      apply (no_two_stars (d :: t') Hstar). }
    rewrite B.
    assert (I : replaceAll Reader.italic (Reader.tagged "em")
                           (lit "*" ++ t ++ lit "*") =
                lit "<em>" ++ t ++ lit "</em>").
    { exact (italic_stage_one [] t [] (fun H => H) Hall Hstar). }
    rewrite I.
    rewrite late_stages_unmarked.
    + rewrite <- !app_assoc. reflexivity.
    + intros c. apply (Hmark (lit "<em>") (lit "</em>"));
        apply Lit; repeat constructor; simpl; intuition discriminate.
  - rewrite markdownToHtml_stages by discriminate.
    rewrite headers_unmatched;
      [| reflexivity
       | intros c; apply Hlt; apply Lit; repeat constructor].
    assert (B : replaceAll Reader.bold (Reader.tagged "strong")
                           (lit "***" ++ t ++ lit "***") =
                lit "<strong>*" ++ t ++ lit "</strong>*").
    { refine (bold_stage_one (lit "*" ++ t) (lit "*") _ _).
      - constructor; [reflexivity | exact Hall].
      - intros p a1 c a2 E. destruct a1 as [| x a1].
        + injection E as <- <-.
          destruct t as [| d t']; [contradiction |].
          apply exec_two_stars_mismatch. intros ->. apply Hstar. left.
          reflexivity.
        + injection E as _ E. apply exec_closing_stars_mismatch. intros ->.
          apply Hstar. rewrite E. apply in_or_app. right. left. reflexivity. }
    rewrite B.
    assert (I : replaceAll Reader.italic (Reader.tagged "em")
                           (lit "<strong>*" ++ t ++ lit "</strong>*") =
                lit "<strong><em>" ++ t ++ lit "</strong></em>").
    { pose proof (italic_stage_one (lit "<strong>") (t ++ lit "</strong>") [])
        as E.
      rewrite <- !app_assoc in E. apply E.
      - vm_compute. intuition discriminate.
      - apply Forall_app. split; [exact Hall | repeat constructor].
      - rewrite in_app_iff. intros [H | H]; [exact (Hstar H) |].
        vm_compute in H. intuition discriminate. }
    rewrite I.
    rewrite late_stages_unmarked.
    + rewrite <- !app_assoc. reflexivity.
    + intros c. apply (Hmark (lit "<strong><em>") (lit "</strong></em>"));
        apply Lit; repeat constructor; simpl; intuition discriminate.
Qed.

Lemma markdownToHtml_emphasis_witness :
  lit "bold" <> [] /\ lineText (lit "bold") /\
  Reader.markdownToHtml (Some (lit "***bold***")) =
    lit "<p><strong><em>bold</strong></em></p>".
Proof.
  assert (H : lineText (lit "bold")).
  { intros c Hc. simpl in Hc.
    repeat (destruct Hc as [<- | Hc];
            [split; [simpl; intuition discriminate | reflexivity] |]).
    destruct Hc. }
  split; [discriminate |]. split; [exact H |].
  destruct (markdownToHtml_emphasis (lit "bold") ltac:(discriminate) H)
    as (_ & _ & E).
  exact E.
Defined.

(** ** Links with spaces *)

Section Amends.

Variable T : jsstring.
Variable X : N.

Lemma amends_after_drop :
  forall b s s', amends T X b s s' -> amends T X true s s'.
Proof.
  intros b s s' H. induction H as [b | b c s s' H IH | b c s s' Hc H IH
                                   | b c s s' Hc Hb H IH].
  - constructor.
  - constructor. assumption.
  - apply amends_drop; [| assumption].
    destruct Hc as [Hc | [_ Hc]]; [left; exact Hc | right; split;
                                                   [reflexivity | exact Hc]].
  - apply amends_put; [assumption | left; reflexivity | assumption].
Qed.

Lemma amends_drops_after :
  forall d s s',
    (forall x, In x d -> hd_error T <> Some x) ->
    amends T X true s s' -> amends T X true (d ++ s) s'.
Proof.
  induction d as [| c d IH]; intros s s' Hd H.
  - exact H.
  - simpl app. apply amends_drop.
    + right. split; [reflexivity | apply Hd; left; reflexivity].
    + apply IH; [| exact H]. intros x Hx. apply Hd. right. exact Hx.
Qed.

Lemma not_in_not_head :
  forall x, ~ In x T -> hd_error T <> Some x.
Proof.
  intros x H E. apply H. destruct T as [| t T']; [discriminate E |].
  injection E as <-. left. reflexivity.
Qed.

Lemma amends_drops :
  forall d b s s',
    (forall c, In c d -> ~ In c T) -> d <> [] \/ b = true ->
    amends T X true s s' -> amends T X b (d ++ s) s'.
Proof.
  intros [| c d] b s s' Hd Hb H.
  - destruct Hb as [Hb | ->]; [contradiction | exact H].
  - simpl app. apply amends_drop.
    + left. apply Hd. left. reflexivity.
    + apply amends_drops_after; [| exact H].
      intros x Hx. apply not_in_not_head. apply Hd. right. exact Hx.
Qed.

Lemma amends_puts :
  forall t b s s',
    ~ In X t ->
    (b = true \/ s = [] \/ exists d s0, s = d :: s0 /\ ~ In d T) ->
    amends T X b s s' -> amends T X b s (t ++ s').
Proof.
  induction t as [| c t IH]; intros b s s' Ht Hb H.
  - exact H.
  - simpl app. apply amends_put; [| exact Hb |].
    + intros ->. apply Ht. left. reflexivity.
    + apply IH; [| exact Hb | exact H].
      intros Hin. apply Ht. right. assumption.
Qed.

Lemma amends_copies :
  forall cap b s s',
    amends T X (match cap with [] => b | _ :: _ => false end) s s' ->
    amends T X b (cap ++ s) (cap ++ s').
Proof.
  induction cap as [| c cap IH]; intros b s s' H.
  - exact H.
  - simpl app. apply amends_copy. apply IH.
    destruct cap; exact H.
Qed.

(** Inside the token nothing is dropped and nothing is put. *)
Lemma amends_inside_token :
  forall T2 post s',
    (forall c, In c T2 -> In c T) ->
    amends T X false (T2 ++ post) s' -> exists post', s' = T2 ++ post'.
Proof.
  induction T2 as [| d T2 IH]; intros post s' Hsub H.
  - exists s'. reflexivity.
  - assert (Hd : In d T) by (apply Hsub; left; reflexivity).
    inversion H as [| b0 c0 s0 s1 H0 | b0 c0 s0 s1 Hc H0 | b0 c0 s0 s1 Hc Hb
        H0];
      subst.
    + destruct (IH post s1) as [post' ->].
      * intros c Hc. apply Hsub. right. assumption.
      * exact H0.
      * exists post'. reflexivity.
    + destruct Hc as [Hc | [Hc _]]; [contradiction | discriminate Hc].
    + exfalso. destruct Hb as [Hb | [Hb | (d0 & s2 & Hb & Hn)]].
      * discriminate Hb.
      * discriminate Hb.
      * simpl in Hb. injection Hb as <- <-. contradiction.
Qed.

Lemma amends_keeps :
  forall b s s',
    amends T X b s s' ->
    forall pre post,
      s = pre ++ T ++ post -> ~ In X pre ->
      exists pre' post', s' = pre' ++ T ++ post' /\ ~ In X pre'.
Proof.
  intros b s s' H.
  induction H as [b | b c s s' H IH | b c s s' Hc H IH | b c s s' Hc Hb H IH];
    intros pre post Es Hpre.
  - symmetry in Es. apply app_eq_nil in Es. destruct Es as [-> Es].
    apply app_eq_nil in Es. destruct Es as [-> ->].
    exists [], []. split; [reflexivity | exact Hpre].
  - destruct pre as [| p pre].
    + simpl in Es. destruct (nil_or_cons T) as [ET | (t & T2 & ET)].
      * exists [], (c :: s'). rewrite ET. split; [reflexivity | exact Hpre].
      * rewrite ET in Es. simpl in Es. injection Es as -> ->.
        destruct (amends_inside_token T2 post) with (s' := s') as [post' ->].
        -- intros c Hc. rewrite ET. right. assumption.
        -- exact H.
        -- exists [], post'. rewrite ET. split; [reflexivity | exact Hpre].
    + simpl in Es. injection Es as -> ->.
      destruct (IH pre post eq_refl) as (pre' & post' & -> & Hpre').
      * intros Hin. apply Hpre. right. assumption.
      * exists (p :: pre'), post'. split; [reflexivity |].
        intros [E | Hin]; [| contradiction].
        apply Hpre. left. assumption.
  - destruct pre as [| p pre].
    + simpl in Es. destruct (nil_or_cons T) as [ET | (t & T2 & ET)].
      * exists [], s'. rewrite ET. split; [reflexivity | exact Hpre].
      * rewrite ET in Es. simpl in Es. injection Es as -> ->.
        exfalso. destruct Hc as [Hc | [_ Hc]].
        -- apply Hc. rewrite ET. left. reflexivity.
        -- apply Hc. rewrite ET. reflexivity.
    + simpl in Es. injection Es as -> ->.
      apply (IH pre post eq_refl).
      intros Hin. apply Hpre. right. assumption.
  - destruct (IH pre post Es Hpre) as (pre' & post' & -> & Hpre').
    exists (c :: pre'), post'. split; [reflexivity |].
    intros [E | Hin]; [| contradiction]. apply Hc. assumption.
Qed.

Variable r : regex.
Variable tmpl : list piece.

Hypothesis Hencloses : encloses T X r tmpl.

Lemma replaceFrom_amends :
  forall n s prev,
    length s <= n -> amends T X false s (replaceFrom r tmpl 0 prev s).
Proof.
  induction n as [| n IH]; intros s prev Hlen.
  - destruct s; [| simpl in Hlen; lia].
    cbn [replaceFrom]. destruct (exec r prev []) as [[m caps] |] eqn:He.
    + destruct (Hencloses _ _ _ _ He)
        as (c & d1 & cap & d2 & t1 & t2 & rest & Es & Em & _).
      subst m. discriminate Es.
    + constructor.
  - destruct (exec r prev s) as [[m caps] |] eqn:He.
    + destruct (Hencloses _ _ _ _ He)
        as (c & d1 & cap & d2 & t1 & t2 & rest & Es & Em & Ex & Hc & Hn1 & Hn2
            & Ht1 & Ht2 & Hb).
      assert (Hm : m <> []) by (subst m; discriminate).
      rewrite (replaceFrom_match r tmpl prev s m caps rest He Hm Es), Ex.
      assert (Hrest : length rest <= n).
      { subst s m. rewrite !length_app in Hlen. simpl in Hlen. lia. }
      specialize (IH rest (lastOr prev m) Hrest).
      clear He Hm Hlen. subst s m. rewrite <- !app_assoc.
      cbn [app]. apply amends_drop; [left; exact Hc |].
      apply amends_drops_after; [exact Hn1 |].
      apply amends_puts; [exact Ht1 | left; reflexivity |].
      apply amends_copies.
      destruct d2 as [| x d2].
      * simpl app. destruct cap as [| y cap].
        -- apply amends_puts; [exact Ht2 | left; reflexivity |].
           apply amends_after_drop with (b := false). exact IH.
        -- apply amends_puts; [exact Ht2 | | exact IH].
           destruct Hb as [Hb | [Hb | Hb]];
             [contradiction | discriminate | right; exact Hb].
      * apply amends_drops; [exact Hn2 | left; discriminate |].
        apply amends_puts; [exact Ht2 | left; reflexivity |].
        apply amends_after_drop with (b := false). exact IH.
    + destruct s as [| c s].
      * cbn [replaceFrom]. rewrite He. constructor.
      * rewrite (replaceFrom_nomatch r tmpl prev c s He).
        apply amends_copy. apply IH. simpl in Hlen. lia.
Qed.

Lemma replaceAll_keeps_token :
  forall pre post,
    ~ In X pre ->
    exists pre' post',
      replaceAll r tmpl (pre ++ T ++ post) = pre' ++ T ++ post' /\
      ~ In X pre'.
Proof.
  intros pre post Hpre.
  apply (amends_keeps _ _ _ (replaceFrom_amends _ _ None (le_n _))
                      pre post eq_refl Hpre).
Qed.

End Amends.

Lemma sandwich_encloses :
  forall T X r tmpl, sandwich T X r tmpl -> encloses T X r tmpl.
Proof.
  intros T X r tmpl H prev s m caps He.
  destruct (H prev s m caps He)
    as (d1 & cap & d2 & t1 & t2 & rest & Es & Em & Ex & Hd1 & Hn1 & Hn2
        & Ht1 & Ht2 & Hb).
  destruct d1 as [| c d1]; [contradiction |].
  exists c, d1, cap, d2, t1, t2, rest.
  split; [exact Es |]. split; [exact Em |]. split; [exact Ex |].
  split; [apply Hn1; left; reflexivity |].
  split; [intros x Hx; apply not_in_not_head; apply Hn1; right; exact Hx |].
  split; [exact Hn2 |]. split; [exact Ht1 |]. split; [exact Ht2 |].
  exact Hb.
Qed.

Lemma encloses_header :
  forall (T : jsstring) (hashes tag : string),
    In hashes ["### "; "## "; "# "]%string ->
    ~ In 35%N T -> hd_error T <> Some 32%N ->
    (forall c, isLineTerminator c = true -> ~ In c T) ->
    ~ In 91%N (lit "<" ++ lit tag ++ lit ">") ->
    ~ In 91%N (lit "</" ++ lit tag ++ lit ">") ->
    encloses T 91 (Reader.header hashes) (Reader.tagged tag).
Proof.
  intros T hashes tag Hin Hhash Hsp Hlt Ht1 Ht2 prev s m caps He.
  apply exec_In in He. unfold Reader.header in He.
  cat_inv He m1 c1 m2 c2 H1 H2.
  apply attempts_Bol_inv in H1. destruct H1 as (-> & -> & _).
  cbn [lastOr rev length skipn] in H2.
  cat_inv H2 m3 c3 m4 c4 H3 H4.
  chars_inv H3 rest3.
  rewrite skipn_length_app in H4.
  apply attempts_Grp_inv in H4. destruct H4 as (inner & -> & H4).
  cat_inv H4 m5 c5 m6 c6 H5 H6.
  apply attempts_Rep_inv in H5. destruct H5 as (-> & _ & Hrun & rest5 & ->).
  rewrite skipn_length_app in H6.
  apply attempts_Eol_inv in H6. destruct H6 as (-> & -> & Hend).
  assert (Hd : exists d, lit hashes = 35%N :: d /\
                         forall x, In x d -> x = 35%N \/ x = 32%N).
  { destruct Hin as [<- | [<- | [<- | []]]]; eexists;
      (split; [reflexivity |]); intros x Hx; simpl in Hx;
      repeat (destruct Hx as [<- | Hx]; [tauto |]); destruct Hx. }
  destruct Hd as (d & Ed & Hd).
  exists 35%N, d, m5, [], (lit "<" ++ lit tag ++ lit ">"),
    (lit "</" ++ lit tag ++ lit ">"), rest5.
  rewrite <- Ed. cbn [app]. rewrite !app_nil_r.
  split; [rewrite <- app_assoc; reflexivity |].
  split; [reflexivity |].
  split; [cbn; rewrite ?app_nil_r; reflexivity |].
  split; [exact Hhash |].
  split.
  { intros x Hx. destruct (Hd x Hx) as [-> | ->];
      [apply not_in_not_head; exact Hhash | exact Hsp]. }
  split; [intros c [] |].
  split; [exact Ht1 |].
  split; [exact Ht2 |].
  right. right. destruct Hend as [-> | (c & s' & -> & Hc)].
  - left. reflexivity.
  - right. exists c, s'. split; [reflexivity | apply Hlt; exact Hc].
Qed.

Lemma link_stage_any :
  forall text url pre post,
    text <> [] -> url <> [] -> ~ In 93%N text -> ~ In 41%N url ->
    ~ In 91%N pre ->
    exists post',
      replaceAll Reader.link Reader.anchorTemplate
                 (pre ++ linkTokenOf text url ++ post) =
      pre ++ anchorOf text url ++ post'.
Proof.
  intros text url pre post Ht Hu Hnt Hnu Hpre. unfold replaceAll.
  rewrite replaceFrom_copies.
  - rewrite (replaceFrom_match Reader.link Reader.anchorTemplate _
               (linkTokenOf text url ++ post) (linkTokenOf text url)
               [text; url] post).
    + assert (Ex : expand Reader.anchorTemplate [text; url] =
                   anchorOf text url).
      { unfold Reader.anchorTemplate, anchorOf.
        cbn [expand flat_map nth pred]. rewrite ?app_nil_r, <- ?app_assoc.
        reflexivity. }
      rewrite Ex. eexists. reflexivity.
    + unfold linkTokenOf. rewrite <- !app_assoc.
      apply exec_link_match; assumption.
    + unfold linkTokenOf. discriminate.
    + reflexivity.
  - intros a1 c a2 E. apply exec_Chars_head.
    intros ->. apply Hpre. rewrite E. apply in_or_app. right. left. reflexivity.
Qed.

(** The image stage leaves bracket-free text alone if it does not end
    with an exclamation mark. *)
Lemma image_stage_any :
  forall kept last post,
    ~ In 91%N (kept ++ [last]) -> last <> 33%N ->
    exists post',
      replaceAll Reader.image Reader.imageTemplate ((kept ++ [last]) ++ post) =
      (kept ++ [last]) ++ post'.
Proof.
  intros kept last post Hno Hlast. unfold replaceAll.
  rewrite replaceFrom_copies.
  - eexists. reflexivity.
  - intros a1 c a2 E.
    destruct (N.eq_dec c 33) as [-> | Hc].
    + destruct a2 as [| d a2].
      * exfalso. apply app_inj_tail in E.
        destruct E as [_ E]. congruence.
      * apply exec_Chars_second. intros ->. apply Hno. rewrite E.
        apply in_or_app. right. right. left. reflexivity.
    + apply exec_Chars_head. exact Hc.
Qed.

Lemma linkPart_facts :
  forall s, linkPart s ->
    s <> [] /\ ~ In 35%N s /\ ~ In 42%N s /\ ~ In 91%N s /\ ~ In 93%N s /\
    ~ In 41%N s /\ (forall c, isLineTerminator c = true -> ~ In c s).
Proof.
  intros s [Hne H].
  assert (N : forall x, In x [35; 42; 91; 93; 41]%N -> ~ In x s).
  { intros x Hx Hin. apply (proj1 (H x Hin) Hx). }
  split; [exact Hne |].
  repeat (split; [apply N; simpl; tauto |]).
  intros c Hc Hin. rewrite (proj2 (H c Hin)) in Hc. discriminate Hc.
Qed.

(** X24: a link token whose text and address are not empty and hold no
    hash, star, bracket, closing parenthesis or line terminator, and
    before which no opening bracket occurs, becomes the anchor element
    for that address and text, whatever surrounds it; the text may hold
    spaces. *)
Theorem markdownToHtml_renders_every_link :
  forall pre text url post,
    linkPart text -> linkPart url -> ~ In 91%N pre ->
    includes (anchorOf text url)
             (Reader.markdownToHtml
                (Some (pre ++ linkTokenOf text url ++ post))) = true.
Proof.
  intros pre text url post Htext Hurl Hpre.
  destruct (linkPart_facts text Htext) as (Tne & T35 & T42 & T91 & T93 & T41 &
      Tlt).
  destruct (linkPart_facts url Hurl) as (Une & U35 & U42 & U91 & U93 & U41 &
      Ult).
  set (T := linkTokenOf text url).
  set (A := anchorOf text url).
  assert (Hin : forall c, In c T ->
                          In c text \/ In c url \/ In c [91; 93; 40; 41]%N).
  { intros c Hc. unfold T, linkTokenOf in Hc. rewrite !in_app_iff in Hc.
    simpl in Hc. simpl. tauto. }
  assert (Hhash : ~ In 35%N T).
  { intros H. destruct (Hin _ H) as [H1 | [H1 | H1]];
      [exact (T35 H1) | exact (U35 H1) | simpl in H1; intuition discriminate]. }
  assert (Hstar : ~ In 42%N T).
  { intros H. destruct (Hin _ H) as [H1 | [H1 | H1]];
      [exact (T42 H1) | exact (U42 H1) | simpl in H1; intuition discriminate]. }
  assert (Hlt : forall c, isLineTerminator c = true -> ~ In c T).
  { intros c Hc H. destruct (Hin _ H) as [H1 | [H1 | H1]];
      [exact (Tlt c Hc H1) | exact (Ult c Hc H1) |].
    simpl in H1. destruct H1 as [<- | [<- | [<- | [<- | []]]]]; discriminate Hc.
        }
  assert (Hsp : hd_error T <> Some 32%N) by (unfold T, linkTokenOf;
      discriminate).
  assert (Hh : forall h tag,
             In h ["### "; "## "; "# "]%string ->
             In tag ["h1"; "h2"; "h3"]%string ->
             encloses T 91 (Reader.header h) (Reader.tagged tag)).
  { intros h tag Hh Htag.
    apply encloses_header; [exact Hh | exact Hhash | exact Hsp | exact Hlt | |];
      destruct Htag as [<- | [<- | [<- | []]]];
      apply not_In_by_existsb; vm_compute; reflexivity. }
  destruct (replaceAll_keeps_token T 91 _ _
              (Hh "### "%string "h3"%string ltac:(simpl; tauto) ltac:(simpl;
                  tauto))
              pre post Hpre) as (pre1 & post1 & E1 & Hpre1).
  destruct (replaceAll_keeps_token T 91 _ _
              (Hh "## "%string "h2"%string ltac:(simpl; tauto) ltac:(simpl;
                  tauto))
              pre1 post1 Hpre1) as (pre2 & post2 & E2 & Hpre2).
  destruct (replaceAll_keeps_token T 91 _ _
              (Hh "# "%string "h1"%string ltac:(simpl; tauto) ltac:(simpl;
                  tauto))
              pre2 post2 Hpre2) as (pre3 & post3 & E3 & Hpre3).
  destruct (replaceAll_keeps T 91 _ _ (sandwich_bold T Hstar)
              pre3 post3 Hpre3) as (pre4 & post4 & E4 & Hpre4).
  destruct (replaceAll_keeps T 91 _ _ (sandwich_italic T Hstar)
              pre4 post4 Hpre4) as (pre5 & post5 & E5 & Hpre5).
  destruct (link_stage_any text url pre5 post5 Tne Une T93 U41 Hpre5)
    as (post6 & E6).
  fold T in E6. fold A in E6.
  assert (HA : forall c, In c A ->
                 In c text \/ In c url \/
                 In c (sq
                     "<a href='' target='_blank' rel='noopener noreferrer'></a>")).
  { intros c Hc. unfold A, anchorOf in Hc. rewrite !in_app_iff in Hc.
    destruct Hc as [Hc | [Hc | [Hc | [Hc | Hc]]]]; [| tauto | | tauto |];
      right; right; revert Hc; vm_compute; tauto. }
  assert (A91 : ~ In 91%N A).
  { intros H. destruct (HA _ H) as [H1 | [H1 | H1]];
      [exact (T91 H1) | exact (U91 H1) |].
    revert H1. apply not_In_by_existsb. vm_compute. reflexivity. }
  assert (A10 : ~ In 10%N A).
  { intros H. destruct (HA _ H) as [H1 | [H1 | H1]];
      [exact (Tlt 10%N eq_refl H1) | exact (Ult 10%N eq_refl H1) |].
    revert H1. apply not_In_by_existsb. vm_compute. reflexivity. }
  assert (EA : exists kept, pre5 ++ A = kept ++ [62%N]).
  { exists (pre5 ++ sq "<a href='" ++ url ++
            sq "' target='_blank' rel='noopener noreferrer'>" ++ text ++
            lit "</a").
    unfold A, anchorOf. rewrite <- !app_assoc. reflexivity. }
  destruct EA as (kept & EA).
  destruct (image_stage_any kept 62 post6) as (post7 & E7).
  { rewrite <- EA. intros H. apply in_app_or in H.
    destruct H as [H | H]; [exact (Hpre5 H) | exact (A91 H)]. }
  { discriminate. }
  rewrite <- EA, <- !app_assoc in E7.
  destruct (replaceAll_keeps A 91 _ _ (sandwich_paragraph_break A A10)
              pre5 post7 Hpre5) as (pre8 & post8 & E8 & Hpre8).
  destruct (replaceAll_keeps A 91 _ _ (sandwich_line_break A A10)
              pre8 post8 Hpre8) as (pre9 & post9 & E9 & Hpre9).
  rewrite markdownToHtml_stages
    by (unfold T, linkTokenOf; destruct pre; discriminate).
  rewrite E1, E2, E3, E4, E5, E6, E7, E8, E9.
  rewrite <- !app_assoc. rewrite (app_assoc (lit "<p>") pre9).
  apply includes_app.
Qed.

Lemma markdownToHtml_renders_every_link_witness :
  linkPart (lit "the docs") /\ linkPart (lit "https://example.com/a") /\
  ~ In 91%N (lit "# see ") /\
  includes (anchorOf (lit "the docs") (lit "https://example.com/a"))
    (Reader.markdownToHtml
       (Some (lit "# see " ++
              linkTokenOf (lit "the docs") (lit "https://example.com/a") ++
              lit " now"))) = true.
Proof.
  assert (H1 : linkPart (lit "the docs")).
  { split; [discriminate |]. intros c Hc. simpl in Hc.
    repeat (destruct Hc as [<- | Hc];
            [split; [simpl; intuition discriminate | reflexivity] |]).
    destruct Hc. }
  assert (H2 : linkPart (lit "https://example.com/a")).
  { split; [discriminate |]. intros c Hc. simpl in Hc.
    repeat (destruct Hc as [<- | Hc];
            [split; [simpl; intuition discriminate | reflexivity] |]).
    destruct Hc. }
  assert (H3 : ~ In 91%N (lit "# see "))
    by (apply not_In_by_existsb; vm_compute; reflexivity).
  split; [exact H1 |]. split; [exact H2 |]. split; [exact H3 |].
  apply (markdownToHtml_renders_every_link
           (lit "# see ") (lit "the docs") (lit "https://example.com/a")
           (lit " now") H1 H2 H3).
Defined.

(** ** Request addresses *)

Lemma isUnreserved_ascii : forall c, isUnreserved c = true -> (c < 128)%N.
Proof.
  intros c H. unfold isUnreserved in H. cbn [existsb] in H.
  repeat (apply orb_true_iff in H; destruct H as [H | H]);
    try (apply andb_true_iff in H; destruct H as [H1 H2];
         apply N.leb_le in H1, H2; lia);
    try (apply N.eqb_eq in H; lia).
  discriminate H.
Qed.

Lemma isUnreserved_not_surrogate :
  forall c, isUnreserved c = true ->
            isHighSurrogate c = false /\ isLowSurrogate c = false.
Proof.
  intros c H. apply isUnreserved_ascii in H.
  unfold isHighSurrogate, isLowSurrogate.
  split; apply andb_false_iff; left; apply N.leb_gt; lia.
Qed.

Lemma option_map_none :
  forall (A B : Type) (f : A -> B) o, option_map f o = None <-> o = None.
Proof. intros A B f [x |]; simpl; split; congruence. Qed.

Lemma encodeURIComponent_wellFormed_step :
  forall s,
    (encodeURIComponent s = None <-> isWellFormed s = false) /\
    (forall c, encodeURIComponent (c :: s) = None <->
               isWellFormed (c :: s) = false).
Proof.
  induction s as [| d s [IH1 IH2]].
  - split; [split; discriminate |].
    intros c. cbn [encodeURIComponent isWellFormed].
    destruct (isUnreserved c) eqn:Eu.
    + destruct (isUnreserved_not_surrogate c Eu) as [-> ->]. cbn.
      split; discriminate.
    + destruct (isLowSurrogate c) eqn:El.
      * destruct (isHighSurrogate c); cbn; split; reflexivity.
      * destruct (isHighSurrogate c); cbn; split; try reflexivity; discriminate.
  - split; [apply IH2 |].
    intros c. cbn [encodeURIComponent isWellFormed].
    destruct (isUnreserved c) eqn:Eu.
    + destruct (isUnreserved_not_surrogate c Eu) as [-> ->].
      cbn [negb andb]. rewrite option_map_none. apply IH2.
    + destruct (isLowSurrogate c) eqn:El.
      * destruct (isHighSurrogate c) eqn:Eh.
        -- exfalso. unfold isHighSurrogate, isLowSurrogate in *.
           apply andb_true_iff in El, Eh. destruct El as [E1 E2].
           destruct Eh as [E3 E4]. apply N.leb_le in E1, E2, E3, E4. lia.
        -- cbn. split; reflexivity.
      * destruct (isHighSurrogate c) eqn:Eh.
        -- destruct (isLowSurrogate d) eqn:Ed.
           ++ cbn [andb]. rewrite option_map_none. exact IH1.
           ++ cbn. split; reflexivity.
        -- cbn [negb andb]. rewrite option_map_none. apply IH2.
Qed.

Lemma encodeURIComponent_fails_on_lone_surrogate :
  forall s, encodeURIComponent s = None <-> isWellFormed s = false.
Proof. intros s. apply encodeURIComponent_wellFormed_step. Qed.

Lemma hexDigit_unreserved :
  forall d, (d < 16)%N -> isUnreserved (hexDigit d) = true.
Proof.
  intros d H.
  assert (E : In d [0; 1; 2; 3; 4; 5; 6; 7; 8; 9; 10; 11; 12; 13; 14; 15]%N).
  { simpl. lia. }
  simpl in E.
  repeat (destruct E as [<- | E]; [reflexivity |]). destruct E.
Qed.

Lemma percent_safe :
  forall byte, (byte < 256)%N -> Forall safe (percent byte).
Proof.
  intros byte H. unfold percent.
  constructor; [right; reflexivity |].
  constructor; [left; apply hexDigit_unreserved;
                apply N.Div0.div_lt_upper_bound; lia |].
  constructor; [left; apply hexDigit_unreserved; apply N.mod_lt; lia |].
  constructor.
Qed.

Lemma utf8_bytes :
  forall cp, (cp < 1114112)%N -> Forall (fun b => (b < 256)%N) (utf8 cp).
Proof.
  intros cp H. unfold utf8.
  destruct (N.ltb_spec cp 128); [repeat constructor; lia |].
  destruct (N.ltb_spec cp 2048).
  { assert (cp / 64 < 32)%N by (apply N.Div0.div_lt_upper_bound; lia).
    assert (cp mod 64 < 64)%N by (apply N.mod_lt; lia).
    repeat constructor; lia. }
  destruct (N.ltb_spec cp 65536).
  { assert (cp / 4096 < 16)%N by (apply N.Div0.div_lt_upper_bound; lia).
    assert ((cp / 64) mod 64 < 64)%N by (apply N.mod_lt; lia).
    assert (cp mod 64 < 64)%N by (apply N.mod_lt; lia).
    repeat constructor; lia. }
  assert (cp / 262144 < 5)%N by (apply N.Div0.div_lt_upper_bound; lia).
  assert ((cp / 4096) mod 64 < 64)%N by (apply N.mod_lt; lia).
  assert ((cp / 64) mod 64 < 64)%N by (apply N.mod_lt; lia).
  assert (cp mod 64 < 64)%N by (apply N.mod_lt; lia).
  repeat constructor; lia.
Qed.

Lemma encoded_bytes_safe :
  forall cp, (cp < 1114112)%N -> Forall safe (flat_map percent (utf8 cp)).
Proof.
  intros cp H. pose proof (utf8_bytes cp H) as B.
  induction B as [| b l Hb _ IH]; [constructor |].
  cbn [flat_map]. apply Forall_app. split; [apply percent_safe; exact Hb | exact
      IH].
Qed.

Lemma encodeURIComponent_cons :
  forall c s,
    encodeURIComponent (c :: s) =
    if isUnreserved c then option_map (cons c) (encodeURIComponent s)
    else if isLowSurrogate c then None
    else if isHighSurrogate c then
      match s with
      | lo :: s'' =>
          if isLowSurrogate lo then
            option_map
              (app (flat_map percent
                      (utf8 ((c - 55296) * 1024 + (lo - 56320) + 65536)%N)))
              (encodeURIComponent s'')
          else None
      | [] => None
      end
    else option_map (app (flat_map percent (utf8 c))) (encodeURIComponent s).
Proof. reflexivity. Qed.

Lemma encodeURIComponent_safe_step :
  forall s,
    (codeUnits s -> forall out, encodeURIComponent s = Some out -> Forall safe
        out) /\
    (forall c, codeUnits (c :: s) ->
               forall out, encodeURIComponent (c :: s) = Some out ->
                           Forall safe out).
Proof.
  induction s as [| d s [IH1 IH2]].
  - split.
    + intros _ out H. injection H as <-. constructor.
    + intros c Hc out H. cbn [encodeURIComponent] in H.
      inversion Hc as [| x l Hx _]; subst.
      destruct (isUnreserved c) eqn:Eu.
      * injection H as <-. constructor; [left; exact Eu | constructor].
      * destruct (isLowSurrogate c); [discriminate H |].
        destruct (isHighSurrogate c); [discriminate H |].
        injection H as <-. rewrite app_nil_r. apply encoded_bytes_safe. lia.
  - split; [apply IH2 |].
    intros c Hc out H. rewrite encodeURIComponent_cons in H.
    inversion Hc as [| x l Hx Hds]; subst.
    inversion Hds as [| y l' Hd Hs]; subst.
    destruct (isUnreserved c) eqn:Eu.
    + destruct (encodeURIComponent (d :: s)) as [o |] eqn:Eo; [| discriminate
        H].
      injection H as <-. constructor; [left; exact Eu |].
      apply (IH2 d Hds o Eo).
    + destruct (isLowSurrogate c); [discriminate H |].
      destruct (isHighSurrogate c) eqn:Eh.
      * destruct (isLowSurrogate d) eqn:Ed; [| discriminate H].
        destruct (encodeURIComponent s) as [o |] eqn:Eo; [| discriminate H].
        injection H as <-. apply Forall_app. split.
        -- apply encoded_bytes_safe.
           unfold isHighSurrogate, isLowSurrogate in *.
           apply andb_true_iff in Eh, Ed. destruct Eh as [E1 E2].
           destruct Ed as [E3 E4]. apply N.leb_le in E1, E2, E3, E4. lia.
        -- apply (IH1 Hs o eq_refl).
      * destruct (encodeURIComponent (d :: s)) as [o |] eqn:Eo; [| discriminate
          H].
        injection H as <-. apply Forall_app. split.
        -- apply encoded_bytes_safe. lia.
        -- apply (IH2 d Hds o Eo).
Qed.

Lemma safe_not_delimiter : forall c, safe c -> ~ In c delimiters.
Proof.
  intros c [H | ->] Hin; unfold delimiters in Hin;
    [| simpl in Hin; intuition discriminate].
  simpl in Hin.
  repeat (destruct Hin as [<- | Hin]; [vm_compute in H; discriminate H |]).
  destruct Hin.
Qed.

(** X25: for well-formed text, [searchNews] and [fetchArticleContent]
    each send one request, to the address that holds the encoded text:
    what [searchNews] returns is what the shared part makes of the answer
    to that address, and what [fetchArticleContent] returns is a function
    of the answer to the request for [https://r.jina.ai/] followed by the
    encoded text, the message of a rejected request becoming the reason
    of the failure.  The encoded text holds none of the characters that
    delimit the parts of an address: the query cannot add a parameter
    and the article address cannot leave the path of the reader
    service. *)
Theorem encoded_text_cannot_change_the_request_address :
  forall key rkey query,
    codeUnits query ->
    isWellFormed query = true ->
    exists encoded,
      encodeURIComponent query = Some encoded /\
      (forall P,
          API.searchNews key P query =
          API.request P (API.searchUrl key encoded)) /\
      (exists answered : Reader.FetchOutcome -> Reader.ContentData,
          (forall RP,
              Reader.fetchArticleContent RP rkey query =
              answered (Reader.fetch RP (Reader.buildRequest rkey encoded))) /\
          (forall message,
              answered (Reader.FetchRejected message) =
              Reader.Failure message)) /\
      Reader.reqUrl (Reader.buildRequest rkey encoded) =
        lit "https://r.jina.ai/" ++ encoded /\
      forall c, In c encoded -> ~ In c delimiters.
Proof.
  intros key rkey query Hu Hw.
  destruct (encodeURIComponent query) as [encoded |] eqn:E.
  - exists encoded. split; [reflexivity |].
    split; [intros P; unfold API.searchNews; rewrite E; reflexivity |].
    split.
    { exists (fun outcome =>
                Reader.fetchArticleContent
                  {| Reader.fetch := fun _ => outcome;
                     Reader.uriErrorMessage := [] |} rkey query).
      split.
      - intros RP. unfold Reader.fetchArticleContent. rewrite E.
        cbn [Reader.fetch]. reflexivity.
      - intros message. unfold Reader.fetchArticleContent. rewrite E.
        reflexivity. }
    split; [reflexivity |].
    intros c Hc. apply safe_not_delimiter.
    pose proof (proj1 (encodeURIComponent_safe_step query) Hu encoded E) as H.
    rewrite Forall_forall in H. apply (H c Hc).
  - apply encodeURIComponent_fails_on_lone_surrogate in E. congruence.
Qed.

Lemma encoded_text_cannot_change_the_request_address_witness :
  codeUnits (lit "a&b=c d") /\ isWellFormed (lit "a&b=c d") = true /\
  exists encoded,
    encodeURIComponent (lit "a&b=c d") = Some encoded /\
    (forall P,
        API.searchNews (lit "key") P (lit "a&b=c d") =
        API.request P (API.searchUrl (lit "key") encoded)) /\
    (exists answered : Reader.FetchOutcome -> Reader.ContentData,
        (forall RP,
            Reader.fetchArticleContent RP [] (lit "a&b=c d") =
            answered (Reader.fetch RP (Reader.buildRequest [] encoded))) /\
        (forall message,
            answered (Reader.FetchRejected message) =
            Reader.Failure message)) /\
    Reader.reqUrl (Reader.buildRequest [] encoded) =
      lit "https://r.jina.ai/" ++ encoded /\
    forall c, In c encoded -> ~ In c delimiters.
Proof.
  assert (H : codeUnits (lit "a&b=c d")) by (repeat constructor).
  split; [exact H |]. split; [reflexivity |].
  apply (encoded_text_cannot_change_the_request_address
           (lit "key") [] (lit "a&b=c d") H).
  reflexivity.
Defined.

(** X26: text with a surrogate that is not half of a pair never reaches
    the network: [searchNews] throws the URIError and
    [fetchArticleContent] returns the failure that carries its message. *)
Theorem lone_surrogate_stops_the_request :
  forall key P rkey RP text,
    isWellFormed text = false ->
    API.searchNews key P text = API.Thrown (API.uriErrorMessage P) /\
    Reader.fetchArticleContent RP rkey text =
      Reader.Failure (Reader.uriErrorMessage RP).
Proof.
  intros key P rkey RP text H.
  apply encodeURIComponent_fails_on_lone_surrogate in H.
  unfold API.searchNews, Reader.fetchArticleContent. rewrite H.
  split; reflexivity.
Qed.

Lemma lone_surrogate_stops_the_request_witness :
  isWellFormed [55357%N] = false /\
  Reader.fetchArticleContent unauthorized [] [55357%N] =
    Reader.Failure (lit "URI malformed").
Proof.
  split; [reflexivity |].
  exact (proj2 (lone_surrogate_stops_the_request
                  [] (newsAnswering 200 okResponse) [] unauthorized
                  [55357%N] eq_refl)).
Defined.
